(** * Fabric Pulse: drift detection and remediation, verified against its
      specification.

    Shallow embedding of [scripts/fabric-pulse.py] (and of the host
    collection of [scripts/inventory_check.py]).

    - Python [str] values are sequences of Unicode code points: [pystr].
    - Python exceptions deriving from [Exception] are values [Raise msg],
      where [msg] is [str(exc)].  Operator interrupts are outside the model.
    - Everything the script reaches through a library (pyeapi, pathlib,
      shutil, subprocess, difflib, rich) is a field of the interface [Env]. *)

From stdpp Require Import gmap list strings sorting.
From Stdlib Require Import ZArith QArith Lia Ascii String DecimalString.
From Stdlib Require DecimalPos.

Set Warnings "-register-all".
Local Open Scope N_scope.

(* ===================================================================== *)
(** ** Python strings                                                     *)
(* ===================================================================== *)

(** A Python [str]: the list of its code points. *)
Abbreviation pystr := (list N).

(** A literal of the source, as a [pystr]. *)
Definition str (s : string) : pystr :=
  List.map N_of_ascii (list_ascii_of_string s).

Definition LF : N := 10.
Definition CR : N := 13.

(** [str.isspace] on one code point (CPython's [_PyUnicode_IsWhitespace]). *)
Definition is_space (c : N) : bool :=
  ((9 <=? c) && (c <=? 13)) || ((28 <=? c) && (c <=? 32))
  || (c =? 133) || (c =? 160) || (c =? 5760)
  || ((8192 <=? c) && (c <=? 8202))
  || (c =? 8232) || (c =? 8233) || (c =? 8239) || (c =? 8287) || (c =? 12288).

(** The line boundaries of [str.splitlines] (CPython's
    [_PyUnicode_IsLinebreak]). *)
Definition is_linebreak (c : N) : bool :=
  ((10 <=? c) && (c <=? 13)) || ((28 <=? c) && (c <=? 30))
  || (c =? 133) || (c =? 8232) || (c =? 8233).

(** [s.rstrip(chars)]: drop the longest suffix made of characters
    satisfying [p]. *)
Fixpoint rstrip_by (p : N -> bool) (s : pystr) : pystr :=
  match s with
  | [] => []
  | c :: s' =>
      match rstrip_by p s' with
      | [] => if p c then [] else [c]
      | r => c :: r
      end
  end.

(** [s.lstrip(chars)]: drop the longest prefix made of characters
    satisfying [p]. *)
Fixpoint lstrip_by (p : N -> bool) (s : pystr) : pystr :=
  match s with
  | [] => []
  | c :: s' => if p c then lstrip_by p s' else s
  end.

Definition rstrip (s : pystr) : pystr := rstrip_by is_space s.
Definition lstrip (s : pystr) : pystr := lstrip_by is_space s.

(** [s.strip()]: both ends. *)
Definition strip (s : pystr) : pystr := lstrip (rstrip s).

(** [s.rstrip("%")], [s.rstrip("C")]: strip a set of characters. *)
Definition rstrip_chars (chars : pystr) (s : pystr) : pystr :=
  rstrip_by (fun c => existsb (N.eqb c) chars) s.

(** [s.splitlines()]: split at line boundaries, a CR LF pair counting as
    one boundary; no empty last line after a final boundary. *)
Fixpoint splitlines (s : pystr) : list pystr :=
  match s with
  | [] => []
  | c :: rest =>
      if is_linebreak c then
        [] :: match rest with
              | c' :: rest' =>
                  if (c =? CR) && (c' =? LF) then splitlines rest'
                  else splitlines rest
              | [] => []
              end
      else
        match splitlines rest with
        | [] => [[c]]
        | l :: ls => (c :: l) :: ls
        end
  end.

(** [sep.join(ls)]. *)
Fixpoint join (sep : pystr) (ls : list pystr) : pystr :=
  match ls with
  | [] => []
  | l :: ls' =>
      match ls' with
      | [] => l
      | _ :: _ => l ++ sep ++ join sep ls'
      end
  end.

(** [s.startswith(prefix)]. *)
Fixpoint startswith (prefix s : pystr) : bool :=
  match prefix, s with
  | [], _ => true
  | _ :: _, [] => false
  | a :: p', b :: s' => (a =? b) && startswith p' s'
  end.

(** The expression returned by [running_config]:
    ["\n".join(line.rstrip() for line in text.splitlines()).strip() + "\n"]. *)
Definition normalize_live (text : pystr) : pystr :=
  strip (join [LF] (List.map rstrip (splitlines text))) ++ [LF].

(** The expression returned by [load_golden_config]:
    ["\n".join(text.splitlines()).strip() + "\n"]. *)
Definition normalize_golden (text : pystr) : pystr :=
  strip (join [LF] (splitlines text)) ++ [LF].

(* ===================================================================== *)
(** ** Values, records and the interface to the outside world            *)
(* ===================================================================== *)

(** A Python [float]: a rational, an infinity or a NaN. *)
Inductive pyfloat : Type :=
  | FFin (q : Q)
  | FInf (negative : bool)
  | FNan.

(** [x >= 80] for a float [x]. *)
Definition float_ge_80 (x : pyfloat) : bool :=
  match x with
  | FFin q => Qle_bool (Qmake 80 1) q
  | FInf negative => negb negative
  | FNan => false
  end.

(** Decoded JSON, as [json.loads] and pyeapi return it. *)
Inductive json : Type :=
  | JNone
  | JBool (b : bool)
  | JInt (z : Z)
  | JFloat (f : pyfloat)
  | JStr (s : pystr)
  | JList (l : list json)
  | JDict (d : list (pystr * json)).

(** The outcome of a call that may raise: the value, or [str(exc)] of the
    exception. *)
Inductive Res (A : Type) : Type :=
  | Ok (a : A)
  | Raise (exc : pystr).
Arguments Ok {A} a.
Arguments Raise {A} exc.

Record Device : Type := { name : pystr; host : pystr }.

Record Snapshot : Type := {
  snap_name : pystr;
  model : pystr;
  version : pystr;
  uptime : pystr;
  cpu : pystr;
  temperature : pystr;
  bgp : pystr;
  mlag : pystr;
  reachable : bool;
  error : pystr
}.

(** The command line, parsed ([parse_args]). *)
Record Args : Type := {
  inventory : pystr;
  group : pystr;
  username : pystr;
  password : pystr;
  port : Z;
  insecure : bool;
  transport : pystr;
  golden_dir : pystr;
  flash_dir : pystr;
  watch : bool;
  interval : pyfloat;
  no_restore : bool;
  max_diff_lines : Z
}.

(** The per-device dictionary built by [detect_drift], keys ["drift"],
    ["reason"], ["diff"], ["golden_path"]. *)
Record DriftResult : Type := {
  drift : bool;
  reason : pystr;
  diff : list pystr;
  golden_path : pystr
}.

(** One group of the inventory document: its ["hosts"] and ["children"]
    lists (an absent key is the empty list). *)
Record InvGroup : Type := { hosts : list pystr; children : list pystr }.

(** The document printed by [ansible-inventory --list], decoded: its
    top-level keys (the groups, and ["_meta"] as a key without hosts or
    children) and [_meta.hostvars.<host>.ansible_host]. *)
Record Inventory : Type := {
  inv_groups : gmap pystr InvGroup;
  inv_hostvars : gmap pystr pystr
}.

(** What [subprocess.run] hands back: the exit status, [json.loads] of the
    standard output, and the standard error text. *)
Record ProcResult : Type := {
  returncode : Z;
  stdout_json : Res Inventory;
  stderr : pystr
}.

(** The node object of pyeapi: the device it talks to and the connection
    parameters. *)
Record Node : Type := { node_device : Device; node_args : Args }.

(** What the program does to the outside world, in order. *)
Inductive Event : Type :=
  | EvConnect (d : Device)
  | EvEnable (d : Device) (commands : list pystr) (text : bool)
  | EvMkdir (path : pystr)
  | EvCopyfile (src dst : pystr).

(** The libraries and the world behind them.  [W] is the state of the
    fleet and of the file system.  Reading (file tests, file reads, show
    commands) depends on [W] and leaves it as it is; staging and
    configuration commands may change it in any way.  Every call that can
    raise returns a [Res]. *)
Class Env (W : Type) : Type := {
  (** [Path(a) / b], as text *)
  path_div : pystr -> pystr -> pystr;
  (** [path.exists()]: pathlib answers [False] for a path that is not
      there and raises the [OSError] of a [stat] that fails for another
      reason (permission denied, name too long) *)
  path_exists : W -> pystr -> Res bool;
  (** [path.read_text(encoding="utf-8")] *)
  read_text : W -> pystr -> Res pystr;
  (** [path.mkdir(parents=True, exist_ok=True)] *)
  mkdir : W -> pystr -> Res unit * W;
  (** [shutil.copyfile(src, dst)] *)
  copyfile : W -> pystr -> pystr -> Res unit * W;
  (** [pyeapi.client.connect(..., return_node=True, timeout=30)] *)
  connect : W -> Args -> Device -> Res unit;
  (** [node.enable([command], encoding=...)] for a show command *)
  enable_show : W -> Node -> pystr -> bool -> Res (list json);
  (** [node.enable(commands)] for configuration commands *)
  enable_config : W -> Node -> list pystr -> Res (list json) * W;
  (** [subprocess.run(["ansible-inventory", "-i", path, "--list"], ...)] *)
  ansible_inventory : W -> pystr -> Res ProcResult;
  (** [Confirm.ask(prompt, default=False)] *)
  confirm_ask : W -> bool;
  (** watch mode, the [KeyboardInterrupt] of the operator: the refresh
      cycles completed before it, and the calls the collection under way
      has made when it arrives *)
  watch_interrupt : W -> nat * nat;
  (** [time.sleep(secs)] that no interrupt cuts short: it raises for a
      length it does not accept (negative, NaN, too large) *)
  time_sleep : pyfloat -> Res unit;
  (** [str(x)] for a value that is not a [str] *)
  py_repr : json -> pystr;
  (** [float(s)] *)
  py_float : pystr -> Res pyfloat;
  (** [f"{value:.1f}"] for an int or float *)
  format_1f : json -> Res pystr;
  (** [f"{max(float(v) for v in values):.1f}"] *)
  format_max_1f : list json -> Res pystr;
  (** [list(difflib.unified_diff(a, b, fromfile=, tofile=, lineterm="", n=2))] *)
  unified_diff : list pystr -> list pystr -> pystr -> pystr -> list pystr
}.

(** The one fact about [difflib.unified_diff] used below: it yields no
    line at all exactly when the two sequences are equal. *)
Definition diff_law {W : Type} (E : Env W) : Prop :=
  forall a b fromfile tofile,
    unified_diff a b fromfile tofile = [] <-> a = b.

(* ===================================================================== *)
(** ** State, exceptions and the trace                                    *)
(* ===================================================================== *)

Record St (W : Type) : Type := { world : W; trace : list Event }.
Arguments world {W} s.
Arguments trace {W} s.

Definition init {W : Type} (w : W) : St W := {| world := w; trace := [] |}.

Definition emit {W : Type} (ev : Event) (st : St W) : St W :=
  {| world := world st; trace := trace st ++ [ev] |}.

(** A computation: runs in a state, returns or raises, leaves a state. *)
Definition M (W A : Type) : Type := St W -> Res A * St W.

Definition ret {W A : Type} (a : A) : M W A := fun st => (Ok a, st).

Definition raise {W A : Type} (exc : pystr) : M W A := fun st => (Raise exc, st).

Definition bind {W A B : Type} (m : M W A) (k : A -> M W B) : M W B :=
  fun st =>
    match m st with
    | (Ok a, st') => k a st'
    | (Raise exc, st') => (Raise exc, st')
    end.

(** [try: body  except Exception as exc: handler(str(exc))]. *)
Definition try_except {W A : Type} (body : M W A) (handler : pystr -> M W A)
  : M W A :=
  fun st =>
    match body st with
    | (Ok a, st') => (Ok a, st')
    | (Raise exc, st') => handler exc st'
    end.

Notation "x <- m ;; k" := (bind m (fun x => k))
  (at level 100, m at next level, right associativity).

(** A call that reads the world. *)
Definition reading {W A : Type} (f : W -> Res A) : M W A :=
  fun st => (f (world st), st).

(** A call that may change the world. *)
Definition acting {W A : Type} (f : W -> Res A * W) : M W A :=
  fun st =>
    let '(r, w') := f (world st) in
    (r, {| world := w'; trace := trace st |}).

(** Record an event. *)
Definition log {W : Type} (ev : Event) : M W unit :=
  fun st => (Ok tt, emit ev st).

(** [for x in xs: body(x)], threading an accumulator. *)
Fixpoint for_each {W A B : Type} (xs : list A) (acc : B)
    (body : A -> B -> M W B) : M W B :=
  match xs with
  | [] => ret acc
  | x :: rest => acc' <- body x acc ;; for_each rest acc' body
  end.

(** [[f(x) for x in xs]]. *)
Fixpoint map_m {W A B : Type} (f : A -> M W B) (xs : list A) : M W (list B) :=
  match xs with
  | [] => ret []
  | x :: rest => y <- f x ;; ys <- map_m f rest ;; ret (y :: ys)
  end.

(** Run a computation [n] times. *)
Fixpoint repeat_m {W A : Type} (n : nat) (m : M W A) : M W unit :=
  match n with
  | O => ret tt
  | S n' => _ <- m ;; repeat_m n' m
  end.

(** A value already computed, or the exception it raised. *)
Definition lift_res {W A : Type} (r : Res A) : M W A := fun st => (r, st).

(** A computation that only reads the world, under the operator's
    [KeyboardInterrupt], which no [except Exception] catches: the
    interrupt arrives once the computation has made [budget] calls and
    cuts it short there ([None]); a computation that makes no more calls
    than that runs to its end. *)
Definition interrupted {W A : Type} (budget : nat) (m : M W A)
  : M W (option A) :=
  fun st =>
    let '(r, st') := m st in
    let evs := drop (List.length (trace st)) (trace st') in
    if (List.length evs <=? budget)%nat then
      match r with
      | Ok a => (Ok (Some a), st')
      | Raise exc => (Raise exc, st')
      end
    else (Ok None, {| world := world st; trace := trace st ++ take budget evs |}).

(* ===================================================================== *)
(** ** Inventory: recursive host collection                               *)
(* ===================================================================== *)

(** [inv.get(group_name, {})]. *)
Definition group_data_of (inv : gmap pystr InvGroup) (group_name : pystr)
  : InvGroup :=
  default {| hosts := []; children := [] |} (inv !! group_name).

(** [for child in children: hosts.update(rec(child))], where the callee
    shares and extends the set of visited groups. *)
Fixpoint children_loop
    (rec : pystr -> gset pystr -> option (gset pystr * gset pystr))
    (cs : list pystr) (hs : gset pystr) (seen : gset pystr)
  : option (gset pystr * gset pystr) :=
  match cs with
  | [] => Some (hs, seen)
  | child :: rest =>
      match rec child seen with
      | None => None
      | Some (h, seen') => children_loop rec rest (hs ∪ h) seen'
      end
  end.

(** [collect_hosts] of [load_inventory_devices] (fabric-pulse.py).  The
    mutable set [seen] is passed in and handed back; [fuel] bounds the
    depth of the call stack, [None] meaning the bound was hit. *)
Fixpoint collect_hosts (fuel : nat) (inv : gmap pystr InvGroup)
    (group_name : pystr) (seen : gset pystr)
  : option (gset pystr * gset pystr) :=
  match fuel with
  | O => None
  | S fuel' =>
      if decide (group_name ∈ seen) then Some (∅, seen)
      else
        let seen := {[group_name]} ∪ seen in
        let group_data := group_data_of inv group_name in
        let hosts0 : gset pystr := list_to_set (hosts group_data) in
        children_loop (collect_hosts fuel' inv) (children group_data) hosts0 seen
  end.

(** [collect] of [load_hosts] (inventory_check.py): the same traversal,
    the set [visited] living in the enclosing scope. *)
Fixpoint collect (fuel : nat) (inv : gmap pystr InvGroup)
    (group_name : pystr) (visited : gset pystr)
  : option (gset pystr * gset pystr) :=
  match fuel with
  | O => None
  | S fuel' =>
      if decide (group_name ∈ visited) then Some (∅, visited)
      else
        let visited := {[group_name]} ∪ visited in
        let data := group_data_of inv group_name in
        let hosts0 : gset pystr := list_to_set (hosts data) in
        children_loop (collect fuel' inv) (children data) hosts0 visited
  end.

(** Every group name that occurs in some ["children"] list. *)
Definition child_names (inv : gmap pystr InvGroup) : gset pystr :=
  ⋃ (List.map (fun kv => list_to_set (children (snd kv))) (map_to_list inv)).

(** A call depth that is always enough: each nested call marks a new
    group as visited. *)
Definition depth_bound (inv : gmap pystr InvGroup) : nat :=
  S (S (size (child_names inv))).

(** Code point order on strings, the order of [sorted]. *)
Fixpoint pystr_leb (a b : pystr) : bool :=
  match a, b with
  | [], _ => true
  | _ :: _, [] => false
  | x :: a', y :: b' => (x <? y) || ((x =? y) && pystr_leb a' b')
  end.

Definition pystr_le (a b : pystr) : Prop := pystr_leb a b = true.

#[global] Instance pystr_le_dec : RelDecision pystr_le :=
  fun a b => decide (pystr_leb a b = true).

(** [sorted(hosts)]. *)
Definition sorted (hs : gset pystr) : list pystr :=
  merge_sort pystr_le (elements hs).

(* ===================================================================== *)
(** ** Decoded JSON helpers                                               *)
(* ===================================================================== *)

(** [d.get(k)] on a decoded object. *)
Fixpoint dict_get (d : list (pystr * json)) (k : pystr) : option json :=
  match d with
  | [] => None
  | (k', v) :: d' => if decide (k' = k) then Some v else dict_get d' k
  end.

(** [isinstance(v, str)]. *)
Definition as_str (o : option json) : option pystr :=
  match o with
  | Some (JStr s) => Some s
  | _ => None
  end.

(** [v == s] for a text [s]. *)
Definition str_equals (o : option json) (s : pystr) : bool :=
  match as_str o with
  | Some s' => bool_decide (s' = s)
  | None => false
  end.

(** [isinstance(v, (int, float))]; [bool] is a subclass of [int]. *)
Definition is_number (v : json) : bool :=
  match v with
  | JBool _ | JInt _ | JFloat _ => true
  | _ => false
  end.

(** Truth value of a decoded value. *)
Definition truthy (v : json) : bool :=
  match v with
  | JNone => false
  | JBool b => b
  | JInt z => negb (z =? 0)%Z
  | JFloat (FFin q) => negb (Qeq_bool q (Qmake 0 1))
  | JFloat _ => true
  | JStr s => negb (bool_decide (s = []))
  | JList l => match l with [] => false | _ => true end
  | JDict d => match d with [] => false | _ => true end
  end.

(** Decimal text of an integer, as in an f-string. *)
Definition decimal (z : Z) : pystr :=
  str (DecimalString.NilEmpty.string_of_int (Z.to_int z)).

(** [format_uptime]. *)
Definition format_uptime (seconds : json) : pystr :=
  let render (s : Z) : pystr :=
    let days := (s / 86400)%Z in
    let rem := (s mod 86400)%Z in
    let hours := (rem / 3600)%Z in
    let rem := (rem mod 3600)%Z in
    let minutes := (rem / 60)%Z in
    decimal days ++ str "d " ++ decimal hours ++ str "h "
      ++ decimal minutes ++ str "m" in
  match seconds with
  | JInt z => render z
  | JBool b => render (if b then 1 else 0)%Z
  | _ => str "n/a"
  end.


(* ===================================================================== *)
(** ** The program                                                        *)
(* ===================================================================== *)

Section Program.
Context {W : Type} {E : Env W}.

(** [str(x)]. *)
Definition py_str (x : json) : pystr :=
  match x with
  | JStr s => s
  | _ => py_repr x
  end.

(** [load_inventory_devices]. *)
Definition load_inventory_devices (inventory_path group : pystr)
  : M W (list Device) :=
  proc <- reading (fun w => ansible_inventory w inventory_path) ;;
  if negb (returncode proc =? 0)%Z then
    raise (str "Failed to run ansible-inventory: " ++ strip (stderr proc))
  else
    inv <- lift_res (stdout_json proc) ;;
    if negb (bool_decide (group ∈ dom (inv_groups inv))) then
      raise (str "Group '" ++ group ++ str "' not found in inventory")
    else
      match collect_hosts (depth_bound (inv_groups inv)) (inv_groups inv)
              group ∅ with
      | None => raise (str "maximum recursion depth exceeded")
      | Some (hs, _) =>
          let group_hosts := sorted hs in
          ret (List.map
                 (fun hostname =>
                    {| name := hostname;
                       host := default hostname (inv_hostvars inv !! hostname) |})
                 group_hosts)
      end.

(** [node_for_device]. *)
Definition node_for_device (device : Device) (args : Args) : M W Node :=
  _ <- log (EvConnect device) ;;
  _ <- reading (fun w => connect w args device) ;;
  ret {| node_device := device; node_args := args |}.

(** [node.enable([command], encoding=...)] with a show command. *)
Definition node_enable (node : Node) (command : pystr) (text : bool)
  : M W (list json) :=
  _ <- log (EvEnable (node_device node) [command] text) ;;
  reading (fun w => enable_show w node command text).

(** [node.enable(commands)] with configuration commands. *)
Definition node_enable_config (node : Node) (commands : list pystr)
  : M W (list json) :=
  _ <- log (EvEnable (node_device node) commands false) ;;
  acting (fun w => enable_config w node commands).

(** [l[0]]. *)
Definition first_item (l : list json) : M W json :=
  match l with
  | x :: _ => ret x
  | [] => raise (str "list index out of range")
  end.

(** [command_json]. *)
Definition command_json (node : Node) (command : pystr)
  : M W (list (pystr * json)) :=
  l <- node_enable node command false ;;
  response <- first_item l ;;
  ret match response with
      | JDict d =>
          match dict_get d (str "result") with
          | Some (JDict r) => r
          | _ => d
          end
      | _ => []
      end.

(** [command_text]. *)
Definition command_text (node : Node) (command : pystr) : M W pystr :=
  l <- node_enable node command true ;;
  response <- first_item l ;;
  ret match response with
      | JDict d =>
          let inner :=
            match dict_get d (str "result") with
            | Some (JDict r) =>
                match as_str (dict_get r (str "output")) with
                | Some s => Some s
                | None => as_str (dict_get r (str "response"))
                end
            | _ => None
            end in
          match inner with
          | Some s => s
          | None =>
              match as_str (dict_get d (str "output")) with
              | Some s => s
              | None =>
                  match as_str (dict_get d (str "response")) with
                  | Some s => s
                  | None => py_str response
                  end
              end
          end
      | _ => py_str response
      end.

(** [x.get(...)] on something that has to be an object. *)
Definition as_dict (v : json) : M W (list (pystr * json)) :=
  match v with
  | JDict d => ret d
  | _ => raise (str "object has no attribute 'get'")
  end.

(** [read_cpu]. *)
Definition read_cpu (node : Node) : M W pystr :=
  try_except
    (output <- command_json node (str "show processes top once") ;;
     match List.find is_number
             (omap (dict_get output)
                [str "cpu"; str "cpuUtilization"; str "cpuTotal"]) with
     | Some value => s <- lift_res (format_1f value) ;; ret (s ++ str "%")
     | None => ret (str "n/a")
     end)
    (fun _ => ret (str "n/a")).

(** The inner loop of [read_temperature] over one section. *)
Definition section_temperatures (items : list (pystr * json))
    (temperatures : list json) : M W (list json) :=
  for_each items temperatures
    (fun kv temperatures =>
       item <- as_dict (snd kv) ;;
       match dict_get item (str "currentTemperature") with
       | Some value =>
           ret (if is_number value then temperatures ++ [value]
                else temperatures)
       | None => ret temperatures
       end).

(** [read_temperature]. *)
Definition read_temperature (node : Node) : M W pystr :=
  try_except
    (output <- command_json node (str "show system environment temperature") ;;
     temperatures <-
       for_each [str "cardSlots"; str "powerSupplySlots"; str "tempSensors"] []
         (fun section temperatures =>
            match dict_get output section with
            | Some (JDict items) => section_temperatures items temperatures
            | _ => ret temperatures
            end) ;;
     match temperatures with
     | [] => ret (str "n/a")
     | _ :: _ => s <- lift_res (format_max_1f temperatures) ;; ret (s ++ str "C")
     end)
    (fun _ => ret (str "n/a")).

(** [read_bgp_status]. *)
Definition read_bgp_status (node : Node) : M W pystr :=
  try_except
    (output <- command_json node (str "show ip bgp summary") ;;
     vrfs <- as_dict (default (JDict []) (dict_get output (str "vrfs"))) ;;
     counts <-
       for_each vrfs (0%Z, 0%Z)
         (fun kv counts =>
            vrf_data <- as_dict (snd kv) ;;
            peers <- as_dict (default (JDict []) (dict_get vrf_data (str "peers"))) ;;
            let total := (snd counts + Z.of_nat (List.length peers))%Z in
            for_each peers (fst counts, total)
              (fun kp counts =>
                 peer_data <- as_dict (snd kp) ;;
                 ret (if str_equals (dict_get peer_data (str "peerState"))
                           (str "Established")
                      then ((fst counts + 1)%Z, snd counts)
                      else counts))) ;;
     let '(established, total) := counts in
     if (total =? 0)%Z then ret (str "n/a")
     else ret (decimal established ++ str "/" ++ decimal total ++ str " up"))
    (fun _ => ret (str "n/a")).

(** [read_mlag_status]. *)
Definition read_mlag_status (node : Node) : M W pystr :=
  try_except
    (output <- command_json node (str "show mlag") ;;
     let first := default JNone (dict_get output (str "state")) in
     let state :=
       if truthy first then first
       else default JNone (dict_get output (str "mlagState")) in
     if truthy state then ret (py_str state) else ret (str "disabled"))
    (fun _ => ret (str "n/a")).

(** [float(text)] under [try: ... except Exception: pass]. *)
Definition float_or_none (text : pystr) : option pyfloat :=
  match py_float text with
  | Ok x => Some x
  | Raise _ => None
  end.

(** [health_color]. *)
Definition health_color (cpu_text temp_text : pystr) : pystr :=
  let cpu_value := float_or_none (rstrip_chars (str "%") cpu_text) in
  let temp_value := float_or_none (rstrip_chars (str "C") temp_text) in
  if match cpu_value with Some v => float_ge_80 v | None => false end
  then str "red"
  else if match temp_value with Some v => float_ge_80 v | None => false end
  then str "red"
  else if match cpu_value, temp_value with None, None => true | _, _ => false end
  then str "yellow"
  else str "green".

(** The [try] block of [collect_snapshot]. *)
Definition snapshot_facts (device : Device) (args : Args) : M W Snapshot :=
  node <- node_for_device device args ;;
  version_ <- command_json node (str "show version") ;;
  cpu_ <- read_cpu node ;;
  temp <- read_temperature node ;;
  bgp_ <- read_bgp_status node ;;
  mlag_ <- read_mlag_status node ;;
  ret {| snap_name := name device;
         model := py_str (default (JStr (str "n/a"))
                            (dict_get version_ (str "modelName")));
         version := py_str (default (JStr (str "n/a"))
                              (dict_get version_ (str "version")));
         uptime := format_uptime (default JNone
                                    (dict_get version_ (str "uptime")));
         cpu := cpu_;
         temperature := temp;
         bgp := bgp_;
         mlag := mlag_;
         reachable := true;
         error := [] |}.

(** The snapshot built by the [except] block of [collect_snapshot]. *)
Definition unreachable_snapshot (device : Device) (exc : pystr) : Snapshot :=
  {| snap_name := name device;
     model := str "n/a";
     version := str "n/a";
     uptime := str "n/a";
     cpu := str "n/a";
     temperature := str "n/a";
     bgp := str "n/a";
     mlag := str "n/a";
     reachable := false;
     error := exc |}.

(** [collect_snapshot]. *)
Definition collect_snapshot (device : Device) (args : Args) : M W Snapshot :=
  try_except (snapshot_facts device args)
    (fun exc => ret (unreachable_snapshot device exc)).

(** [golden_file_path]. *)
Definition golden_file_path (golden_dir hostname : pystr) : pystr :=
  path_div golden_dir (hostname ++ str ".cfg").

(** [running_config]. *)
Definition running_config (node : Node) : M W pystr :=
  text <- command_text node (str "show running-config") ;;
  ret (normalize_live text).

(** [load_golden_config]. *)
Definition load_golden_config (path : pystr) : M W pystr :=
  text <- reading (fun w => read_text w path) ;;
  ret (normalize_golden text).

(** [config_diff]. *)
Definition config_diff (golden running hostname : pystr) : list pystr :=
  unified_diff (splitlines golden) (splitlines running)
    (str "golden/" ++ hostname ++ str ".cfg")
    (str "running/" ++ hostname).

(** [len(diff) > 0]. *)
Definition nonempty {A : Type} (l : list A) : bool :=
  match l with
  | [] => false
  | _ :: _ => true
  end.

(** The [try] block of the loop of [detect_drift], up to the computed
    [diff]. *)
Definition fetch_diff (device : Device) (args : Args) (path : pystr)
  : M W (list pystr) :=
  node <- node_for_device device args ;;
  running <- running_config node ;;
  golden <- load_golden_config path ;;
  ret (config_diff golden running (name device)).

(** The [result] dictionary when the baseline file is absent. *)
Definition missing_result (path : pystr) : DriftResult :=
  {| drift := false;
     reason := str "Golden config missing";
     diff := [];
     golden_path := path |}.

(** The body of the loop of [detect_drift] for one device: the finished
    [result] dictionary. *)
Definition detect_device (device : Device) (args : Args) : M W DriftResult :=
  let path := golden_file_path (golden_dir args) (name device) in
  present <- reading (fun w => path_exists w path) ;;
  if negb present then ret (missing_result path)
  else
    try_except
      (d <- fetch_diff device args path ;;
       ret {| drift := nonempty d;
              reason := [];
              diff := d;
              golden_path := path |})
      (fun exc =>
         ret {| drift := false;
                reason := str "Error reading running-config: " ++ exc;
                diff := [];
                golden_path := path |}).

(** [detect_drift]. *)
Definition detect_drift (devices : list Device) (args : Args)
  : M W (gmap pystr DriftResult) :=
  for_each devices ∅
    (fun device results =>
       result <- detect_device device args ;;
       ret (<[name device := result]> results)).

(** [stage_golden_to_flash]. *)
Definition stage_golden_to_flash (flash_root hostname golden_file : pystr)
  : M W pystr :=
  let flash_dir := path_div (path_div flash_root hostname) (str "flash") in
  _ <- log (EvMkdir flash_dir) ;;
  _ <- acting (fun w => mkdir w flash_dir) ;;
  let staged_name := str "golden-" ++ hostname ++ str ".cfg" in
  let staged_path := path_div flash_dir staged_name in
  _ <- log (EvCopyfile golden_file staged_path) ;;
  _ <- acting (fun w => copyfile w golden_file staged_path) ;;
  ret staged_name.

(** The two commands sent by [restore_golden]. *)
Definition restore_commands (staged_name : pystr) : list pystr :=
  [str "configure replace flash:" ++ staged_name; str "write memory"].

(** [restore_golden]. *)
Definition restore_golden (device : Device) (args : Args)
  : M W (bool * pystr) :=
  let path := golden_file_path (golden_dir args) (name device) in
  present <- reading (fun w => path_exists w path) ;;
  if negb present then
    ret (false, str "Golden config not found: " ++ path)
  else
    try_except
      (staged_name <- stage_golden_to_flash (flash_dir args) (name device) path ;;
       node <- node_for_device device args ;;
       _ <- node_enable_config node (restore_commands staged_name) ;;
       ret (true, str "Restored from flash:" ++ staged_name))
      (fun exc => ret (false, exc)).

(** [[d for d in devices if drift_data[d.name]["drift"]]]; a missing key
    raises [KeyError]. *)
Fixpoint drifted_devices (devices : list Device)
    (drift_data : gmap pystr DriftResult) : M W (list Device) :=
  match devices with
  | [] => ret []
  | d :: rest =>
      match drift_data !! name d with
      | None => raise (str "KeyError: " ++ name d)
      | Some info =>
          ds <- drifted_devices rest drift_data ;;
          ret (if drift info then d :: ds else ds)
      end
  end.

(** [[collect_snapshot(device, args) for device in devices]]. *)
Definition collect_snapshots (devices : list Device) (args : Args)
  : M W (list Snapshot) :=
  map_m (fun device => collect_snapshot device args) devices.

(** One turn of the watch loop: a collection, then
    [time.sleep(args.interval)]. *)
Definition watch_cycle (devices : list Device) (args : Args) : M W unit :=
  _ <- collect_snapshots devices args ;;
  lift_res (time_sleep (interval args)).

(** The watch loop of [main], [while True: ...] under
    [except KeyboardInterrupt: pass]: whole turns until the interrupt,
    which arrives during a collection and cuts it short, or during the
    sleep that follows it.  An exception of [time.sleep] is not caught. *)
Definition watch_loop (devices : list Device) (args : Args) : M W unit :=
  stop <- reading (fun w => Ok (watch_interrupt w)) ;;
  _ <- repeat_m (fst stop) (watch_cycle devices args) ;;
  last <- interrupted (snd stop) (collect_snapshots devices args) ;;
  match last with
  | None => ret tt
  | Some _ => lift_res (time_sleep (interval args))
  end.

(** The dashboard part of [main]: one collection, or the watch loop. *)
Definition dashboard (devices : list Device) (args : Args) : M W unit :=
  if watch args then watch_loop devices args
  else
    _ <- collect_snapshots devices args ;;
    ret tt.

(** The loop [for device in drifted: ok, message = restore_golden(...)]:
    the final value of [all_ok]. *)
Definition restore_all (drifted : list Device) (args : Args) : M W bool :=
  for_each drifted true
    (fun device all_ok =>
       r <- restore_golden device args ;;
       ret (if fst r then all_ok else false)).

(** [[name for name, info in post_drift.items() if info["drift"]]]. *)
Definition remaining_of (post_drift : gmap pystr DriftResult) : list pystr :=
  List.map fst (List.filter (fun kv => drift (snd kv)) (map_to_list post_drift)).

(** The "Fix -> Verify" part of [main]: restore every drifted device,
    detect again on them, and derive the exit status. *)
Definition fix_verify (drifted : list Device) (args : Args) : M W Z :=
  all_ok <- restore_all drifted args ;;
  post_drift <- detect_drift drifted args ;;
  let remaining := remaining_of post_drift in
  let all_ok := if nonempty remaining then false else all_ok in
  ret (if all_ok then 0 else 1)%Z.

(** [main]: the exit status.  Console output is not modelled. *)
Definition main (args : Args) : M W Z :=
  loaded <-
    try_except
      (devices <- load_inventory_devices (inventory args) (group args) ;;
       ret (Some devices))
      (fun _ => ret None) ;;
  match loaded with
  | None => ret 2%Z
  | Some devices =>
      if negb (nonempty devices) then ret 2%Z
      else
        _ <- dashboard devices args ;;
        drift_data <- detect_drift devices args ;;
        drifted <- drifted_devices devices drift_data ;;
        if no_restore args || negb (nonempty drifted) then
          if nonempty drifted then ret 1%Z else ret 0%Z
        else
          confirmed <- reading (fun w => Ok (confirm_ask w)) ;;
          if negb confirmed then ret 1%Z
          else fix_verify drifted args
  end.

End Program.

(* ===================================================================== *)
(** ** The normalization the specification describes                      *)
(* ===================================================================== *)

(** Drop the empty lines at the head of a list of lines. *)
Fixpoint drop_leading_blank (ls : list pystr) : list pystr :=
  match ls with
  | [] => []
  | l :: ls' => if bool_decide (l = []) then drop_leading_blank ls' else ls
  end.

(** The normalization in the words of the specification, for both sides:
    strip trailing whitespace per line, then strip leading and trailing
    blank lines, then end with exactly one newline. *)
Definition normalize_spec (text : pystr) : pystr :=
  let lines := List.map rstrip (splitlines text) in
  let lines := drop_leading_blank lines in
  let lines := rev (drop_leading_blank (rev lines)) in
  join [LF] lines ++ [LF].

(* ===================================================================== *)
(** ** A small laboratory fleet                                           *)
(* ===================================================================== *)

(** A concrete world on which the program can be run: files, the running
    configuration of every reachable device, and an inventory. *)
Module Lab.

Record World : Type := {
  files : gmap pystr pystr;
  running : gmap pystr pystr;
  (** hosts that drop off the management network once their
      configuration is replaced *)
  fragile : gset pystr;
  inventory_doc : Inventory;
  operator_confirms : bool
}.

Definition digit_of (c : N) : option Z :=
  if (48 <=? c) && (c <=? 57) then Some (Z.of_N (c - 48)) else None.

(** Plain decimal notation, digits with at most one point. *)
Fixpoint parse_digits (s : pystr) (mantissa : Z) (scale : option positive)
    (digits : bool) : option Q :=
  match s with
  | [] =>
      if digits then Some (Qmake mantissa (default 1%positive scale)) else None
  | c :: s' =>
      if c =? 46 then
        match scale with
        | Some _ => None
        | None => parse_digits s' mantissa (Some 1%positive) digits
        end
      else
        match digit_of c with
        | Some d =>
            parse_digits s' (10 * mantissa + d)%Z
              (option_map (Pos.mul 10) scale) true
        | None => None
        end
  end.

Definition parse_float (s : pystr) : Res pyfloat :=
  let parsed :=
    match s with
    | 45 :: s' => option_map Qopp (parse_digits s' 0%Z None false)
    | _ => parse_digits s 0%Z None false
    end in
  match parsed with
  | Some q => Ok (FFin q)
  | None => Raise (str "could not convert string to float")
  end.

(** A whole-file difference: nothing for equal inputs, otherwise the two
    header lines, every old line removed and every new line added. *)
Definition whole_file_diff (a b : list pystr) (fromfile tofile : pystr)
  : list pystr :=
  if decide (a = b) then []
  else [str "--- " ++ fromfile; str "+++ " ++ tofile]
         ++ List.map (app (str "-")) a ++ List.map (app (str "+")) b.

Definition slash (a b : pystr) : pystr := a ++ str "/" ++ b.

(** [time.sleep] in the lab: no length is too large. *)
Definition sleep (secs : pyfloat) : Res unit :=
  match secs with
  | FFin q =>
      if Qle_bool (Qmake 0 1) q then Ok tt
      else Raise (str "sleep length must be non-negative")
  | FInf _ => Raise (str "timestamp too large to convert to C _PyTime_t")
  | FNan => Raise (str "Invalid value NaN (not a number)")
  end.

Definition show (w : World) (node : Node) (command : pystr) (text : bool)
  : Res (list json) :=
  match running w !! host (node_device node) with
  | Some config =>
      if text then Ok [JDict [(str "output", JStr config)]]
      else Ok [JDict []]
  | None => Raise (str "unable to connect to eAPI")
  end.

(** [configure replace flash:golden-<name>.cfg] then [write memory]: the
    staged file becomes the running configuration. *)
Definition configure (w : World) (node : Node) (commands : list pystr)
  : Res (list json) * World :=
  let d := node_device node in
  let staged :=
    slash (slash (slash (flash_dir (node_args node)) (name d)) (str "flash"))
      (str "golden-" ++ name d ++ str ".cfg") in
  match running w !! host d, files w !! staged with
  | Some _, Some config =>
      (Ok [JDict []; JDict []],
       {| files := files w;
          running := if decide (host d ∈ fragile w)
                     then delete (host d) (running w)
                     else <[host d := config]> (running w);
          fragile := fragile w;
          inventory_doc := inventory_doc w;
          operator_confirms := operator_confirms w |})
  | Some _, None => (Raise (str "File not found"), w)
  | None, _ => (Raise (str "unable to connect to eAPI"), w)
  end.

Definition copy (w : World) (src dst : pystr) : Res unit * World :=
  match files w !! src with
  | Some content =>
      (Ok tt,
       {| files := <[dst := content]> (files w);
          running := running w;
          fragile := fragile w;
          inventory_doc := inventory_doc w;
          operator_confirms := operator_confirms w |})
  | None => (Raise (str "No such file or directory"), w)
  end.

Definition env : Env World := {|
  path_div := slash;
  path_exists := fun w p => Ok (bool_decide (is_Some (files w !! p)));
  read_text := fun w p =>
    match files w !! p with
    | Some content => Ok content
    | None => Raise (str "No such file or directory")
    end;
  mkdir := fun w _ => (Ok tt, w);
  copyfile := copy;
  connect := fun _ _ _ => Ok tt;
  enable_show := show;
  enable_config := configure;
  ansible_inventory := fun w _ =>
    Ok {| returncode := 0; stdout_json := Ok (inventory_doc w); stderr := [] |};
  confirm_ask := operator_confirms;
  watch_interrupt := fun _ => (1%nat, 0%nat);
  time_sleep := sleep;
  py_repr := fun _ => str "<object>";
  py_float := parse_float;
  format_1f := fun _ => Ok (str "0.0");
  format_max_1f := fun _ => Ok (str "0.0");
  unified_diff := whole_file_diff
|}.

(** The lab under a Python before 3.14, with paths that the user may not
    examine: [path.exists()] raises [PermissionError] for them. *)
Definition env_locked (locked : gset pystr) : Env World := {|
  path_div := slash;
  path_exists := fun w p =>
    if decide (p ∈ locked)
    then Raise (str "[Errno 13] Permission denied: '" ++ p ++ str "'")
    else Ok (bool_decide (is_Some (files w !! p)));
  read_text := @read_text _ env;
  mkdir := @mkdir _ env;
  copyfile := copy;
  connect := @connect _ env;
  enable_show := show;
  enable_config := configure;
  ansible_inventory := @ansible_inventory _ env;
  confirm_ask := operator_confirms;
  watch_interrupt := @watch_interrupt _ env;
  time_sleep := sleep;
  py_repr := @py_repr _ env;
  py_float := parse_float;
  format_1f := @format_1f _ env;
  format_max_1f := @format_max_1f _ env;
  unified_diff := whole_file_diff
|}.

Definition args : Args := {|
  inventory := str "inventory/inventory.yml";
  group := str "FABRIC";
  username := str "admin";
  password := str "admin";
  port := 443;
  insecure := false;
  transport := str "https";
  golden_dir := str "build/configs";
  flash_dir := str "clab-dc1_fabric";
  watch := false;
  interval := FFin (Qmake 3 1);
  no_restore := false;
  max_diff_lines := 120
|}.

Definition leaf1 : Device := {| name := str "leaf1"; host := str "10.0.0.1" |}.
Definition leaf2 : Device := {| name := str "leaf2"; host := str "10.0.0.2" |}.

(** FABRIC contains LEAVES, which names FABRIC again among its children. *)
Definition fabric : Inventory := {|
  inv_groups :=
    {[ str "FABRIC" := {| hosts := []; children := [str "LEAVES"] |};
       str "LEAVES" := {| hosts := [str "leaf1"; str "leaf2"];
                          children := [str "FABRIC"] |} ]};
  inv_hostvars :=
    {[ str "leaf1" := str "10.0.0.1"; str "leaf2" := str "10.0.0.2" ]}
|}.

Definition golden1 : pystr := str "hostname leaf1" ++ [LF] ++ str "end" ++ [LF].
Definition golden2 : pystr := str "hostname leaf2" ++ [LF] ++ str "end" ++ [LF].

(** leaf1 carries one extra line; leaf2 matches its baseline. *)
Definition drifted_world (fragile_hosts : gset pystr) : World := {|
  files := {[ str "build/configs/leaf1.cfg" := golden1;
              str "build/configs/leaf2.cfg" := golden2 ]};
  running :=
    {[ str "10.0.0.1" :=
         str "hostname leaf1" ++ [LF] ++ str "vlan 666" ++ [LF] ++ str "end" ++ [LF];
       str "10.0.0.2" := golden2 ]};
  fragile := fragile_hosts;
  inventory_doc := fabric;
  operator_confirms := true
|}.

(** As above, but the baseline of leaf2 has not been written. *)
Definition missing_world : World := {|
  files := {[ str "build/configs/leaf1.cfg" := golden1 ]};
  running := running (drifted_world ∅);
  fragile := ∅;
  inventory_doc := fabric;
  operator_confirms := true
|}.

(** A baseline with a space at the end of its first line, and a device
    that runs the same configuration. *)
Definition padded_baseline : pystr :=
  str "hostname leaf1 " ++ [LF] ++ str "end" ++ [LF].

Definition padded_world : World := {|
  files := {[ str "build/configs/leaf1.cfg" := padded_baseline ]};
  running := {[ str "10.0.0.1" := golden1 ]};
  fragile := ∅;
  inventory_doc := fabric;
  operator_confirms := true
|}.

End Lab.

(* ===================================================================== *)
(** ** Notions used to state and prove the properties                     *)
(* ===================================================================== *)

(** An all-whitespace line. *)
Definition blank (l : pystr) : bool := forallb is_space l.

(** A text without line boundary. *)
Definition one_line (l : pystr) : bool :=
  forallb (fun c => negb (is_linebreak c)) l.

(** What [rstrip] does to a joined text, seen line by line. *)
Fixpoint rstrip_lines (ls : list pystr) : list pystr :=
  match ls with
  | [] => []
  | l :: ls' =>
      match rstrip_lines ls' with
      | [] => if blank l then [] else [rstrip l]
      | r => l :: r
      end
  end.

(** What [lstrip] does to a joined text, seen line by line. *)
Fixpoint lstrip_lines (ls : list pystr) : list pystr :=
  match ls with
  | [] => []
  | l :: ls' => if blank l then lstrip_lines ls' else lstrip l :: ls'
  end.

(** A line that the per-line step [f] of a normalizer leaves alone. *)
Definition settled (f : pystr -> pystr) (l : pystr) : Prop :=
  one_line l = true /\ f l = l.

(** What a call of [collect_hosts] entered with the visited set [seen]
    hands back: a larger visited set, and exactly the hosts of the groups
    it has newly marked. *)
Definition gathers (inv : gmap pystr InvGroup) (seen : gset pystr)
    (r : gset pystr * gset pystr) : Prop :=
  seen ⊆ snd r /\
  forall x, x ∈ fst r <->
    exists g, (g ∈ snd r) /\ (g ∉ seen) /\ (x ∈ hosts (group_data_of inv g)).

(** The three states of a [DriftResult], as [build_drift_table] tells
    them apart. *)
Inductive DriftState : Type := Drifted | Unknown | Clean.

Definition drift_state (r : DriftResult) : DriftState :=
  if drift r then Drifted
  else if nonempty (reason r) then Unknown
  else Clean.

(** The invariant of a [DriftResult]: drift and an unknown reason exclude
    each other, and only a drifted result carries diff lines. *)
Definition well_formed_result (r : DriftResult) : Prop :=
  ~ (drift r = true /\ reason r <> [])
  /\ (drift r = true <-> diff r <> [])
  /\ (drift_state r = Unknown -> reason r <> [] /\ drift r = false /\ diff r = [])
  /\ (drift_state r = Clean -> reason r = [] /\ drift r = false /\ diff r = [])
  /\ (drift_state r = Drifted -> drift r = true /\ reason r = []).

(** The severities of the Health Evaluator and the colours standing for
    them. *)
Inductive Severity : Type := critical | caution | nominal.

Definition severity_color (s : Severity) : pystr :=
  match s with
  | critical => str "red"
  | caution => str "yellow"
  | nominal => str "green"
  end.

(** The Health Evaluator in the words of the specification: critical if
    CPU >= 80 or temperature >= 80, caution if both are unavailable,
    nominal otherwise. *)
Definition health_spec (cpu_value temp_value : option pyfloat) : Severity :=
  let ge80 (v : option pyfloat) :=
    match v with Some x => float_ge_80 x | None => false end in
  if ge80 cpu_value || ge80 temp_value then critical
  else match cpu_value, temp_value with
       | None, None => caution
       | _, _ => nominal
       end.

(** The reading [v] is the number [z]. *)
Definition reads (v : option pyfloat) (z : Z) : Prop :=
  exists q, v = Some (FFin q) /\ Qeq q (inject_Z z).

(** Events that change a device or the file system: directory creation,
    file copies, and command batches that are not show commands. *)
Definition mutating (ev : Event) : bool :=
  match ev with
  | EvConnect _ => false
  | EvEnable _ commands _ => negb (forallb (startswith (str "show ")) commands)
  | EvMkdir _ => true
  | EvCopyfile _ _ => true
  end.

(** The device an event talks to over the network, if any. *)
Definition event_device (ev : Event) : option Device :=
  match ev with
  | EvConnect d => Some d
  | EvEnable d _ _ => Some d
  | EvMkdir _ => None
  | EvCopyfile _ _ => None
  end.

(** The event talks to device [d], with show commands only. *)
Definition queries (d : Device) (ev : Event) : Prop :=
  match ev with
  | EvConnect d' => d' = d
  | EvEnable d' commands _ =>
      d' = d /\ forallb (startswith (str "show ")) commands = true
  | EvMkdir _ => False
  | EvCopyfile _ _ => False
  end.

(** A computation that only looks at the world: in the world [w] it
    leaves the world as it is, and its outcome and the events it adds, all
    satisfying [P w], do not depend on the events recorded before. *)
Definition observing {W A : Type} (P : W -> Event -> Prop) (m : M W A)
  : Prop :=
  forall w, exists r evs,
    Forall (P w) evs /\
    forall t, m {| world := w; trace := t |}
              = (r, {| world := w; trace := t ++ evs |}).

Section Statements.
Context {W : Type} {E : Env W}.

(** The changes [restore_golden] makes for one device, in order: staging
    directory, staged copy of the baseline, replace and save. *)
Definition remediation_of (args : Args) (d : Device) : list Event :=
  let flash := path_div (path_div (flash_dir args) (name d)) (str "flash") in
  let staged_name := str "golden-" ++ name d ++ str ".cfg" in
  [ EvMkdir flash;
    EvCopyfile (golden_file_path (golden_dir args) (name d))
      (path_div flash staged_name);
    EvEnable d (restore_commands staged_name) false ].

(** [path.exists()] answers for the baseline file of every listed
    device. *)
Definition stat_answers (args : Args) (w : W) (devices : list Device) : Prop :=
  forall d, d ∈ devices ->
    exists present,
      path_exists w (golden_file_path (golden_dir args) (name d)) = Ok present.

(** [path.exists()] answers for every path, in every world. *)
Definition stat_total : Prop :=
  forall (w : W) (path : pystr), exists present, path_exists w path = Ok present.

(** The restore loop of [main] runs through the listed devices without
    raising: what [restore_golden] returns for each of them, in order,
    and the state it leaves. *)
Inductive restores (args : Args)
  : list Device -> St W -> list (bool * pystr) -> St W -> Prop :=
  | restores_nil st : restores args [] st [] st
  | restores_cons d ds st o st1 os st2 :
      restore_golden d args st = (Ok o, st1) ->
      restores args ds st1 os st2 ->
      restores args (d :: ds) st (o :: os) st2.

(** Device [d] of the selected group is classified as drifted, with no
    unknown reason, by the detection pass run in the world [w]. *)
Definition detected_drift (args : Args) (w : W) (d : Device) : Prop :=
  exists devices drift_data r,
    fst (load_inventory_devices (inventory args) (group args) (init w))
      = Ok devices
    /\ d ∈ devices
    /\ fst (detect_drift devices args (init w)) = Ok drift_data
    /\ drift_data !! name d = Some r
    /\ drift r = true
    /\ reason r = [].

End Statements.

(** A world in which nothing answers: every connection fails with an
    exception that carries no message. *)
Module Silent.

Definition env : Env unit := {|
  path_div := fun a b => a ++ str "/" ++ b;
  path_exists := fun _ _ => Ok false;
  read_text := fun _ _ => Raise [];
  mkdir := fun w _ => (Raise [], w);
  copyfile := fun w _ _ => (Raise [], w);
  connect := fun _ _ _ => Raise [];
  enable_show := fun _ _ _ _ => Raise [];
  enable_config := fun w _ _ => (Raise [], w);
  ansible_inventory := fun _ _ => Raise [];
  confirm_ask := fun _ => false;
  watch_interrupt := fun _ => (0%nat, 0%nat);
  time_sleep := fun _ => Raise [];
  py_repr := fun _ => [];
  py_float := fun _ => Raise [];
  format_1f := fun _ => Raise [];
  format_max_1f := fun _ => Raise [];
  unified_diff := Lab.whole_file_diff
|}.

End Silent.

(** The events a detection pass over [devices] may add in the world [w]:
    show commands to a listed device whose baseline file is there. *)
Definition detection_event {W : Type} {E : Env W} (devices : list Device)
    (args : Args) (w : W) (ev : Event) : Prop :=
  exists d, d ∈ devices
    /\ path_exists w (golden_file_path (golden_dir args) (name d)) = Ok true
    /\ queries d ev.

(** A computation that never raises. *)
Definition unfailing {W A : Type} (m : M W A) : Prop :=
  forall st, exists a st', m st = (Ok a, st').

(** The exit status computed at the end of [fix_verify]. *)
Definition verdict (all_ok : bool) (post : gmap pystr DriftResult) : Z :=
  if (if nonempty (remaining_of post) then false else all_ok) then 0%Z else 1%Z.

(* ===================================================================== *)
(** ** Presentation: the BGP cell and the diff panel                     *)
(* ===================================================================== *)

(** [s.endswith(suffix)]. *)
Definition endswith (suffix s : pystr) : bool :=
  startswith (rev suffix) (rev s).

(** The style of the BGP cell in [build_dashboard]. *)
Definition bgp_style (bgp : pystr) : pystr :=
  if endswith (str "up") bgp && negb (startswith (str "0/") bgp)
  then str "green" else str "yellow".

(** [l[:stop]]. *)
Definition slice_to {A : Type} (l : list A) (stop : Z) : list A :=
  if (stop <? 0)%Z
  then take (Z.to_nat (Z.of_nat (List.length l) + stop)) l
  else take (Z.to_nat stop) l.

(** [display_diff]: the title and the body of the panel it prints, [None]
    when it prints nothing. *)
Definition display_diff (device : pystr) (diff_lines : list pystr)
    (max_lines : Z) : option (pystr * pystr) :=
  if negb (nonempty diff_lines) then None
  else
    let preview := slice_to diff_lines max_lines in
    let suffix :=
      if (Z.of_nat (List.length diff_lines) >? max_lines)%Z
      then [LF] ++ str "... ("
             ++ decimal (Z.of_nat (List.length diff_lines) - max_lines)
             ++ str " more lines)"
      else [] in
    Some (str "Diff: " ++ device, join [LF] preview ++ suffix).

(* ===================================================================== *)
(** ** The checking scripts: inventory_check.py and
       validate-overlay-02-show-vlan-brief.py                            *)
(* ===================================================================== *)

(** What the two scripts use beyond [Env]. *)
Class ScriptEnv (W : Type) : Type := {
  (** [path.is_file()], which raises like [path.exists()] *)
  is_file : W -> pystr -> Res bool;
  (** [str(Path(p))] *)
  path_text : pystr -> pystr;
  (** [Path(__file__).resolve().parent.parent], as text *)
  repo_root : pystr;
  (** [str(exc)] of the [CalledProcessError] raised by
      [subprocess.run(..., check=True)] *)
  called_process_error : ProcResult -> pystr
}.

Section Scripts.
Context {W : Type} {E : Env W} {S : ScriptEnv W}.

(** [resolve_inventory_path], the same in both scripts. *)
Definition resolve_inventory_path (inventory_path : pystr) : M W pystr :=
  found <- reading (fun w => is_file w inventory_path) ;;
  if found then ret (path_text inventory_path)
  else
    let candidate := path_div repo_root inventory_path in
    found <- reading (fun w => is_file w candidate) ;;
    if found then ret candidate else ret inventory_path.

(** [load_hosts], the same in both scripts: pairs of inventory host name
    and connection target. *)
Definition load_hosts (inventory_path group : pystr)
  : M W (list (pystr * pystr)) :=
  proc <- reading (fun w => ansible_inventory w inventory_path) ;;
  if negb (returncode proc =? 0)%Z then raise (called_process_error proc)
  else
    inv <- lift_res (stdout_json proc) ;;
    if negb (bool_decide (group ∈ dom (inv_groups inv))) then
      raise (str "Group '" ++ group ++ str "' not found in inventory")
    else
      match collect (depth_bound (inv_groups inv)) (inv_groups inv) group ∅ with
      | None => raise (str "maximum recursion depth exceeded")
      | Some (hs, _) =>
          ret (List.map
                 (fun host_ =>
                    (host_, default host_ (inv_hostvars inv !! host_)))
                 (sorted hs))
      end.

(** [node.enable([command], encoding=...)[0]]. *)
Definition enable_first (node : Node) (command : pystr) (text : bool)
  : M W json :=
  l <- node_enable node command text ;;
  first_item l.

(** [response.get("result", response)]. *)
Definition result_or_self (response : json) : M W json :=
  d <- as_dict response ;;
  ret (default response (dict_get d (str "result"))).

(** The body of the loop of [main] in inventory_check.py.  The row it
    prints is not modelled; a row that cannot be formatted ends in the
    handler like any other failure. *)
Definition check_host (args : Args) (target : pystr * pystr) : M W unit :=
  let device := {| name := fst target; host := snd target |} in
  try_except
    (node <- node_for_device device args ;;
     version_response <- enable_first node (str "show version") false ;;
     version_data <- result_or_self version_response ;;
     hostname_response <- enable_first node (str "show hostname") false ;;
     hostname_data <- result_or_self hostname_response ;;
     _ <- as_dict hostname_data ;;
     _ <- as_dict version_data ;;
     ret tt)
    (fun _ => ret tt).

(** [main] of inventory_check.py: the exit status. *)
Definition inventory_check_main (args : Args) : M W Z :=
  inventory_path <- resolve_inventory_path (inventory args) ;;
  loaded <-
    try_except
      (targets <- load_hosts inventory_path (group args) ;;
       ret (Some targets))
      (fun _ => ret None) ;;
  match loaded with
  | None => ret 2%Z
  | Some targets =>
      if negb (nonempty targets) then ret 2%Z
      else
        _ <- for_each targets tt (fun target _ => check_host args target) ;;
        ret 0%Z
  end.

(** [get_output] of validate-overlay-02-show-vlan-brief.py. *)
Definition get_output (response : json) : M W pystr :=
  d <- as_dict response ;;
  let inner :=
    match dict_get d (str "result") with
    | Some (JDict r) =>
        match as_str (dict_get r (str "output")) with
        | Some s => Some s
        | None => as_str (dict_get r (str "response"))
        end
    | _ => None
    end in
  ret match inner with
      | Some s => s
      | None =>
          match as_str (dict_get d (str "output")) with
          | Some s => s
          | None =>
              match as_str (dict_get d (str "response")) with
              | Some s => s
              | None => py_str response
              end
          end
      end.

(** The [try] block of the loop of [main] in
    validate-overlay-02-show-vlan-brief.py: the text that is coloured and
    printed. *)
Definition show_vlan_brief (args : Args) (target : pystr * pystr) : M W pystr :=
  let device := {| name := fst target; host := snd target |} in
  node <- node_for_device device args ;;
  response <- enable_first node (str "show vlan brief") true ;;
  output <- get_output response ;;
  ret (rstrip output).

(** [main] of validate-overlay-02-show-vlan-brief.py: the exit status. *)
Definition validate_overlay_main (args : Args) : M W Z :=
  inventory_path <- resolve_inventory_path (inventory args) ;;
  loaded <-
    try_except
      (targets <- load_hosts inventory_path (group args) ;;
       ret (Some targets))
      (fun _ => ret None) ;;
  match loaded with
  | None => ret 2%Z
  | Some targets =>
      if negb (nonempty targets) then ret 2%Z
      else
        failures <-
          for_each targets 0%Z
            (fun target failures =>
               try_except (_ <- show_vlan_brief args target ;; ret failures)
                 (fun _ => ret (failures + 1)%Z)) ;;
        if negb (failures =? 0)%Z then ret 1%Z else ret 0%Z
  end.

End Scripts.

(** What [resolve_inventory_path] does with the answers of
    [path.is_file()] in the world [w]. *)
Definition resolved_path {W : Type} {E : Env W} {S : ScriptEnv W}
    (w : W) (inventory_path : pystr) : Res pystr :=
  match is_file w inventory_path with
  | Raise exc => Raise exc
  | Ok true => Ok (path_text inventory_path)
  | Ok false =>
      match is_file w (path_div repo_root inventory_path) with
      | Raise exc => Raise exc
      | Ok true => Ok (path_div repo_root inventory_path)
      | Ok false => Ok inventory_path
      end
  end.

(** The scripts run in the lab: every inventory path is a file. *)
Definition Lab_scripts : ScriptEnv Lab.World := {|
  is_file := fun _ _ => Ok true;
  path_text := fun p => p;
  repo_root := str "/lab";
  called_process_error := fun _ => str "Command returned non-zero exit status 1."
|}.

(* ===================================================================== *)
(** ** Notions used to state the further properties                      *)
(* ===================================================================== *)

(** [c] is listed among the children of the group [g]. *)
Definition child_of (inv : gmap pystr InvGroup) (g c : pystr) : Prop :=
  c ∈ children (group_data_of inv g).

(** What a traversal entered with the visited set [seen] at the group [g]
    has done when it hands back the visited set [seen']: it has marked
    [g], every newly marked group can be reached from [g], and all the
    children of a newly marked group are marked. *)
Definition explores (inv : gmap pystr InvGroup) (g : pystr)
    (seen seen' : gset pystr) : Prop :=
  seen ⊆ seen'
  /\ g ∈ seen'
  /\ (forall x, x ∈ seen' -> x ∉ seen -> rtc (child_of inv) g x)
  /\ (forall x c, x ∈ seen' -> x ∉ seen -> child_of inv x c -> c ∈ seen').

(** The hosts of the groups that can be reached from [g]. *)
Definition member_host (inv : gmap pystr InvGroup) (g h : pystr) : Prop :=
  exists x, rtc (child_of inv) g x /\ h ∈ hosts (group_data_of inv x).

Section Outcomes.
Context {W : Type} {E : Env W}.

(** What [command_json] makes of the list a show command returns. *)
Definition unwrap_json (answer : Res (list json)) : Res (list (pystr * json)) :=
  match answer with
  | Ok (JDict d :: _) =>
      Ok match dict_get d (str "result") with
         | Some (JDict r) => r
         | _ => d
         end
  | Ok (_ :: _) => Ok []
  | Ok [] => Raise (str "list index out of range")
  | Raise exc => Raise exc
  end.

(** What [command_text] makes of the list a show command returns. *)
Definition unwrap_text (answer : Res (list json)) : Res pystr :=
  match answer with
  | Ok (response :: _) =>
      Ok match response with
         | JDict d =>
             let inner :=
               match dict_get d (str "result") with
               | Some (JDict r) =>
                   match as_str (dict_get r (str "output")) with
                   | Some s => Some s
                   | None => as_str (dict_get r (str "response"))
                   end
               | _ => None
               end in
             match inner with
             | Some s => s
             | None =>
                 match as_str (dict_get d (str "output")) with
                 | Some s => s
                 | None =>
                     match as_str (dict_get d (str "response")) with
                     | Some s => s
                     | None => py_str response
                     end
                 end
             end
         | _ => py_str response
         end
  | Ok [] => Raise (str "list index out of range")
  | Raise exc => Raise exc
  end.

(** The outcome of one field reader: it returns a text, sends its one
    show command, and falls back to "n/a" when the command fails or
    returns an empty list. *)
Definition isolated_reader (reader : Node -> M W pystr) (command : pystr)
    (node : Node) (w : W) : Prop :=
  exists text,
    (forall t, reader node {| world := w; trace := t |}
               = (Ok text,
                  {| world := w;
                     trace := t ++ [EvEnable (node_device node) [command] false] |}))
    /\ (forall exc, enable_show w node command false = Raise exc ->
        text = str "n/a")
    /\ (enable_show w node command false = Ok [] -> text = str "n/a").

(** The record stored when the [try] block of [detect_drift] fails. *)
Definition error_result (path exc : pystr) : DriftResult :=
  {| drift := false;
     reason := str "Error reading running-config: " ++ exc;
     diff := [];
     golden_path := path |}.

(** The record stored when the [try] block of [detect_drift] succeeds. *)
Definition compared_result (path : pystr) (d : list pystr) : DriftResult :=
  {| drift := nonempty d; reason := []; diff := d; golden_path := path |}.

(** The result and the events of the detection of one device alone. *)
Definition alone (args : Args) (w : W) (d : Device)
  : Res DriftResult * list Event :=
  let '(r, st) := detect_device d args (init w) in (r, trace st).


(** Everything one complete restore of device [d] does, in order. *)
Definition restore_events (args : Args) (d : Device) : list Event :=
  let flash := path_div (path_div (flash_dir args) (name d)) (str "flash") in
  let staged_name := str "golden-" ++ name d ++ str ".cfg" in
  [ EvMkdir flash;
    EvCopyfile (golden_file_path (golden_dir args) (name d))
      (path_div flash staged_name);
    EvConnect d;
    EvEnable d (restore_commands staged_name) false ].

(** The four library calls of a restore all succeed, leading from the
    world [w] to the world [w']. *)
Definition restore_succeeds (args : Args) (d : Device) (w w' : W) : Prop :=
  let path := golden_file_path (golden_dir args) (name d) in
  let flash := path_div (path_div (flash_dir args) (name d)) (str "flash") in
  let staged_name := str "golden-" ++ name d ++ str ".cfg" in
  exists w1 w2 answer,
    mkdir w flash = (Ok tt, w1)
    /\ copyfile w1 path (path_div flash staged_name) = (Ok tt, w2)
    /\ connect w2 args d = Ok tt
    /\ enable_config w2 {| node_device := d; node_args := args |}
         (restore_commands staged_name) = (Ok answer, w').

(** [drift_data[d.name]["drift"]], false for a missing key. *)
Definition drift_flag (drift_data : gmap pystr DriftResult) (d : Device) : bool :=
  match drift_data !! name d with
  | Some info => drift info
  | None => false
  end.

(** What [main] does once the drifted devices are known. *)
Definition decide_restore (drifted : list Device) (args : Args) : M W Z :=
  if no_restore args || negb (nonempty drifted) then
    if nonempty drifted then ret 1%Z else ret 0%Z
  else
    confirmed <- reading (fun w => Ok (confirm_ask w)) ;;
    if negb confirmed then ret 1%Z else fix_verify drifted args.

(** [Device(name=hostname, host=host_ip)] of [load_inventory_devices]. *)
Definition device_of (inv : Inventory) (hostname : pystr) : Device :=
  {| name := hostname;
     host := default hostname (inv_hostvars inv !! hostname) |}.

(** The host can be reached and answers [show vlan brief] with an
    object. *)
Definition answers_vlan (args : Args) (w : W) (target : pystr * pystr) : bool :=
  let device := {| name := fst target; host := snd target |} in
  match connect w args device with
  | Raise _ => false
  | Ok _ =>
      match enable_show w {| node_device := device; node_args := args |}
              (str "show vlan brief") true with
      | Ok (JDict _ :: _) => true
      | _ => false
      end
  end.

(** What the loop body of validate-overlay-02-show-vlan-brief.py sends
    to one host. *)
Definition vlan_events (args : Args) (w : W) (target : pystr * pystr)
  : list Event :=
  let device := {| name := fst target; host := snd target |} in
  EvConnect device
    :: match connect w args device with
       | Raise _ => []
       | Ok _ => [EvEnable device [str "show vlan brief"] true]
       end.

(** What the loop body of inventory_check.py sends to one host. *)
Definition check_events (args : Args) (w : W) (target : pystr * pystr)
  : list Event :=
  let device := {| name := fst target; host := snd target |} in
  EvConnect device
    :: match connect w args device with
       | Raise _ => []
       | Ok _ =>
           EvEnable device [str "show version"] false
             :: match enable_show w {| node_device := device; node_args := args |}
                        (str "show version") false with
                | Ok (JDict _ :: _) =>
                    [EvEnable device [str "show hostname"] false]
                | _ => []
                end
       end.

(** A computation that leaves the state as it is. *)
Definition silent {A : Type} (m : M W A) : Prop :=
  forall st, snd (m st) = st.

End Outcomes.

(* ===================================================================== *)
(** * Properties                                                          *)
(* ===================================================================== *)

Set Warnings "-clear-no-such-hyp".

Local Open Scope N_scope.

Example splitlines_ex1 :
  splitlines (str "a" ++ [CR; LF] ++ str "b" ++ [LF; CR] ++ str "c" ++ [LF])
  = [str "a"; str "b"; []; str "c"].
Proof. reflexivity. Qed.

Example normalize_live_ex1 :
  normalize_live ([LF; LF] ++ str "  a  " ++ [LF] ++ str " b " ++ [LF; LF])
  = str "a" ++ [LF] ++ str " b" ++ [LF].
Proof. reflexivity. Qed.

Example normalize_golden_ex1 :
  normalize_golden ([LF; LF] ++ str "  a  " ++ [LF] ++ str " b " ++ [LF; LF])
  = str "a  " ++ [LF] ++ str " b" ++ [LF].
Proof. reflexivity. Qed.

Example format_uptime_ex1 : format_uptime (JInt 93784) = str "1d 2h 3m".
Proof. reflexivity. Qed.

Section StripBy.
Variable p : N -> bool.

Lemma rstrip_by_nil s : rstrip_by p s = [] <-> forallb p s = true.
Proof.
  induction s as [|c s IH]; simpl; [tauto|].
  destruct (rstrip_by p s) eqn:Hr.
  - destruct (p c) eqn:Hc; simpl.
    + split; [intros _; now apply IH | reflexivity].
    + split; [discriminate | discriminate].
  - split; [discriminate|].
    intros H. apply andb_true_iff in H as [_ H]. apply IH in H. discriminate.
Qed.

Lemma lstrip_by_nil s : lstrip_by p s = [] <-> forallb p s = true.
Proof.
  induction s as [|c s IH]; simpl; [tauto|].
  destruct (p c); simpl; [exact IH|]. split; discriminate.
Qed.

Lemma rstrip_by_idem s : rstrip_by p (rstrip_by p s) = rstrip_by p s.
Proof.
  induction s as [|c s IH]; simpl; [reflexivity|].
  destruct (rstrip_by p s) as [|d r] eqn:Hr.
  - destruct (p c) eqn:Hc; simpl; [reflexivity|]. now rewrite Hc.
  - change (rstrip_by p (c :: d :: r)) with
      (match rstrip_by p (d :: r) with
       | [] => if p c then [] else [c]
       | x :: y => c :: x :: y
       end).
    now rewrite IH.
Qed.

Lemma lstrip_by_idem s : lstrip_by p (lstrip_by p s) = lstrip_by p s.
Proof.
  induction s as [|c s IH]; simpl; [reflexivity|].
  destruct (p c) eqn:Hc; [exact IH|]. simpl. now rewrite Hc.
Qed.

Lemma rstrip_by_lstrip_by s :
  rstrip_by p s = s -> rstrip_by p (lstrip_by p s) = lstrip_by p s.
Proof.
  induction s as [|c s IH]; [reflexivity|].
  intros H. cbn [lstrip_by]. destruct (p c) eqn:Hc; [|exact H].
  apply IH. cbn [rstrip_by] in H.
  destruct (rstrip_by p s); [rewrite Hc in H; discriminate|].
  now injection H.
Qed.

Lemma rstrip_by_app a b :
  rstrip_by p (a ++ b) =
  match rstrip_by p b with
  | [] => rstrip_by p a
  | _ :: _ => a ++ rstrip_by p b
  end.
Proof.
  induction a as [|c a IH]; simpl.
  - now destruct (rstrip_by p b).
  - rewrite IH. destruct (rstrip_by p b) eqn:Hb; [reflexivity|].
    now destruct a.
Qed.

Lemma lstrip_by_app a b :
  lstrip_by p (a ++ b) =
  if forallb p a then lstrip_by p b else lstrip_by p a ++ b.
Proof.
  induction a as [|c a IH]; simpl; [reflexivity|].
  destruct (p c); simpl; [exact IH | reflexivity].
Qed.

Lemma forallb_rstrip_by q s :
  forallb q s = true -> forallb q (rstrip_by p s) = true.
Proof.
  induction s as [|c s IH]; simpl; [reflexivity|].
  intros H. apply andb_true_iff in H as [Hc Hs]. specialize (IH Hs).
  destruct (rstrip_by p s) eqn:Hr.
  - destruct (p c); simpl; [reflexivity | now rewrite Hc].
  - simpl in *. now rewrite Hc.
Qed.

Lemma forallb_lstrip_by q s :
  forallb q s = true -> forallb q (lstrip_by p s) = true.
Proof.
  induction s as [|c s IH]; simpl; [reflexivity|].
  intros H. destruct (p c); [|exact H].
  apply andb_true_iff in H as [_ Hs]. now apply IH.
Qed.

End StripBy.

Lemma strip_idem s : strip (strip s) = strip s.
Proof.
  unfold strip, rstrip, lstrip.
  rewrite (rstrip_by_lstrip_by is_space (rstrip_by is_space s)).
  - apply lstrip_by_idem.
  - apply rstrip_by_idem.
Qed.

Lemma join_cons sep l l' ls :
  join sep (l :: l' :: ls) = l ++ sep ++ join sep (l' :: ls).
Proof. reflexivity. Qed.

Lemma splitlines_line l t :
  one_line l = true -> splitlines (l ++ LF :: t) = l :: splitlines t.
Proof.
  induction l as [|c l IH]; intros H.
  - simpl. now destruct t.
  - simpl in H. apply andb_true_iff in H as [Hc Hl].
    apply negb_true_iff in Hc.
    change ((c :: l) ++ LF :: t) with (c :: (l ++ LF :: t)).
    cbn [splitlines]. rewrite Hc. now rewrite (IH Hl).
Qed.

Lemma splitlines_join ls :
  ls <> [] -> Forall (fun l => one_line l = true) ls ->
  splitlines (join [LF] ls ++ [LF]) = ls.
Proof.
  induction ls as [|l ls IH]; [congruence|].
  intros _ H. inversion H as [|? ? Hl Hls]; subst.
  destruct ls as [|l' ls].
  - simpl. now rewrite splitlines_line.
  - rewrite join_cons. rewrite <- !app_assoc. simpl.
    rewrite splitlines_line by assumption.
    f_equal. apply IH; [congruence | assumption].
Qed.

Lemma splitlines_one_line_le n s :
  (List.length s <= n)%nat -> Forall (fun l => one_line l = true) (splitlines s).
Proof.
  revert s. induction n as [|n IH]; intros s Hn.
  - destruct s; [constructor | simpl in Hn; lia].
  - destruct s as [|c rest]; [constructor|].
    simpl in Hn. cbn [splitlines].
    destruct (is_linebreak c) eqn:Hc.
    + constructor; [reflexivity|].
      destruct rest as [|c' rest']; [constructor|].
      destruct ((c =? CR) && (c' =? LF)).
      * apply IH. simpl in Hn. lia.
      * apply IH. lia.
    + assert (Hrest : Forall (fun l => one_line l = true) (splitlines rest))
        by (apply IH; lia).
      destruct (splitlines rest) as [|l ls].
      * constructor; [|constructor]. simpl. now rewrite Hc.
      * inversion Hrest; subst. constructor; [|assumption].
        simpl. rewrite Hc. simpl. assumption.
Qed.

Lemma splitlines_one_line s :
  Forall (fun l => one_line l = true) (splitlines s).
Proof. apply (splitlines_one_line_le (List.length s)). lia. Qed.

Lemma is_space_LF : is_space LF = true.
Proof. reflexivity. Qed.

Lemma rstrip_lines_join ls :
  rstrip_lines ls <> [] -> join [LF] (rstrip_lines ls) <> [].
Proof.
  induction ls as [|l ls IH]; [easy|].
  cbn [rstrip_lines]. destruct (rstrip_lines ls) as [|r rs] eqn:Hr.
  - destruct (blank l) eqn:Hb; [easy|]. intros _. simpl. intros Hn.
    apply (rstrip_by_nil is_space) in Hn. unfold blank in Hb. congruence.
  - intros _. rewrite join_cons. intros Hn.
    apply app_eq_nil in Hn as [_ Hn]. discriminate.
Qed.

Lemma rstrip_join ls :
  rstrip (join [LF] ls) = join [LF] (rstrip_lines ls).
Proof.
  induction ls as [|l ls IH]; [reflexivity|].
  destruct ls as [|l' ls].
  - simpl. destruct (blank l) eqn:Hb; simpl; [|reflexivity].
    now apply rstrip_by_nil.
  - rewrite join_cons. unfold rstrip in *. rewrite rstrip_by_app.
    change ([LF] ++ join [LF] (l' :: ls)) with (LF :: join [LF] (l' :: ls)).
    cbn [rstrip_by]. rewrite IH. rewrite is_space_LF.
    cbn [rstrip_lines].
    pose proof (rstrip_lines_join (l' :: ls)) as Hne.
    cbn [rstrip_lines] in Hne.
    destruct (match rstrip_lines ls with
              | [] => if blank l' then [] else [rstrip l']
              | p :: q => l' :: p :: q
              end) as [|r rs] eqn:Hr.
    + simpl. destruct (blank l) eqn:Hb; simpl; [|reflexivity].
      now apply rstrip_by_nil.
    + specialize (Hne ltac:(discriminate)).
      destruct (join [LF] (r :: rs)) eqn:Hj; [congruence|].
      rewrite join_cons. now rewrite Hj.
Qed.

Lemma lstrip_join ls :
  lstrip (join [LF] ls) = join [LF] (lstrip_lines ls).
Proof.
  induction ls as [|l ls IH]; [reflexivity|].
  destruct ls as [|l' ls].
  - simpl. destruct (blank l) eqn:Hb; simpl; [|reflexivity].
    now apply lstrip_by_nil.
  - rewrite join_cons. unfold lstrip in *. rewrite lstrip_by_app.
    cbn [lstrip_lines]. unfold blank.
    destruct (forallb is_space l) eqn:Hb.
    + change ([LF] ++ join [LF] (l' :: ls)) with (LF :: join [LF] (l' :: ls)).
      cbn [lstrip_by]. rewrite is_space_LF. exact IH.
    + now rewrite join_cons.
Qed.

Lemma strip_join ls :
  strip (join [LF] ls) = join [LF] (lstrip_lines (rstrip_lines ls)).
Proof. unfold strip. now rewrite rstrip_join, lstrip_join. Qed.

Section LineWise.
Variable f : pystr -> pystr.
Hypothesis f_nil : f [] = [].
Hypothesis f_idem : forall l, f (f l) = f l.
Hypothesis f_one_line : forall l, one_line l = true -> one_line (f l) = true.
Hypothesis f_rstrip : forall l, f l = l -> f (rstrip l) = rstrip l.
Hypothesis f_lstrip : forall l, f l = l -> f (lstrip l) = lstrip l.

Lemma settled_map ls :
  Forall (fun l => one_line l = true) ls -> Forall (settled f) (List.map f ls).
Proof.
  induction 1; simpl; constructor; [|assumption].
  split; [now apply f_one_line | apply f_idem].
Qed.

Lemma settled_rstrip_lines ls :
  Forall (settled f) ls -> Forall (settled f) (rstrip_lines ls).
Proof.
  induction 1 as [|l ls [Hl Hf] _ IH]; simpl; [constructor|].
  destruct (rstrip_lines ls).
  - destruct (blank l); constructor; [|constructor].
    split; [now apply forallb_rstrip_by | now apply f_rstrip].
  - constructor; [now split | assumption].
Qed.

Lemma settled_lstrip_lines ls :
  Forall (settled f) ls -> Forall (settled f) (lstrip_lines ls).
Proof.
  induction 1 as [|l ls [Hl Hf] Hls IH]; simpl; [constructor|].
  destruct (blank l); [assumption|].
  constructor; [|assumption].
  split; [now apply forallb_lstrip_by | now apply f_lstrip].
Qed.

Lemma map_settled ls : Forall (settled f) ls -> List.map f ls = ls.
Proof.
  induction 1 as [|l ls [_ Hf] _ IH]; simpl; [reflexivity|]. now rewrite Hf, IH.
Qed.

(** The stripped text is a join of settled lines, which [splitlines]
    gives back. *)
Lemma normal_form_lines s :
  exists ls,
    Forall (settled f) ls
    /\ strip (join [LF] (List.map f (splitlines s))) = join [LF] ls
    /\ join [LF] (splitlines (join [LF] ls ++ [LF])) = join [LF] ls
    /\ List.map f (splitlines (join [LF] ls ++ [LF]))
       = splitlines (join [LF] ls ++ [LF]).
Proof.
  set (ls := lstrip_lines (rstrip_lines (List.map f (splitlines s)))).
  assert (Hls : Forall (settled f) ls).
  { apply settled_lstrip_lines, settled_rstrip_lines, settled_map,
      splitlines_one_line. }
  exists ls. split; [assumption|]. split; [apply strip_join|].
  destruct ls as [|l ls'] eqn:Els.
  - simpl. now rewrite f_nil.
  - rewrite splitlines_join.
    + split; [reflexivity | now apply map_settled].
    + discriminate.
    + eapply Forall_impl; [exact Hls|]. now intros ? [? _].
Qed.

Lemma normalize_idem s :
  let normalize t := strip (join [LF] (List.map f (splitlines t))) ++ [LF] in
  normalize (normalize s) = normalize s.
Proof.
  intros normalize. unfold normalize.
  destruct (normal_form_lines s) as (ls & _ & Hx & Hj & Hm).
  rewrite Hx, Hm, Hj, <- Hx. now rewrite strip_idem.
Qed.

(** A normal form is determined by its lines. *)
Lemma normal_form_from_lines s :
  let normalize t := strip (join [LF] (List.map f (splitlines t))) ++ [LF] in
  join [LF] (splitlines (normalize s)) ++ [LF] = normalize s.
Proof.
  intros normalize. unfold normalize.
  destruct (normal_form_lines s) as (ls & _ & Hx & Hj & _).
  now rewrite Hx, Hj.
Qed.

End LineWise.

(** C9.  Both normalizations are idempotent: normalizing a normalized text
    gives the same text, for the live side and for the golden side. *)
Theorem C9_normalization_idempotent :
  (forall s, normalize_live (normalize_live s) = normalize_live s)
  /\ (forall s, normalize_golden (normalize_golden s) = normalize_golden s).
Proof.
  split; intros s.
  - apply (normalize_idem rstrip).
    + reflexivity.
    + apply rstrip_by_idem.
    + intros l. apply forallb_rstrip_by.
    + intros l _. apply rstrip_by_idem.
    + intros l. apply rstrip_by_lstrip_by.
  - pose proof (normalize_idem (fun l => l)) as H. cbn zeta in H.
    unfold normalize_golden.
    rewrite <- (map_id (splitlines s)).
    rewrite <- (map_id (splitlines (_ ++ [LF]))).
    apply H; auto.
Qed.

Lemma normalize_live_from_lines s :
  join [LF] (splitlines (normalize_live s)) ++ [LF] = normalize_live s.
Proof.
  apply (normal_form_from_lines rstrip).
  - reflexivity.
  - apply rstrip_by_idem.
  - intros l. apply forallb_rstrip_by.
  - intros l _. apply rstrip_by_idem.
  - intros l. apply rstrip_by_lstrip_by.
Qed.

Lemma normalize_golden_from_lines s :
  join [LF] (splitlines (normalize_golden s)) ++ [LF] = normalize_golden s.
Proof.
  pose proof (normal_form_from_lines (fun l => l)) as H. cbn zeta in H.
  unfold normalize_golden.
  rewrite <- (map_id (splitlines s)). apply H; auto.
Qed.

(** The two sides have the same lines exactly when they are the same
    text. *)
Lemma same_lines_same_text golden live :
  splitlines (normalize_golden golden) = splitlines (normalize_live live)
  <-> normalize_golden golden = normalize_live live.
Proof.
  split; [|now intros ->].
  intros H. rewrite <- normalize_golden_from_lines, <- normalize_live_from_lines.
  now rewrite H.
Qed.

Local Open Scope nat_scope.

Section Collect.
Variable inv : gmap pystr InvGroup.

Lemma children_in_child_names g c :
  c ∈ children (group_data_of inv g) -> c ∈ child_names inv.
Proof.
  unfold group_data_of. destruct (inv !! g) as [data|] eqn:Hg; simpl.
  - intros Hc. unfold child_names. apply elem_of_union_list.
    exists (list_to_set (children data)). split.
    + apply list_elem_of_In, in_map_iff. exists (g, data). split; [reflexivity|].
      apply list_elem_of_In, elem_of_map_to_list. exact Hg.
    + now apply elem_of_list_to_set.
  - intros Hc. inversion Hc.
Qed.

Lemma children_loop_total rec (bound : nat) :
  (forall g seen, g ∈ child_names inv ->
     size (child_names inv ∖ seen) < bound ->
     exists r, rec g seen = Some r /\ gathers inv seen r) ->
  forall cs hs seen seen0,
    (forall c, c ∈ cs -> c ∈ child_names inv) ->
    size (child_names inv ∖ seen) < bound ->
    gathers inv seen0 (hs, seen) ->
    exists r, children_loop rec cs hs seen = Some r /\ gathers inv seen0 r.
Proof.
  intros Hrec cs. induction cs as [|c cs IH]; intros hs seen seen0 Hcs Hsz Hg.
  - exists (hs, seen). split; [reflexivity | assumption].
  - simpl. destruct (Hrec c seen) as [[h seen'] [Hr [Hsub Hh]]].
    + apply Hcs. left.
    + assumption.
    + rewrite Hr. simpl in *. apply IH.
      * intros c' Hc'. apply Hcs. now right.
      * eapply Nat.le_lt_trans; [|exact Hsz].
        apply subseteq_size. set_solver.
      * destruct Hg as [Hsub0 Hhs]. simpl in *. split; simpl; [set_solver|].
        intros x. rewrite elem_of_union, Hhs, Hh. split.
        -- intros [(g & ? & ? & ?) | (g & ? & ? & ?)]; exists g; set_solver.
        -- intros (g & Hg1 & Hg2 & Hg3).
           destruct (decide (g ∈ seen)); [left | right]; exists g; set_solver.
Qed.

Lemma collect_hosts_step fuel g seen :
  g ∉ seen ->
  collect_hosts (S fuel) inv g seen =
  children_loop (collect_hosts fuel inv) (children (group_data_of inv g))
    (list_to_set (hosts (group_data_of inv g))) ({[g]} ∪ seen).
Proof. intros H. simpl. now rewrite decide_False. Qed.

Lemma gathers_start g seen :
  g ∉ seen ->
  gathers inv seen (list_to_set (hosts (group_data_of inv g)), {[g]} ∪ seen).
Proof.
  intros Hg. split; simpl; [set_solver|].
  intros x. rewrite elem_of_list_to_set. split.
  - intros Hx. exists g. set_solver.
  - intros (g' & H1 & H2 & H3). assert (g' = g) by set_solver. now subst.
Qed.

Lemma collect_hosts_total fuel :
  forall g seen, g ∈ child_names inv ->
    size (child_names inv ∖ seen) < fuel ->
    exists r, collect_hosts fuel inv g seen = Some r /\ gathers inv seen r.
Proof.
  induction fuel as [|fuel IH]; intros g seen Hg Hsz; [lia|].
  destruct (decide (g ∈ seen)) as [Hin|Hout].
  - exists (∅, seen). simpl. rewrite decide_True by assumption.
    split; [reflexivity|]. split; simpl; [set_solver|].
    intros x. split; [set_solver|]. intros (g' & ? & ? & ?). set_solver.
  - rewrite collect_hosts_step by assumption.
    assert (Hlt : size (child_names inv ∖ ({[g]} ∪ seen))
                  < size (child_names inv ∖ seen)).
    { apply subset_size. set_solver. }
    apply (children_loop_total _ fuel IH).
    + intros c. apply children_in_child_names.
    + lia.
    + now apply gathers_start.
Qed.

Lemma collect_hosts_root g :
  exists r, collect_hosts (depth_bound inv) inv g ∅ = Some r /\ gathers inv ∅ r.
Proof.
  unfold depth_bound. rewrite collect_hosts_step by set_solver.
  apply (children_loop_total _ (S (size (child_names inv)))).
  - apply collect_hosts_total.
  - intros c. apply children_in_child_names.
  - apply Nat.lt_succ_r, subseteq_size. set_solver.
  - apply gathers_start. set_solver.
Qed.

Lemma children_loop_mono rec1 rec2 :
  (forall g seen r, rec1 g seen = Some r -> rec2 g seen = Some r) ->
  forall cs hs seen r,
    children_loop rec1 cs hs seen = Some r ->
    children_loop rec2 cs hs seen = Some r.
Proof.
  intros Hrec cs. induction cs as [|c cs IH]; intros hs seen r; simpl; [easy|].
  destruct (rec1 c seen) as [[h seen']|] eqn:H1; [|discriminate].
  rewrite (Hrec _ _ _ H1). apply IH.
Qed.

Lemma collect_hosts_more_fuel fuel :
  forall fuel' g seen r, fuel <= fuel' ->
    collect_hosts fuel inv g seen = Some r ->
    collect_hosts fuel' inv g seen = Some r.
Proof.
  induction fuel as [|fuel IH]; intros fuel' g seen r Hle; [discriminate|].
  destruct fuel' as [|fuel']; [lia|]. simpl.
  destruct (decide (g ∈ seen)); [easy|].
  apply children_loop_mono. intros g' seen' r'. apply IH. lia.
Qed.

Lemma children_loop_ext rec1 rec2 :
  (forall g seen, rec1 g seen = rec2 g seen) ->
  forall cs hs seen,
    children_loop rec1 cs hs seen = children_loop rec2 cs hs seen.
Proof.
  intros Hrec cs. induction cs as [|c cs IH]; intros hs seen; simpl; [easy|].
  rewrite Hrec. destruct (rec2 c seen) as [[h seen']|]; [apply IH | reflexivity].
Qed.

Lemma collect_collect_hosts fuel :
  forall g seen, collect fuel inv g seen = collect_hosts fuel inv g seen.
Proof.
  induction fuel as [|fuel IH]; intros g seen; [reflexivity|]. simpl.
  destruct (decide (g ∈ seen)); [reflexivity|].
  now apply children_loop_ext.
Qed.

End Collect.

(** C8.  For every inventory, cyclic or not, and every group, the
    recursive host collection of both scripts returns, for every call
    depth from [depth_bound] on, one and the same finite set of hosts: the
    hosts of the groups it visited.  Sorting that set gives a list without
    duplicates, and a group already visited contributes the empty set and
    leaves the visited set as it is. *)
Theorem C8_collect_hosts_terminates
    (inv : gmap pystr InvGroup) (group_name : pystr) :
  exists hs seen : gset pystr,
    (forall fuel, depth_bound inv <= fuel ->
       collect_hosts fuel inv group_name ∅ = Some (hs, seen)
       /\ collect fuel inv group_name ∅ = Some (hs, seen))
    /\ (forall x, x ∈ hs <->
          exists g, (g ∈ seen) /\ (x ∈ hosts (group_data_of inv g)))
    /\ NoDup (sorted hs)
    /\ (forall fuel g visited, g ∈ visited ->
          collect_hosts (S fuel) inv g visited = Some (∅, visited)
          /\ collect (S fuel) inv g visited = Some (∅, visited)).
Proof.
  destruct (collect_hosts_root inv group_name) as [[hs seen] [Hr [_ Hh]]].
  exists hs, seen. repeat split.
  - now apply (collect_hosts_more_fuel inv (depth_bound inv)).
  - rewrite collect_collect_hosts.
    now apply (collect_hosts_more_fuel inv (depth_bound inv)).
  - intros Hx. apply Hh in Hx as (g & ? & _ & ?). now exists g.
  - intros (g & ? & ?). apply Hh. exists g. set_solver.
  - unfold sorted. rewrite merge_sort_Permutation. apply NoDup_elements.
  - simpl. now rewrite decide_True.
  - simpl. now rewrite decide_True.
Qed.

Lemma C8_witness :
  exists hs seen : gset pystr,
    collect_hosts 4 (inv_groups Lab.fabric) (str "FABRIC") ∅ = Some (hs, seen)
    /\ collect 4 (inv_groups Lab.fabric) (str "FABRIC") ∅ = Some (hs, seen).
Proof.
  destruct (C8_collect_hosts_terminates (inv_groups Lab.fabric) (str "FABRIC"))
    as (hs & seen & Hfuel & _).
  exists hs, seen. apply Hfuel. vm_compute. lia.
Defined.

Section Effects.
Context {W : Type} {E : Env W}.

Lemma observing_ret {A} P (a : A) : observing (W:=W) P (ret a).
Proof.
  intros w. exists (Ok a), []. split; [constructor|].
  intros t. unfold ret. now rewrite app_nil_r.
Qed.

Lemma observing_raise {A} P exc : observing (W:=W) (A:=A) P (raise exc).
Proof.
  intros w. exists (Raise exc), []. split; [constructor|].
  intros t. unfold raise. now rewrite app_nil_r.
Qed.

Lemma observing_lift_res {A} P (r : Res A) : observing (W:=W) P (lift_res r).
Proof.
  intros w. exists r, []. split; [constructor|].
  intros t. unfold lift_res. now rewrite app_nil_r.
Qed.

Lemma observing_reading {A} P (f : W -> Res A) : observing P (reading f).
Proof.
  intros w. exists (f w), []. split; [constructor|].
  intros t. unfold reading. simpl. now rewrite app_nil_r.
Qed.

Lemma observing_log (P : W -> Event -> Prop) ev :
  (forall w, P w ev) -> observing P (log ev).
Proof.
  intros HP w. exists (Ok tt), [ev]. split; [repeat constructor; apply HP|].
  intros t. reflexivity.
Qed.

Lemma observing_bind_returns {A B} P (Q : A -> Prop)
    (m : M W A) (k : A -> M W B) :
  observing P m ->
  (forall st a st', m st = (Ok a, st') -> Q a) ->
  (forall a, Q a -> observing P (k a)) ->
  observing P (bind m k).
Proof.
  intros Hm HQ Hk w. destruct (Hm w) as (r & evs & HP & Hrun).
  destruct r as [a|exc].
  - destruct (Hk a (HQ _ _ _ (Hrun [])) w) as (r' & evs' & HP' & Hrun').
    exists r', (evs ++ evs'). split; [now apply Forall_app|].
    intros t. unfold bind. rewrite Hrun, Hrun'. now rewrite app_assoc.
  - exists (Raise exc), evs. split; [assumption|].
    intros t. unfold bind. now rewrite Hrun.
Qed.

Lemma observing_bind {A B} P (m : M W A) (k : A -> M W B) :
  observing P m -> (forall a, observing P (k a)) -> observing P (bind m k).
Proof.
  intros Hm Hk. apply (observing_bind_returns P (fun _ => True)); auto.
Qed.

Lemma observing_try {A} P (body : M W A) handler :
  observing P body -> (forall exc, observing P (handler exc)) ->
  observing P (try_except body handler).
Proof.
  intros Hm Hk w. destruct (Hm w) as (r & evs & HP & Hrun).
  destruct r as [a|exc].
  - exists (Ok a), evs. split; [assumption|].
    intros t. unfold try_except. now rewrite Hrun.
  - destruct (Hk exc w) as (r' & evs' & HP' & Hrun').
    exists r', (evs ++ evs'). split; [now apply Forall_app|].
    intros t. unfold try_except. rewrite Hrun, Hrun'. now rewrite app_assoc.
Qed.

Lemma observing_for_each {A B} P (xs : list A) (body : A -> B -> M W B) :
  (forall x acc, x ∈ xs -> observing P (body x acc)) ->
  forall acc, observing P (for_each xs acc body).
Proof.
  induction xs as [|x xs IH]; intros Hbody acc; simpl.
  - apply observing_ret.
  - apply observing_bind.
    + apply Hbody. left.
    + intros acc'. apply IH. intros y b Hy. apply Hbody. now right.
Qed.

Lemma observing_map_m {A B} P (f : A -> M W B) (xs : list A) :
  (forall x, x ∈ xs -> observing P (f x)) -> observing P (map_m f xs).
Proof.
  induction xs as [|x xs IH]; intros Hf; simpl.
  - apply observing_ret.
  - apply observing_bind; [apply Hf; left|]. intros y.
    apply observing_bind; [|intros ys; apply observing_ret].
    apply IH. intros z Hz. apply Hf. now right.
Qed.

Lemma observing_repeat_m {A} P n (m : M W A) :
  observing P m -> observing P (repeat_m n m).
Proof.
  intros Hm. induction n as [|n IH]; simpl.
  - apply observing_ret.
  - apply observing_bind; [assumption | intros _; exact IH].
Qed.

Lemma drop_length_app (t evs : list Event) :
  drop (List.length t) (t ++ evs) = evs.
Proof. induction t as [|e t IH]; [now destruct evs | exact IH]. Qed.

(** A computation that only reads, cut short or not. *)
Lemma interrupted_run {A} budget (m : M W A) w r evs :
  (forall t, m {| world := w; trace := t |}
             = (r, {| world := w; trace := t ++ evs |})) ->
  forall t,
    interrupted budget m {| world := w; trace := t |}
    = if (List.length evs <=? budget)%nat
      then (match r with Ok a => Ok (Some a) | Raise exc => Raise exc end,
            {| world := w; trace := t ++ evs |})
      else (Ok None, {| world := w; trace := t ++ take budget evs |}).
Proof.
  intros Hm t. unfold interrupted. rewrite Hm. cbn [world trace].
  rewrite drop_length_app.
  destruct (List.length evs <=? budget)%nat; [|reflexivity]. now destruct r.
Qed.

Lemma observing_interrupted {A} P budget (m : M W A) :
  observing P m -> observing P (interrupted budget m).
Proof.
  intros Hm w. destruct (Hm w) as (r & evs & HP & Hrun).
  destruct (List.length evs <=? budget)%nat eqn:Hb.
  - eexists _, evs. split; [assumption|]. intros t.
    rewrite (interrupted_run budget m w r evs Hrun), Hb. reflexivity.
  - eexists _, (take budget evs). split; [now apply Forall_take|]. intros t.
    rewrite (interrupted_run budget m w r evs Hrun), Hb. reflexivity.
Qed.

Lemma observing_weaken {A} (P Q : W -> Event -> Prop) (m : M W A) :
  (forall w ev, P w ev -> Q w ev) -> observing P m -> observing Q m.
Proof.
  intros HPQ Hm w. destruct (Hm w) as (r & evs & HP & Hrun).
  exists r, evs. split; [|assumption].
  eapply Forall_impl; [exact HP | apply HPQ].
Qed.

(** An observing computation, run from any state. *)
Lemma observing_run {A} P (m : M W A) st :
  observing P m ->
  exists r evs, Forall (P (world st)) evs /\
    m st = (r, {| world := world st; trace := trace st ++ evs |}) /\
    m (init (world st)) = (r, {| world := world st; trace := evs |}).
Proof.
  intros Hm. destruct (Hm (world st)) as (r & evs & HP & Hrun).
  exists r, evs. split; [assumption|]. split.
  - destruct st as [w t]. apply Hrun.
  - apply (Hrun []).
Qed.

End Effects.

Ltac observe_step :=
  first
    [ apply observing_ret
    | apply observing_raise
    | apply observing_reading
    | apply observing_lift_res
    | apply observing_bind; [|intros ?]
    | apply observing_try; [|intros ?]
    | apply observing_for_each; intros ? ? _
    | match goal with
      | |- observing _ (match ?x with _ => _ end) => destruct x
      end ].

Ltac observe := repeat observe_step.

Section Readers.
Context {W : Type} {E : Env W}.

Lemma queries_not_mutating d ev : queries d ev -> mutating ev = false.
Proof.
  destruct ev; simpl; try easy. intros [_ H]. now rewrite H.
Qed.

Lemma node_for_device_observing d args :
  observing (fun _ => queries d) (node_for_device d args).
Proof.
  unfold node_for_device. apply observing_bind; [|intros ?].
  - now apply observing_log.
  - observe.
Qed.

Lemma node_for_device_returns d args (st : St W) node st' :
  node_for_device d args st = (Ok node, st') -> node_device node = d.
Proof.
  unfold node_for_device, bind, log, reading, ret. simpl.
  destruct (connect _ args d); intros H; inversion H. reflexivity.
Qed.

Lemma node_enable_observing node command text :
  startswith (str "show ") command = true ->
  observing (fun _ => queries (node_device node)) (node_enable node command text).
Proof.
  intros Hc. unfold node_enable. apply observing_bind; [|intros ?].
  - apply observing_log. intros _. split; [reflexivity|].
    cbn [forallb]. now rewrite Hc.
  - observe.
Qed.

Lemma command_json_observing node command :
  startswith (str "show ") command = true ->
  observing (fun _ => queries (node_device node)) (command_json node command).
Proof.
  intros Hc. unfold command_json, first_item.
  apply observing_bind; [now apply node_enable_observing | intros ?].
  observe.
Qed.

Lemma command_text_observing node command :
  startswith (str "show ") command = true ->
  observing (fun _ => queries (node_device node)) (command_text node command).
Proof.
  intros Hc. unfold command_text, first_item.
  apply observing_bind; [now apply node_enable_observing | intros ?].
  observe.
Qed.

Lemma read_cpu_observing node :
  observing (fun _ => queries (node_device node)) (read_cpu node).
Proof.
  unfold read_cpu. apply observing_try; [|intros ?; observe].
  apply observing_bind; [now apply command_json_observing | intros ?].
  observe.
Qed.

Lemma read_temperature_observing node :
  observing (fun _ => queries (node_device node)) (read_temperature node).
Proof.
  unfold read_temperature, section_temperatures, as_dict.
  apply observing_try; [|intros ?; observe].
  apply observing_bind; [now apply command_json_observing | intros ?].
  observe.
Qed.

Lemma read_bgp_status_observing node :
  observing (fun _ => queries (node_device node)) (read_bgp_status node).
Proof.
  unfold read_bgp_status, as_dict.
  apply observing_try; [|intros ?; observe].
  apply observing_bind; [now apply command_json_observing | intros ?].
  observe.
Qed.

Lemma read_mlag_status_observing node :
  observing (fun _ => queries (node_device node)) (read_mlag_status node).
Proof.
  unfold read_mlag_status.
  apply observing_try; [|intros ?; observe].
  apply observing_bind; [now apply command_json_observing | intros ?].
  observe.
Qed.

Lemma snapshot_facts_observing d args :
  observing (fun _ => queries d) (snapshot_facts d args).
Proof.
  unfold snapshot_facts.
  apply (observing_bind_returns _ (fun node => node_device node = d)).
  - apply node_for_device_observing.
  - apply node_for_device_returns.
  - intros node <-.
    apply observing_bind; [now apply command_json_observing | intros ?].
    apply observing_bind; [apply read_cpu_observing | intros ?].
    apply observing_bind; [apply read_temperature_observing | intros ?].
    apply observing_bind; [apply read_bgp_status_observing | intros ?].
    apply observing_bind; [apply read_mlag_status_observing | intros ?].
    apply observing_ret.
Qed.

Lemma collect_snapshot_observing d args :
  observing (fun _ => queries d) (collect_snapshot d args).
Proof.
  unfold collect_snapshot. apply observing_try.
  - apply snapshot_facts_observing.
  - intros exc. apply observing_ret.
Qed.

End Readers.

Section Detection.
Context {W : Type} {E : Env W}.

Lemma running_config_observing node :
  observing (fun _ => queries (node_device node)) (running_config node).
Proof.
  unfold running_config.
  apply observing_bind; [now apply command_text_observing | intros ?].
  apply observing_ret.
Qed.

Lemma fetch_diff_observing d args path :
  observing (fun _ => queries d) (fetch_diff d args path).
Proof.
  unfold fetch_diff, load_golden_config.
  apply (observing_bind_returns _ (fun node => node_device node = d)).
  - apply node_for_device_observing.
  - apply node_for_device_returns.
  - intros node <-.
    apply observing_bind; [apply running_config_observing | intros ?].
    observe.
Qed.

Lemma missing_result_well_formed path : well_formed_result (missing_result path).
Proof.
  unfold well_formed_result, drift_state. simpl.
  repeat split; try easy; intros []; easy.
Qed.

Lemma success_result_well_formed dl path :
  well_formed_result
    {| drift := nonempty dl; reason := []; diff := dl; golden_path := path |}.
Proof.
  unfold well_formed_result, drift_state. simpl.
  destruct dl; simpl; repeat split; try easy; intros []; easy.
Qed.

Lemma error_result_well_formed exc path :
  well_formed_result
    {| drift := false;
       reason := str "Error reading running-config: " ++ exc;
       diff := [];
       golden_path := path |}.
Proof.
  unfold well_formed_result, drift_state. simpl.
  repeat split; try easy; intros []; easy.
Qed.

(** One device of a detection pass: it leaves the world alone and talks
    to that device only, and only when its baseline is there; it raises
    exactly when [path.exists()] does. *)
Lemma detect_device_spec d args w :
  let path := golden_file_path (golden_dir args) (name d) in
  exists r evs,
    (forall t, detect_device d args {| world := w; trace := t |}
               = (r, {| world := w; trace := t ++ evs |}))
    /\ Forall (queries d) evs
    /\ match path_exists w path with
       | Raise exc => r = Raise exc /\ evs = []
       | Ok false => r = Ok (missing_result path) /\ evs = []
       | Ok true => exists r', r = Ok r' /\ well_formed_result r'
       end.
Proof.
  intros path. unfold detect_device. fold path.
  destruct (path_exists w path) as [[|]|exc] eqn:Hex.
  - destruct (fetch_diff_observing d args path w) as (rb & evs & HP & Hrun).
    destruct rb as [dl|exc].
    + eexists _, evs. split; [|split].
      * intros t. unfold bind, reading, try_except, ret. cbn [world].
        rewrite Hex. cbn [negb]. rewrite Hrun. reflexivity.
      * assumption.
      * eexists. split; [reflexivity|]. apply success_result_well_formed.
    + eexists _, evs. split; [|split].
      * intros t. unfold bind, reading, try_except, ret. cbn [world].
        rewrite Hex. cbn [negb]. rewrite Hrun. reflexivity.
      * assumption.
      * eexists. split; [reflexivity|]. apply error_result_well_formed.
  - exists (Ok (missing_result path)), []. split; [|split].
    + intros t. unfold bind, reading, ret. cbn [world].
      rewrite Hex. cbn [negb]. now rewrite app_nil_r.
    + constructor.
    + split; reflexivity.
  - exists (Raise exc), []. split; [|split].
    + intros t. unfold bind, reading. cbn [world].
      rewrite Hex. now rewrite app_nil_r.
    + constructor.
    + split; reflexivity.
Qed.

Lemma detect_device_well_formed d args (st : St W) r st' :
  detect_device d args st = (Ok r, st') -> well_formed_result r.
Proof.
  destruct st as [w t].
  destruct (detect_device_spec d args w) as (r0 & evs & Hrun & _ & Hcase).
  rewrite Hrun. intros H. injection H as -> _.
  destruct (path_exists w _) as [[|]|exc].
  - destruct Hcase as (r' & Hr & Hwf). now injection Hr as <-.
  - destruct Hcase as [Hr _]. injection Hr as ->.
    apply missing_result_well_formed.
  - now destruct Hcase.
Qed.

Lemma detect_device_answers d args w present :
  path_exists w (golden_file_path (golden_dir args) (name d)) = Ok present ->
  exists r evs,
    (forall t, detect_device d args {| world := w; trace := t |}
               = (Ok r, {| world := w; trace := t ++ evs |}))
    /\ well_formed_result r
    /\ Forall (queries d) evs
    /\ (present = false ->
        r = missing_result (golden_file_path (golden_dir args) (name d))
        /\ evs = []).
Proof.
  intros Hex.
  destruct (detect_device_spec d args w) as (r0 & evs & Hrun & Hq & Hcase).
  rewrite Hex in Hcase. destruct present.
  - destruct Hcase as (r & -> & Hwf). exists r, evs.
    split; [exact Hrun|]. split; [exact Hwf|]. split; [exact Hq|].
    discriminate.
  - destruct Hcase as [-> ->]. eexists _, []. split; [exact Hrun|].
    split; [apply missing_result_well_formed|]. split; [constructor | auto].
Qed.

Lemma detect_device_observing devices d args :
  d ∈ devices ->
  observing (detection_event devices args) (detect_device d args).
Proof.
  intros Hd w. destruct (detect_device_spec d args w) as (r & evs & Hrun & Hq & Hcase).
  exists r, evs. split; [|assumption].
  destruct (path_exists w (golden_file_path (golden_dir args) (name d)))
    as [[|]|exc] eqn:Hex.
  - eapply Forall_impl; [exact Hq|]. intros ev Hev. now exists d.
  - destruct Hcase as [_ ->]. constructor.
  - destruct Hcase as [_ ->]. constructor.
Qed.

Lemma detect_drift_observing devices args :
  observing (detection_event devices args) (detect_drift devices args).
Proof.
  unfold detect_drift. apply observing_for_each. intros d acc Hd.
  apply observing_bind; [now apply detect_device_observing | intros ?].
  apply observing_ret.
Qed.

(** The loop of [detect_drift], from any accumulated dictionary: it
    raises exactly when [path.exists()] raises for one of the devices. *)
Lemma detect_loop_spec args devices :
  forall (acc : gmap pystr DriftResult) w,
  exists r evs,
    (forall t,
       for_each devices acc
         (fun device results =>
            result <- detect_device device args ;;
            ret (<[name device := result]> results))
         {| world := w; trace := t |}
       = (r, {| world := w; trace := t ++ evs |}))
    /\ (stat_answers args w devices -> exists results, r = Ok results)
    /\ (forall exc, r = Raise exc ->
        exists d, d ∈ devices
          /\ path_exists w (golden_file_path (golden_dir args) (name d))
             = Raise exc)
    /\ forall results, r = Ok results ->
         dom results = dom acc ∪ list_to_set (name <$> devices)
         /\ (map_Forall (fun _ r => well_formed_result r) acc ->
             map_Forall (fun _ r => well_formed_result r) results)
         /\ (forall key,
               (forall d, d ∈ devices -> name d = key ->
                  path_exists w (golden_file_path (golden_dir args) key)
                  = Ok false) ->
               results !! key =
               if bool_decide (key ∈ name <$> devices)
               then Some (missing_result
                            (golden_file_path (golden_dir args) key))
               else acc !! key).
Proof.
  induction devices as [|d devices IH]; intros acc w.
  - exists (Ok acc), []. split; [|split; [|split]].
    + intros t. simpl. unfold ret. now rewrite app_nil_r.
    + eauto.
    + discriminate.
    + intros results [= <-]. split; [set_solver|]. split; [easy|].
      intros key _. rewrite bool_decide_eq_false_2; [reflexivity | set_solver].
  - destruct (detect_device_spec d args w) as (r & evs & Hrun & _ & Hcase).
    destruct r as [r|exc].
    + destruct (IH (<[name d := r]> acc) w)
        as (rs & evs' & Hrun' & Htotal & Hraise & Hok).
      exists rs, (evs ++ evs'). split; [|split; [|split]].
      * intros t. cbn [for_each]. unfold bind at 1. unfold bind at 1.
        rewrite Hrun. unfold ret at 1. rewrite Hrun'. now rewrite app_assoc.
      * intros Hstat. apply Htotal. intros d' Hd'. apply Hstat. now right.
      * intros exc Hexc. destruct (Hraise exc Hexc) as (d' & Hd' & Hex).
        exists d'. split; [now right | exact Hex].
      * intros results Hresults.
        destruct (Hok results Hresults) as (Hdom & Hall & Hkey).
        assert (Hwf : well_formed_result r).
        { apply (detect_device_well_formed d args {| world := w; trace := [] |}
                   r {| world := w; trace := [] ++ evs |}), Hrun. }
        split; [rewrite Hdom, dom_insert_L; set_solver|].
        split; [intros Hacc; apply Hall; now apply map_Forall_insert_2|].
        intros key Hmiss. rewrite Hkey.
        2:{ intros d' Hd'. apply Hmiss. now right. }
        destruct (decide (key ∈ name <$> devices)) as [Hin|Hout].
        -- rewrite !bool_decide_eq_true_2; [reflexivity | set_solver | assumption].
        -- rewrite (bool_decide_eq_false_2 _ Hout).
           destruct (decide (name d = key)) as [Heq|Hne].
           ++ rewrite bool_decide_eq_true_2 by set_solver.
              subst key. rewrite lookup_insert_eq.
              rewrite (Hmiss d) in Hcase; [|left | reflexivity].
              destruct Hcase as [Hr _]. now injection Hr as ->.
           ++ rewrite bool_decide_eq_false_2 by set_solver.
              now rewrite lookup_insert_ne.
    + exists (Raise exc), evs. split; [|split; [|split]].
      * intros t. cbn [for_each]. unfold bind at 1. unfold bind at 1.
        now rewrite Hrun.
      * intros Hstat. destruct (Hstat d) as [present Hex]; [left|].
        rewrite Hex in Hcase. destruct present.
        -- destruct Hcase as (? & ? & _). discriminate.
        -- now destruct Hcase.
      * intros exc' [= <-]. exists d. split; [left|].
        destruct (path_exists w _) as [[|]|exc'].
        -- destruct Hcase as (? & ? & _). discriminate.
        -- now destruct Hcase.
        -- destruct Hcase as [Hr _]. now injection Hr as ->.
      * discriminate.
Qed.

Lemma drifted_devices_total (devices : list Device) (drift_data : gmap pystr DriftResult) :
  Forall (fun d => is_Some (drift_data !! name d)) devices ->
  forall st : St W, exists ds,
    drifted_devices devices drift_data st = (Ok ds, st)
    /\ ds = List.filter
              (fun d => match drift_data !! name d with
                        | Some info => drift info
                        | None => false
                        end) devices.
Proof.
  induction 1 as [|d devices [info Hd] _ IH]; intros st.
  - now exists [].
  - destruct (IH st) as (ds & Hrun & Hds). simpl. rewrite Hd.
    unfold bind. rewrite Hrun. unfold ret.
    destruct (drift info); eexists; (split; [reflexivity|]); now rewrite Hds.
Qed.

End Detection.

(** C4.  Every [DriftResult] that a detection pass produces is well
    formed: drift and a non-empty unknown reason never hold together,
    exactly one of the states drifted, unknown and clean applies, and an
    unknown or clean result has no diff lines.  The pass returns whenever
    [path.exists()] answers for the baseline file of every device; the
    invariant holds for every pass that returns. *)
Theorem C4_drift_result_invariant {W : Type} {E : Env W}
    (devices : list Device) (args : Args) (st : St W) :
  exists r st',
    detect_drift devices args st = (r, st')
    /\ (stat_answers args (world st) devices -> exists results, r = Ok results)
    /\ forall results, r = Ok results ->
         map_Forall (fun _ result => well_formed_result result) results.
Proof.
  destruct st as [w t].
  destruct (detect_loop_spec args devices ∅ w)
    as (r & evs & Hrun & Htotal & _ & Hok).
  exists r, {| world := w; trace := t ++ evs |}. split; [apply Hrun|].
  split; [exact Htotal|].
  intros results Hr. destruct (Hok results Hr) as (_ & Hwf & _).
  apply Hwf, map_Forall_empty.
Qed.

(** C10.  For every list of devices, the dictionary returned by
    [detect_drift] has exactly the names of the devices as its keys, every
    device finds its entry, and the later look-ups of [main] (the
    selection of the drifted devices) do not raise.  The pass returns
    whenever [path.exists()] answers for the baseline file of every
    device; it raises, and returns no dictionary, only when
    [path.exists()] raises for one of them. *)
Theorem C10_detect_drift_keys {W : Type} {E : Env W}
    (devices : list Device) (args : Args) (st : St W) :
  exists r st',
    detect_drift devices args st = (r, st')
    /\ (stat_answers args (world st) devices -> exists results, r = Ok results)
    /\ (forall exc, r = Raise exc ->
        exists d, d ∈ devices
          /\ path_exists (world st)
               (golden_file_path (golden_dir args) (name d)) = Raise exc)
    /\ forall results, r = Ok results ->
         dom results = list_to_set (name <$> devices)
         /\ Forall (fun d => is_Some (results !! name d)) devices
         /\ exists drifted,
              drifted_devices devices results st' = (Ok drifted, st').
Proof.
  destruct st as [w t].
  destruct (detect_loop_spec args devices ∅ w)
    as (r & evs & Hrun & Htotal & Hraise & Hok).
  exists r, {| world := w; trace := t ++ evs |}.
  split; [apply Hrun|]. split; [exact Htotal|]. split; [exact Hraise|].
  intros results Hr. destruct (Hok results Hr) as (Hdom & _ & _).
  assert (Hall : Forall (fun d => is_Some (results !! name d)) devices).
  { apply Forall_forall. intros d Hd. apply elem_of_dom. rewrite Hdom.
    apply elem_of_union_r, elem_of_list_to_set, list_elem_of_fmap.
    exists d. split; [reflexivity | assumption]. }
  split; [rewrite Hdom, dom_empty_L; set_solver|]. split; [assumption|].
  destruct (drifted_devices_total devices results Hall
              {| world := w; trace := t ++ evs |}) as (ds & Hds & _).
  now exists ds.
Qed.

(** C7.  For a device whose baseline file does not exist
    ([path.exists()] answers [False]), the detection of that device gives
    the result with reason "Golden config missing", [drift = false] and no
    diff lines, without any event.  In a pass over a list that contains
    the device, no event is a connection or a command for a device of
    that name; the pass returns whenever [path.exists()] answers for
    every device of the list, and every pass that returns stores that
    result under the device's name. *)
Theorem C7_missing_baseline {W : Type} {E : Env W}
    (devices : list Device) (args : Args) (st : St W) (d : Device) :
  d ∈ devices ->
  path_exists (world st) (golden_file_path (golden_dir args) (name d))
  = Ok false ->
  let missing :=
    {| drift := false;
       reason := str "Golden config missing";
       diff := [];
       golden_path := golden_file_path (golden_dir args) (name d) |} in
  detect_device d args st = (Ok missing, st)
  /\ exists r evs,
       detect_drift devices args st
         = (r, {| world := world st; trace := trace st ++ evs |})
       /\ (stat_answers args (world st) devices ->
           exists results, r = Ok results)
       /\ (forall results, r = Ok results -> results !! name d = Some missing)
       /\ Forall (fun ev => forall d', event_device ev = Some d' ->
                               name d' <> name d) evs.
Proof.
  intros Hd Hmiss missing. destruct st as [w t]. cbn [world trace] in *.
  split.
  { destruct (detect_device_spec d args w) as (r & evs & Hrun & _ & Hcase).
    rewrite Hmiss in Hcase. destruct Hcase as [-> ->].
    rewrite Hrun. now rewrite app_nil_r. }
  destruct (detect_loop_spec args devices ∅ w)
    as (r & evs & Hrun & Htotal & _ & Hok).
  exists r, evs. split; [apply Hrun|]. split; [exact Htotal|]. split.
  - intros results Hr. destruct (Hok results Hr) as (_ & _ & Hkey).
    rewrite (Hkey (name d)).
    + rewrite bool_decide_eq_true_2; [reflexivity|].
      apply list_elem_of_fmap. now exists d.
    + intros d' _ _. exact Hmiss.
  - destruct (detect_drift_observing devices args w) as (r' & evs' & HP & Hrun').
    specialize (Hrun' t). unfold detect_drift in Hrun'. rewrite Hrun in Hrun'.
    injection Hrun' as _ Heq. apply app_inv_head in Heq. subst evs'.
    eapply Forall_impl; [exact HP|].
    intros ev (d0 & _ & Hex & Hq) d' Hev Hname.
    assert (d' = d0) as ->.
    { destruct ev; simpl in *; try easy.
      - congruence.
      - destruct Hq as [-> _]. congruence. }
    rewrite Hname in Hex. congruence.
Qed.

Section Snapshot.
Context {W : Type} {E : Env W}.

Lemma snapshot_facts_reachable d args (st : St W) facts st' :
  snapshot_facts d args st = (Ok facts, st') ->
  reachable facts = true /\ error facts = [].
Proof.
  unfold snapshot_facts, bind, ret.
  destruct (node_for_device d args st) as [[node|?] st1]; [|discriminate].
  destruct (command_json node _ st1) as [[v|?] st2]; [|discriminate].
  destruct (read_cpu node st2) as [[c|?] st3]; [|discriminate].
  destruct (read_temperature node st3) as [[tp|?] st4]; [|discriminate].
  destruct (read_bgp_status node st4) as [[b|?] st5]; [|discriminate].
  destruct (read_mlag_status node st5) as [[ml|?] st6]; [|discriminate].
  intros H. injection H as <- _. split; reflexivity.
Qed.

End Snapshot.

(** C3 (as amended).  For every device and every state,
    [collect_snapshot] returns a snapshot and never raises.  When the
    snapshot says [reachable = false], every fact field (model, version,
    uptime, cpu, temperature, bgp, mlag) is the sentinel "n/a" and
    [error] is the text of the exception that the collection raised;
    conversely every failure of the collection yields that snapshot.
    The text is whatever the exception carries: it can be empty. *)
Theorem C3_collect_snapshot_never_raises {W : Type} {E : Env W}
    (device : Device) (args : Args) (st : St W) :
  exists snap st',
    collect_snapshot device args st = (Ok snap, st')
    /\ snap_name snap = name device
    /\ (reachable snap = false ->
        model snap = str "n/a" /\ version snap = str "n/a"
        /\ uptime snap = str "n/a" /\ cpu snap = str "n/a"
        /\ temperature snap = str "n/a" /\ bgp snap = str "n/a"
        /\ mlag snap = str "n/a"
        /\ fst (snapshot_facts device args st) = Raise (error snap))
    /\ (forall exc, fst (snapshot_facts device args st) = Raise exc ->
        snap = unreachable_snapshot device exc).
Proof.
  unfold collect_snapshot, try_except.
  destruct (snapshot_facts device args st) as [[facts|exc] st1] eqn:Hrun.
  - exists facts, st1. split; [reflexivity|].
    destruct (snapshot_facts_reachable _ _ _ _ _ Hrun) as [Hr _].
    split; [|split].
    + revert Hrun. unfold snapshot_facts, bind, ret.
      repeat match goal with
             | |- context [match ?m ?s with _ => _ end] =>
                 destruct (m s) as [[?|?] ?]; [|discriminate]
             end.
      intros H. now injection H as <- _.
    + rewrite Hr. discriminate.
    + simpl. discriminate.
  - exists (unreachable_snapshot device exc), st1.
    split; [reflexivity|]. split; [reflexivity|]. split.
    + intros _. simpl. repeat split; reflexivity.
    + simpl. intros exc' H. now injection H as <-.
Qed.

Lemma C3_witness :
  exists snap,
    fst (collect_snapshot (E:=Lab.env) Lab.leaf2 Lab.args (init Lab.padded_world))
      = Ok snap
    /\ reachable snap = false
    /\ cpu snap = str "n/a"
    /\ error snap = str "unable to connect to eAPI".
Proof.
  destruct (C3_collect_snapshot_never_raises (E:=Lab.env) Lab.leaf2 Lab.args
              (init Lab.padded_world))
    as (snap & st' & Hrun & _ & _ & Hexc).
  exists snap. rewrite Hrun. split; [reflexivity|].
  rewrite (Hexc (str "unable to connect to eAPI")); [|vm_compute; reflexivity].
  repeat split; reflexivity.
Defined.

Lemma C3_counterexample :
  ~ (forall (W : Type) (E : Env W) (device : Device) (args : Args)
       (st : St W) (snap : Snapshot),
       fst (collect_snapshot device args st) = Ok snap ->
       reachable snap = false -> error snap <> []).
Proof.
  intros H.
  apply (H unit Silent.env Lab.leaf1 Lab.args (init tt)
           (unreachable_snapshot Lab.leaf1 [])); reflexivity.
Qed.

Section Health.
Context {W : Type} {E : Env W}.

Lemma reads_ge_80 v z : reads v z -> (80 <= z)%Z ->
  match v with Some x => float_ge_80 x | None => false end = true.
Proof.
  intros (q & -> & Hq) Hz. simpl. apply Qle_bool_iff.
  rewrite Hq. unfold Qle. simpl. lia.
Qed.

Lemma reads_lt_80 v z : reads v z -> (z < 80)%Z ->
  match v with Some x => float_ge_80 x | None => false end = false.
Proof.
  intros (q & -> & Hq) Hz. simpl.
  destruct (Qle_bool (Qmake 80 1) q) eqn:Hle; [|reflexivity].
  apply Qle_bool_iff in Hle. rewrite Hq in Hle. unfold Qle in Hle.
  simpl in Hle. lia.
Qed.

End Health.

(** C5.  [health_color] is the Health Evaluator of the specification on
    the parsed readings: critical (red) if CPU >= 80 or temperature >= 80,
    caution (yellow) if both are unavailable, nominal (green) otherwise.
    In particular: critical for CPU 81 and temperature 10, critical for
    CPU 10 and temperature 81, caution when both are unavailable, nominal
    for CPU 50 and temperature 50. *)
Theorem C5_health_color {W : Type} {E : Env W} (cpu_text temp_text : pystr) :
  let cpu_value := float_or_none (rstrip_chars (str "%") cpu_text) in
  let temp_value := float_or_none (rstrip_chars (str "C") temp_text) in
  health_color cpu_text temp_text
    = severity_color (health_spec cpu_value temp_value)
  /\ (reads cpu_value 81 -> reads temp_value 10 ->
      health_color cpu_text temp_text = severity_color critical)
  /\ (reads cpu_value 10 -> reads temp_value 81 ->
      health_color cpu_text temp_text = severity_color critical)
  /\ (cpu_value = None -> temp_value = None ->
      health_color cpu_text temp_text = severity_color caution)
  /\ (reads cpu_value 50 -> reads temp_value 50 ->
      health_color cpu_text temp_text = severity_color nominal).
Proof.
  intros cpu_value temp_value.
  assert (Hgen : health_color cpu_text temp_text
                 = severity_color (health_spec cpu_value temp_value)).
  { unfold health_color, health_spec. fold cpu_value temp_value.
    destruct cpu_value as [c|], temp_value as [t|]; simpl;
      repeat match goal with
             | |- context [float_ge_80 ?x] => destruct (float_ge_80 x)
             end; reflexivity. }
  split; [exact Hgen|]. rewrite Hgen. unfold health_spec.
  repeat split.
  - intros Hc Ht. now rewrite (reads_ge_80 _ _ Hc).
  - intros Hc Ht.
    rewrite (reads_lt_80 _ _ Hc), (reads_ge_80 _ _ Ht) by lia. reflexivity.
  - intros -> ->. reflexivity.
  - intros Hc Ht.
    rewrite (reads_lt_80 _ _ Hc), (reads_lt_80 _ _ Ht) by lia.
    destruct Hc as (? & -> & _), Ht as (? & -> & _). reflexivity.
Qed.

Lemma C5_witness :
  health_color (E:=Lab.env) (str "81.0%") (str "10.0C") = str "red"
  /\ health_color (E:=Lab.env) (str "10.0%") (str "81.0C") = str "red"
  /\ health_color (E:=Lab.env) (str "n/a") (str "n/a") = str "yellow"
  /\ health_color (E:=Lab.env) (str "50.0%") (str "50.0C") = str "green".
Proof.
  pose proof (C5_health_color (E:=Lab.env) (str "81.0%") (str "10.0C")) as H1.
  pose proof (C5_health_color (E:=Lab.env) (str "10.0%") (str "81.0C")) as H2.
  pose proof (C5_health_color (E:=Lab.env) (str "n/a") (str "n/a")) as H3.
  pose proof (C5_health_color (E:=Lab.env) (str "50.0%") (str "50.0C")) as H4.
  cbv zeta in H1, H2, H3, H4.
  destruct H1 as (_ & H1 & _), H2 as (_ & _ & H2 & _),
    H3 as (_ & _ & _ & H3 & _), H4 as (_ & _ & _ & _ & H4).
  split; [|split; [|split]].
  - apply H1.
    + exists (Qmake 810 10). split; reflexivity.
    + exists (Qmake 100 10). split; reflexivity.
  - apply H2.
    + exists (Qmake 100 10). split; reflexivity.
    + exists (Qmake 810 10). split; reflexivity.
  - apply H3; reflexivity.
  - apply H4.
    + exists (Qmake 500 10). split; reflexivity.
    + exists (Qmake 500 10). split; reflexivity.
Defined.

Section Compare.
Context {W : Type} {E : Env W}.

(** With a baseline that can be read and a device that answers, the
    detection of one device compares the two normal forms. *)
Lemma detect_device_compares (device : Device) (args : Args) (w : W)
    (baseline live : pystr) :
  let path := golden_file_path (golden_dir args) (name device) in
  let node := {| node_device := device; node_args := args |} in
  diff_law E ->
  path_exists w path = Ok true ->
  connect w args device = Ok tt ->
  fst (command_text node (str "show running-config") (init w)) = Ok live ->
  read_text w path = Ok baseline ->
  exists r evs,
    (forall t, detect_device device args {| world := w; trace := t |}
               = (Ok r, {| world := w; trace := t ++ evs |}))
    /\ reason r = []
    /\ diff r = config_diff (normalize_golden baseline) (normalize_live live)
                  (name device)
    /\ (drift r = false <-> normalize_golden baseline = normalize_live live).
Proof.
  intros path node Hlaw Hex Hconn Hlive Hread.
  destruct (command_text_observing node (str "show running-config") eq_refl w)
    as (r & evs & _ & Hrun).
  unfold init in Hlive. rewrite (Hrun []) in Hlive. simpl in Hlive. subst r.
  eexists _, (EvConnect device :: evs). split; [|split; [|split]].
  - intros t. unfold detect_device, fetch_diff, node_for_device,
      running_config, load_golden_config. fold path. fold node.
    unfold bind, try_except, log, reading, ret, emit. cbn [world trace].
    rewrite Hex. cbn [negb]. cbv beta. cbn [world trace]. rewrite Hconn.
    rewrite Hrun. cbn [world].
    rewrite Hread. rewrite <- app_assoc. reflexivity.
  - reflexivity.
  - reflexivity.
  - cbn [drift]. unfold config_diff.
    rewrite <- same_lines_same_text.
    match goal with
    | |- context [unified_diff ?a ?b ?f ?t] => pose proof (Hlaw a b f t) as Hl
    end.
    destruct (unified_diff _ _ _ _); simpl; split; intros H.
    + now apply Hl.
    + reflexivity.
    + discriminate.
    + apply Hl in H. discriminate.
Qed.

End Compare.

Lemma lab_diff_law : diff_law Lab.env.
Proof.
  intros a b fromfile tofile. simpl. unfold Lab.whole_file_diff.
  destruct (decide (a = b)); split; try easy; discriminate.
Qed.

(** C1 (defect found).  The claim: texts that agree after the normalization
    of the specification never register as drift.  The code normalizes
    the two sides differently: [running_config] strips trailing whitespace
    from every line, [load_golden_config] does not.  With a baseline whose
    first line ends in a space and a device that runs the same
    configuration without that space, the two texts agree under
    [normalize_spec], and yet, whatever the environment (as long as the
    diff library reports no line exactly for equal inputs), the detection
    pass reports drift with a non-empty diff and no unknown reason. *)
Theorem C1_padded_baseline_reports_drift {W : Type} {E : Env W}
    (device : Device) (args : Args) (st : St W) :
  let path := golden_file_path (golden_dir args) (name device) in
  let node := {| node_device := device; node_args := args |} in
  diff_law E ->
  path_exists (world st) path = Ok true ->
  connect (world st) args device = Ok tt ->
  fst (command_text node (str "show running-config") (init (world st)))
    = Ok Lab.golden1 ->
  read_text (world st) path = Ok Lab.padded_baseline ->
  normalize_spec Lab.padded_baseline = normalize_spec Lab.golden1
  /\ exists results st' r,
       detect_drift [device] args st = (Ok results, st')
       /\ results !! name device = Some r
       /\ drift r = true /\ diff r <> [] /\ reason r = [].
Proof.
  intros path node Hlaw Hex Hconn Hlive Hread. split; [reflexivity|].
  destruct (detect_device_compares device args (world st) _ _
              Hlaw Hex Hconn Hlive Hread) as (r & evs & Hrun & Hreason & _ & Hdrift).
  pose proof (detect_device_well_formed device args _ _ _ (Hrun [])) as Hwf.
  destruct st as [w t]. cbn [world] in *.
  exists {[ name device := r ]}, {| world := w; trace := t ++ evs |}, r.
  split; [|split; [apply lookup_singleton_eq|]].
  - unfold detect_drift. cbn [for_each]. unfold bind, ret. now rewrite Hrun.
  - assert (Hd : drift r = true).
    { destruct (drift r); [reflexivity|]. exfalso.
      assert (Hne : normalize_golden Lab.padded_baseline
                    <> normalize_live Lab.golden1) by (vm_compute; discriminate).
      apply Hne, Hdrift. reflexivity. }
    split; [exact Hd|]. split; [|exact Hreason].
    now apply Hwf.
Qed.

Lemma C1_witness :
  exists results r,
    fst (detect_drift (E:=Lab.env) [Lab.leaf1] Lab.args (init Lab.padded_world))
      = Ok results
    /\ results !! name Lab.leaf1 = Some r
    /\ drift r = true.
Proof.
  destruct (C1_padded_baseline_reports_drift (E:=Lab.env) Lab.leaf1 Lab.args
              (init Lab.padded_world))
    as (_ & results & st' & r & Hrun & Hr & Hd & _).
  - apply lab_diff_law.
  - reflexivity.
  - reflexivity.
  - reflexivity.
  - reflexivity.
  - exists results, r. rewrite Hrun. auto.
Defined.

Section Running.
Context {W : Type} {E : Env W}.

Lemma bind_run_ok {A B} (m : M W A) (k : A -> M W B) st a st' :
  m st = (Ok a, st') -> bind m k st = k a st'.
Proof. intros H. unfold bind. now rewrite H. Qed.

Lemma bind_run_raise {A B} (m : M W A) (k : A -> M W B) st exc st' :
  m st = (Raise exc, st') -> bind m k st = (Raise exc, st').
Proof. intros H. unfold bind. now rewrite H. Qed.

Lemma unfailing_ret {A} (a : A) : unfailing (W:=W) (ret a).
Proof. intros st. now exists a, st. Qed.

Lemma unfailing_bind {A B} (m : M W A) (k : A -> M W B) :
  unfailing m -> (forall a, unfailing (k a)) -> unfailing (bind m k).
Proof.
  intros Hm Hk st. destruct (Hm st) as (a & st1 & H1).
  destruct (Hk a st1) as (b & st2 & H2). exists b, st2.
  now rewrite (bind_run_ok _ _ _ _ _ H1).
Qed.

Lemma unfailing_try {A} (body : M W A) handler :
  (forall exc, unfailing (handler exc)) -> unfailing (try_except body handler).
Proof.
  intros Hh st. unfold try_except.
  destruct (body st) as [[a|exc] st1]; [now exists a, st1 | apply Hh].
Qed.

Lemma unfailing_map_m {A B} (f : A -> M W B) xs :
  (forall x, unfailing (f x)) -> unfailing (map_m f xs).
Proof.
  intros Hf. induction xs as [|x xs IH]; simpl; [apply unfailing_ret|].
  apply unfailing_bind; [apply Hf | intros y].
  apply unfailing_bind; [exact IH | intros ys; apply unfailing_ret].
Qed.

Lemma unfailing_repeat_m {A} n (m : M W A) :
  unfailing m -> unfailing (repeat_m n m).
Proof.
  intros Hm. induction n as [|n IH]; simpl; [apply unfailing_ret|].
  apply unfailing_bind; [exact Hm | intros _; exact IH].
Qed.

Lemma collect_snapshot_unfailing d args : unfailing (collect_snapshot d args).
Proof.
  unfold collect_snapshot. apply unfailing_try. intros exc. apply unfailing_ret.
Qed.

Lemma collect_snapshots_unfailing devices args :
  unfailing (collect_snapshots devices args).
Proof.
  unfold collect_snapshots. apply unfailing_map_m.
  intros d. apply collect_snapshot_unfailing.
Qed.

Lemma unfailing_interrupted {A} budget (m : M W A) :
  unfailing m -> unfailing (interrupted budget m).
Proof.
  intros Hm st. unfold interrupted. destruct (Hm st) as (a & st' & ->).
  destruct (_ <=? _)%nat; eexists _, _; reflexivity.
Qed.

(** The dashboard part returns unless [time.sleep] rejects the interval
    of the watch loop. *)
Lemma dashboard_unfailing devices args :
  (watch args = true -> time_sleep (interval args) = Ok tt) ->
  unfailing (dashboard devices args).
Proof.
  intros Hsleep. unfold dashboard. destruct (watch args).
  - specialize (Hsleep eq_refl). unfold watch_loop, watch_cycle.
    rewrite Hsleep.
    apply unfailing_bind; [intros st; now eexists _, st | intros stop].
    apply unfailing_bind.
    + apply unfailing_repeat_m, unfailing_bind;
        [apply collect_snapshots_unfailing | intros _ st; now exists tt, st].
    + intros _. apply unfailing_bind.
      * apply unfailing_interrupted, collect_snapshots_unfailing.
      * intros [snaps|]; [intros st; now exists tt, st | apply unfailing_ret].
  - apply unfailing_bind; [|intros ?; apply unfailing_ret].
    apply collect_snapshots_unfailing.
Qed.

Lemma dashboard_observing devices args :
  observing (fun _ ev => mutating ev = false) (dashboard devices args).
Proof.
  assert (Hs : observing (fun (_ : W) ev => mutating ev = false)
                 (collect_snapshots devices args)).
  { unfold collect_snapshots. apply observing_map_m. intros d _.
    eapply observing_weaken; [|apply collect_snapshot_observing].
    intros w ev. apply queries_not_mutating. }
  unfold dashboard. destruct (watch args).
  - unfold watch_loop, watch_cycle.
    apply observing_bind; [apply observing_reading | intros stop].
    apply observing_bind.
    + apply observing_repeat_m.
      apply observing_bind; [exact Hs | intros ?; apply observing_lift_res].
    + intros _. apply observing_bind.
      * now apply observing_interrupted.
      * intros [snaps|]; [apply observing_lift_res | apply observing_ret].
  - apply observing_bind; [exact Hs | intros ?; apply observing_ret].
Qed.

(** The dashboard part, run from any state: it changes nothing, and
    returns unless [time.sleep] rejects the interval of the watch loop. *)
Lemma dashboard_spec devices args w :
  exists r evs,
    Forall (fun ev => mutating ev = false) evs
    /\ (forall t, dashboard devices args {| world := w; trace := t |}
                  = (r, {| world := w; trace := t ++ evs |}))
    /\ ((watch args = true -> time_sleep (interval args) = Ok tt) ->
        r = Ok tt).
Proof.
  destruct (dashboard_observing devices args w) as (r & evs & HP & Hrun).
  exists r, evs. split; [assumption|]. split; [exact Hrun|].
  intros Hsleep.
  destruct (dashboard_unfailing devices args Hsleep {| world := w; trace := [] |})
    as ([] & st' & H). rewrite Hrun in H. now injection H as -> _.
Qed.

Lemma sorted_NoDup hs : NoDup (sorted hs).
Proof. unfold sorted. rewrite merge_sort_Permutation. apply NoDup_elements. Qed.

(** Loading the inventory adds no event, leaves the world alone, and
    yields devices with pairwise different names. *)
Lemma load_inventory_devices_spec inventory_path group w :
  exists r,
    (forall t, load_inventory_devices inventory_path group {| world := w; trace := t |}
               = (r, {| world := w; trace := t |}))
    /\ forall devices, r = Ok devices -> NoDup (name <$> devices).
Proof.
  unfold load_inventory_devices, bind, reading, raise, lift_res, ret.
  cbn [world].
  destruct (ansible_inventory w inventory_path) as [proc|exc];
    [|eexists; split; [reflexivity | discriminate]].
  destruct (negb (returncode proc =? 0)%Z);
    [eexists; split; [reflexivity | discriminate]|].
  destruct (stdout_json proc) as [inv|exc];
    [|eexists; split; [reflexivity | discriminate]].
  destruct (negb (bool_decide (group ∈ dom (inv_groups inv))));
    [eexists; split; [reflexivity | discriminate]|].
  destruct (collect_hosts _ _ group ∅) as [[hs seen]|];
    [|eexists; split; [reflexivity | discriminate]].
  eexists. split; [reflexivity|].
  intros devices H. injection H as <-.
  match goal with
  | |- NoDup (name <$> List.map ?f ?l) =>
      replace (name <$> List.map f l) with l; [apply sorted_NoDup|]
  end.
  induction (sorted hs) as [|h l IH]; [reflexivity|].
  cbn [List.map fmap list_fmap name]. now rewrite <- IH at 1.
Qed.

Lemma mutating_restore d staged_name :
  mutating (EvEnable d (restore_commands staged_name) false) = true.
Proof. reflexivity. Qed.

(** One restore: what it changes is the start of the sequence staging
    directory, staged copy, replace and save; it raises exactly when
    [path.exists()] does, and then has done nothing. *)
Lemma restore_golden_spec d args w :
  let path := golden_file_path (golden_dir args) (name d) in
  exists r w' evs,
    (forall t, restore_golden d args {| world := w; trace := t |}
               = (r, {| world := w'; trace := t ++ evs |}))
    /\ List.filter mutating evs `prefix_of` remediation_of args d
    /\ match path_exists w path with
       | Ok _ => exists o, r = Ok o
       | Raise exc => r = Raise exc /\ w' = w /\ evs = []
       end.
Proof.
  cbv zeta.
  unfold restore_golden, stage_golden_to_flash, node_for_device,
    node_enable_config, remediation_of.
  unfold bind, try_except, log, reading, acting, ret, emit. cbn [world trace].
  set (path := golden_file_path (golden_dir args) (name d)).
  set (flash := path_div (path_div (flash_dir args) (name d)) (str "flash")).
  set (staged_name := str "golden-" ++ name d ++ str ".cfg").
  destruct (path_exists w path) as [[|]|exc0]; cbn [negb]; cbv beta;
    cbn [world trace].
  3:{ exists (Raise exc0), w, []. split; [intros t; now rewrite app_nil_r|].
      split; [apply prefix_nil | repeat split; reflexivity]. }
  2:{ eexists _, w, []. split; [intros t; now rewrite app_nil_r|].
      split; [apply prefix_nil | eauto]. }
  destruct (mkdir w flash) as [[[]|exc] w1]; cbn [world trace].
  2:{ eexists _, w1, [_]. split; [intros t; reflexivity|].
      split; [cbn; eexists; reflexivity | eauto]. }
  destruct (copyfile w1 path (path_div flash staged_name)) as [[[]|exc] w2];
    cbn [world trace].
  2:{ eexists _, w2, [_; _]. split; [intros t; now rewrite <- app_assoc|].
      split; [cbn; eexists; reflexivity | eauto]. }
  destruct (connect w2 args d) as [[]|exc]; cbn [world trace].
  2:{ eexists _, w2, [_; _; _]. split; [intros t; now rewrite <- !app_assoc|].
      split; [cbn; eexists; reflexivity | eauto]. }
  destruct (enable_config w2 _ _) as [[l|exc] w3]; cbn [world trace].
  - eexists _, w3, [_; _; _; _]. split; [intros t; now rewrite <- !app_assoc|].
    split; [exists []; reflexivity | eauto].
  - eexists _, w3, [_; _; _; _]. split; [intros t; now rewrite <- !app_assoc|].
    split; [exists []; reflexivity | eauto].
Qed.

Lemma no_attempts args (drifted : list Device) :
  Forall2 (fun d evs_d => evs_d `prefix_of` remediation_of args d)
    drifted (List.map (fun _ => []) drifted).
Proof.
  induction drifted as [|d drifted IH]; constructor; [apply prefix_nil | exact IH].
Qed.

Lemma concat_no_attempts (drifted : list Device) :
  List.concat (List.map (fun _ => @nil Event) drifted) = [].
Proof. induction drifted as [|d drifted IH]; [reflexivity | exact IH]. Qed.

(** The restore loop: one attempt per listed device, in order, up to the
    first [path.exists()] that raises.  When it returns, [all_ok] says
    whether every [restore_golden] has answered [True]. *)
Lemma restore_loop_spec args drifted :
  forall (all_ok : bool) w,
  exists r w' evs attempts,
    (forall t,
       for_each drifted all_ok
         (fun device all_ok =>
            r <- restore_golden device args ;;
            ret (if fst r then all_ok else false))
         {| world := w; trace := t |}
       = (r, {| world := w'; trace := t ++ evs |}))
    /\ List.filter mutating evs = List.concat attempts
    /\ Forall2 (fun d evs_d => evs_d `prefix_of` remediation_of args d)
         drifted attempts
    /\ (stat_total -> exists b, r = Ok b)
    /\ forall b, r = Ok b ->
         exists outcomes,
           b = all_ok && forallb fst outcomes
           /\ forall t, restores args drifted {| world := w; trace := t |}
                          outcomes {| world := w'; trace := t ++ evs |}.
Proof.
  induction drifted as [|d drifted IH]; intros all_ok w.
  - exists (Ok all_ok), w, [], [].
    split; [intros t; simpl; unfold ret; now rewrite app_nil_r|].
    split; [reflexivity|]. split; [constructor|]. split; [eauto|].
    intros b [= <-]. exists []. split; [now rewrite andb_true_r|].
    intros t. rewrite app_nil_r. constructor.
  - destruct (restore_golden_spec d args w) as (r & w1 & evs1 & Hrun1 & Hpre & Hcase).
    destruct r as [o|exc].
    + destruct (IH (if fst o then all_ok else false) w1)
        as (r' & w' & evs & attempts & Hrun & Hfilter & Hall & Htotal & Hok).
      exists r', w', (evs1 ++ evs), (List.filter mutating evs1 :: attempts).
      split; [|split; [|split; [|split]]].
      * intros t. cbn [for_each]. unfold bind at 1. unfold bind at 1.
        rewrite Hrun1. unfold ret at 1. rewrite Hrun. now rewrite app_assoc.
      * rewrite List.filter_app, Hfilter. reflexivity.
      * now constructor.
      * exact Htotal.
      * intros b Hb. destruct (Hok b Hb) as (outcomes & -> & Hres).
        exists (o :: outcomes). split.
        -- cbn [forallb]. now destruct (fst o), all_ok.
        -- intros t. econstructor; [apply Hrun1|].
           rewrite app_assoc. apply Hres.
    + exists (Raise exc), w1, evs1, (List.map (fun _ => []) (d :: drifted)).
      destruct (path_exists w _) as [present|exc'];
        [destruct Hcase as [? [=]]|].
      destruct Hcase as (_ & -> & ->).
      split; [|split; [|split; [|split]]].
      * intros t. cbn [for_each]. unfold bind at 1. unfold bind at 1.
        now rewrite Hrun1.
      * now rewrite concat_no_attempts.
      * apply no_attempts.
      * intros Hstat. exfalso.
        destruct (restore_golden_spec d args w) as (r2 & w2 & evs2 & Hrun2 & _ & Hcase2).
        destruct (Hstat w (golden_file_path (golden_dir args) (name d)))
          as [present Hex].
        rewrite Hex in Hcase2. destruct Hcase2 as [o ->].
        specialize (Hrun1 []). rewrite Hrun2 in Hrun1. discriminate.
      * discriminate.
Qed.

End Running.

Section Main.
Context {W : Type} {E : Env W}.

Lemma detection_event_not_mutating devices args (w : W) ev :
  detection_event devices args w ev -> mutating ev = false.
Proof. intros (d & _ & _ & Hq). now apply (queries_not_mutating d). Qed.

(** A whole detection pass, run from any state. *)
Lemma detect_drift_spec devices args w :
  exists r evs,
    (forall t, detect_drift devices args {| world := w; trace := t |}
               = (r, {| world := w; trace := t ++ evs |}))
    /\ Forall (fun ev => mutating ev = false) evs
    /\ (stat_answers args w devices -> exists results, r = Ok results)
    /\ forall results, r = Ok results ->
         dom results = list_to_set (name <$> devices)
         /\ map_Forall (fun _ r => well_formed_result r) results.
Proof.
  destruct (detect_loop_spec args devices ∅ w)
    as (r & evs & Hrun & Htotal & _ & Hok).
  exists r, evs. split; [exact Hrun|]. split; [|split; [exact Htotal|]].
  - destruct (detect_drift_observing devices args w) as (r' & evs' & HP & Hrun').
    specialize (Hrun' []). unfold detect_drift in Hrun'. rewrite Hrun in Hrun'.
    injection Hrun' as _ Heq. simpl in Heq. subst evs'.
    eapply Forall_impl; [exact HP|]. apply detection_event_not_mutating.
  - intros results Hr. destruct (Hok results Hr) as (Hdom & Hwf & _). split.
    + rewrite Hdom, dom_empty_L. set_solver.
    + apply Hwf, map_Forall_empty.
Qed.

Lemma nonempty_false {A} (l : list A) : nonempty l = false <-> l = [].
Proof. destruct l; simpl; split; congruence. Qed.

Lemma remaining_empty (post : gmap pystr DriftResult) :
  nonempty (remaining_of post) = false
  <-> map_Forall (fun _ r => drift r = false) post.
Proof.
  unfold remaining_of. rewrite nonempty_false. split.
  - intros H k r Hk. apply elem_of_map_to_list in Hk.
    apply map_eq_nil in H.
    destruct (drift r) eqn:Hd; [|reflexivity]. exfalso.
    assert (Hin : In (k, r) (List.filter (fun kv => drift kv.2) (map_to_list post))).
    { apply List.filter_In. split; [now apply list_elem_of_In | exact Hd]. }
    rewrite H in Hin. destruct Hin.
  - intros H.
    assert (Hf : List.filter (fun kv => drift kv.2) (map_to_list post) = []).
    { destruct (List.filter _ _) as [|[k r] l] eqn:Hl; [reflexivity|]. exfalso.
      assert (Hin : In (k, r) (List.filter (fun kv => drift kv.2) (map_to_list post)))
        by (rewrite Hl; now left).
      apply List.filter_In in Hin as [Hin Hd]. simpl in Hd.
      apply list_elem_of_In, elem_of_map_to_list in Hin.
      rewrite (H k r Hin) in Hd. discriminate. }
    now rewrite Hf.
Qed.

Lemma remaining_nonempty (post : gmap pystr DriftResult) :
  nonempty (remaining_of post) = true ->
  exists k r, post !! k = Some r /\ drift r = true.
Proof.
  unfold remaining_of.
  destruct (List.filter _ _) as [|[k r] l] eqn:Hl; [discriminate|].
  intros _. exists k, r.
  assert (Hin : In (k, r) (List.filter (fun kv => drift kv.2) (map_to_list post)))
    by (rewrite Hl; now left).
  apply List.filter_In in Hin as [Hin Hd].
  split; [|exact Hd]. now apply elem_of_map_to_list, list_elem_of_In.
Qed.

Lemma stat_total_answers args (w : W) devices :
  stat_total -> stat_answers args w devices.
Proof. intros H d _. apply H. Qed.

(** The Fix and Verify part, run from any state. *)
Lemma fix_verify_spec drifted args w :
  exists r w1 evs1 attempts evs2,
    (forall t, fix_verify drifted args {| world := w; trace := t |}
               = (r, {| world := w1; trace := t ++ evs1 ++ evs2 |}))
    /\ List.filter mutating evs1 = List.concat attempts
    /\ Forall2 (fun d evs_d => evs_d `prefix_of` remediation_of args d)
         drifted attempts
    /\ Forall (fun ev => mutating ev = false) evs2
    /\ (stat_total -> exists code, r = Ok code)
    /\ forall code, r = Ok code ->
         exists outcomes post,
           (forall t, restores args drifted {| world := w; trace := t |}
                        outcomes {| world := w1; trace := t ++ evs1 |})
           /\ (forall t, restore_all drifted args {| world := w; trace := t |}
                         = (Ok (forallb fst outcomes),
                            {| world := w1; trace := t ++ evs1 |}))
           /\ (forall t, detect_drift drifted args {| world := w1; trace := t |}
                         = (Ok post, {| world := w1; trace := t ++ evs2 |}))
           /\ dom post = list_to_set (name <$> drifted)
           /\ code = verdict (forallb fst outcomes) post.
Proof.
  destruct (restore_loop_spec args drifted true w)
    as (r1 & w1 & evs1 & attempts & Hrun1 & Hfilter & Hall & Htotal1 & Hok1).
  destruct r1 as [b|exc].
  - destruct (Hok1 b eq_refl) as (outcomes & Hb & Hres). cbn [andb] in Hb.
    subst b.
    destruct (detect_drift_spec drifted args w1)
      as (r2 & evs2 & Hrun2 & Hquiet2 & Htotal2 & Hok2).
    destruct r2 as [post|exc].
    + exists (Ok (verdict (forallb fst outcomes) post)), w1, evs1, attempts, evs2.
      split; [|split; [exact Hfilter|split; [exact Hall|split; [exact Hquiet2|]]]].
      * intros t. unfold fix_verify.
        rewrite (bind_run_ok _ _ _ _ _ (Hrun1 t)).
        rewrite (bind_run_ok _ _ _ _ _ (Hrun2 _)).
        unfold ret, verdict. now rewrite app_assoc.
      * split; [eauto|]. intros code [= <-]. exists outcomes, post.
        destruct (Hok2 post eq_refl) as [Hdom _].
        split; [exact Hres|]. split; [exact Hrun1|]. split; [exact Hrun2|].
        split; [exact Hdom | reflexivity].
    + exists (Raise exc), w1, evs1, attempts, evs2.
      split; [|split; [exact Hfilter|split; [exact Hall|split; [exact Hquiet2|]]]].
      * intros t. unfold fix_verify.
        rewrite (bind_run_ok _ _ _ _ _ (Hrun1 t)).
        rewrite (bind_run_raise _ _ _ _ _ (Hrun2 _)).
        now rewrite app_assoc.
      * split; [|discriminate]. intros Hstat.
        destruct (Htotal2 (stat_total_answers _ _ _ Hstat)) as [? [=]].
  - exists (Raise exc), w1, evs1, attempts, [].
    split; [|split; [exact Hfilter|split; [exact Hall|split; [constructor|]]]].
    + intros t. unfold fix_verify.
      rewrite (bind_run_raise _ _ _ _ _ (Hrun1 t)). now rewrite app_nil_r.
    + split; [|discriminate]. intros Hstat.
      destruct (Htotal1 Hstat) as [? [=]].
Qed.

Lemma filter_quiet evs :
  Forall (fun ev => mutating ev = false) evs -> List.filter mutating evs = [].
Proof.
  induction 1 as [|ev evs Hev _ IH]; simpl; [reflexivity|]. now rewrite Hev.
Qed.

Lemma NoDup_names_filter (f : Device -> bool) devices :
  NoDup (name <$> devices) -> NoDup (name <$> List.filter f devices).
Proof.
  induction devices as [|d devices IH]; simpl; [easy|].
  intros H. apply NoDup_cons in H as [Hd Hnd]. specialize (IH Hnd).
  destruct (f d); [|assumption]. simpl. apply NoDup_cons. split; [|assumption].
  intros Hin. apply Hd. apply list_elem_of_fmap in Hin as (d' & -> & Hd').
  apply list_elem_of_fmap. exists d'. split; [reflexivity|].
  apply list_elem_of_In. apply list_elem_of_In in Hd'.
  now apply List.filter_In in Hd'.
Qed.

(** How [main] runs: either it ends without changing anything,
    returning a status or raising, or it goes on to the Fix and Verify
    part with the non-empty list of the devices the detection pass
    classified as drifted. *)
Lemma main_cases args (w : W) :
  (exists r evs,
     Forall (fun ev => mutating ev = false) evs
     /\ match r with
        | Ok code => (code = 0 \/ code = 1 \/ code = 2)%Z
        | Raise _ => True
        end
     /\ forall t, main args {| world := w; trace := t |}
                  = (r, {| world := w; trace := t ++ evs |}))
  \/ (exists drifted evs,
        drifted <> []
        /\ no_restore args = false
        /\ confirm_ask w = true
        /\ NoDup (name <$> drifted)
        /\ Forall (detected_drift args w) drifted
        /\ Forall (fun ev => mutating ev = false) evs
        /\ forall t, main args {| world := w; trace := t |}
                     = fix_verify drifted args
                         {| world := w; trace := t ++ evs |}).
Proof.
  destruct (load_inventory_devices_spec (inventory args) (group args) w)
    as (r & Hload & Hnd).
  assert (Hloaded :
    forall t,
      try_except
        (devices <- load_inventory_devices (inventory args) (group args) ;;
         ret (Some devices))
        (fun _ => ret None) {| world := w; trace := t |}
      = (Ok match r with Ok devices => Some devices | Raise _ => None end,
         {| world := w; trace := t |})).
  { intros t. unfold try_except, bind, ret. rewrite Hload. now destruct r. }
  destruct r as [devices|exc].
  2:{ left. exists (Ok 2%Z), []. split; [constructor|]. split; [auto|].
      intros t. unfold main. rewrite (bind_run_ok _ _ _ _ _ (Hloaded t)).
      unfold ret. now rewrite app_nil_r. }
  specialize (Hnd devices eq_refl).
  destruct (nonempty devices) eqn:Hne.
  2:{ left. exists (Ok 2%Z), []. split; [constructor|]. split; [auto|].
      intros t. unfold main. rewrite (bind_run_ok _ _ _ _ _ (Hloaded t)).
      rewrite Hne. unfold ret. now rewrite app_nil_r. }
  destruct (dashboard_spec devices args w) as (rD & evsD & HquietD & HrunD & _).
  destruct rD as [[]|exc].
  2:{ left. exists (Raise exc), evsD. split; [assumption|]. split; [exact I|].
      intros t. unfold main. rewrite (bind_run_ok _ _ _ _ _ (Hloaded t)).
      rewrite Hne. cbn [negb].
      now rewrite (bind_run_raise _ _ _ _ _ (HrunD t)). }
  destruct (detect_drift_spec devices args w)
    as (rd & evs & Hrun & Hquiet & _ & Hok).
  assert (HquietAll : Forall (fun ev => mutating ev = false) (evsD ++ evs))
    by now apply Forall_app.
  destruct rd as [drift_data|exc].
  2:{ left. exists (Raise exc), (evsD ++ evs). split; [assumption|].
      split; [exact I|].
      intros t. unfold main. rewrite (bind_run_ok _ _ _ _ _ (Hloaded t)).
      rewrite Hne. cbn [negb].
      rewrite (bind_run_ok _ _ _ _ _ (HrunD t)).
      rewrite (bind_run_raise _ _ _ _ _ (Hrun _)). now rewrite app_assoc. }
  destruct (Hok drift_data eq_refl) as [Hdom Hwf].
  assert (Hkeys : Forall (fun d => is_Some (drift_data !! name d)) devices).
  { apply Forall_forall. intros d Hd. apply elem_of_dom. rewrite Hdom.
    apply elem_of_list_to_set, list_elem_of_fmap. now exists d. }
  set (has_drift := fun d : Device =>
         match drift_data !! name d with
         | Some info => drift info
         | None => false
         end).
  set (drifted := List.filter has_drift devices).
  assert (Hmain :
    forall t, main args {| world := w; trace := t |}
    = (if no_restore args || negb (nonempty drifted) then
         if nonempty drifted then ret 1%Z else ret 0%Z
       else
         confirmed <- reading (fun w => Ok (confirm_ask w)) ;;
         if negb confirmed then ret 1%Z else fix_verify drifted args)
        {| world := w; trace := t ++ evsD ++ evs |}).
  { intros t. unfold main. rewrite (bind_run_ok _ _ _ _ _ (Hloaded t)).
    rewrite Hne. cbn [negb].
    rewrite (bind_run_ok _ _ _ _ _ (HrunD t)).
    rewrite (bind_run_ok _ _ _ _ _ (Hrun _)).
    destruct (drifted_devices_total devices drift_data Hkeys
                {| world := w; trace := (t ++ evsD) ++ evs |})
      as (ds & Hds & ->).
    rewrite (bind_run_ok _ _ _ _ _ Hds). now rewrite app_assoc. }
  destruct (nonempty drifted) eqn:Hdr.
  2:{ left. exists (Ok 0%Z), (evsD ++ evs). split; [assumption|]. split; [auto|].
      intros t. rewrite Hmain. rewrite orb_true_r. reflexivity. }
  destruct (no_restore args) eqn:Hnr.
  { left. exists (Ok 1%Z), (evsD ++ evs). split; [assumption|]. split; [auto|].
    intros t. rewrite Hmain. reflexivity. }
  destruct (confirm_ask w) eqn:Hc.
  2:{ left. exists (Ok 1%Z), (evsD ++ evs). split; [assumption|]. split; [auto|].
      intros t. rewrite Hmain. cbn [orb negb].
      unfold bind, reading, ret. cbn [world]. now rewrite Hc. }
  right. exists drifted, (evsD ++ evs).
  split; [intros H; rewrite H in Hdr; discriminate|].
  split; [reflexivity|]. split; [reflexivity|].
  split; [now apply NoDup_names_filter|].
  split; [|split; [assumption|]].
  - apply Forall_forall. intros d Hd.
    apply list_elem_of_In, List.filter_In in Hd as [Hd Hhas].
    unfold has_drift in Hhas.
    destruct (drift_data !! name d) as [info|] eqn:Hinfo; [|discriminate].
    exists devices, drift_data, info.
    split; [unfold init; now rewrite Hload|].
    split; [now apply list_elem_of_In|].
    split; [unfold init; now rewrite Hrun|].
    split; [exact Hinfo|]. split; [exact Hhas|].
    destruct (Hwf _ _ Hinfo) as (Hex & _).
    destruct (reason info) eqn:Hr; [reflexivity|]. exfalso. apply Hex.
    split; [assumption | discriminate].
  - intros t. rewrite Hmain. cbn [orb negb].
    unfold bind at 1. unfold reading. cbn [world]. now rewrite Hc.
Qed.

End Main.

(** C6.  Everything [main] changes is remediation of drifted devices.
    In every run, whether it returns a status or is ended by an
    exception, the state-changing events are, in order, the attempts of
    [restore_golden] for the devices of a list [remediated]; each attempt
    is a prefix of stage, copy, replace and save for its device; the
    names in [remediated] are pairwise different (no device is remediated
    twice); and every device in it was classified by the detection pass
    with [drift = true] and an empty unknown reason. *)
Theorem C6_remediation_only_for_drifted {W : Type} {E : Env W}
    (args : Args) (st : St W) :
  exists r st' evs remediated attempts,
    main args st = (r, st')
    /\ trace st' = trace st ++ evs
    /\ List.filter mutating evs = List.concat attempts
    /\ Forall2 (fun d evs_d => evs_d `prefix_of` remediation_of args d)
         remediated attempts
    /\ NoDup (name <$> remediated)
    /\ Forall (detected_drift args (world st)) remediated.
Proof.
  destruct st as [w t]. cbn [world trace].
  destruct (main_cases args w)
    as [(r & evs & Hquiet & _ & Hrun)
       |(drifted & evs & _ & _ & _ & Hnd & Hdet & Hquiet & Hrun)].
  - exists r, {| world := w; trace := t ++ evs |}, evs, [], [].
    split; [apply Hrun|]. split; [reflexivity|].
    split; [now rewrite (filter_quiet _ Hquiet)|].
    split; [constructor|]. split; constructor.
  - destruct (fix_verify_spec drifted args w)
      as (r & w1 & evs1 & attempts & evs2 & Hfix & Hfilter & Hall & Hquiet2 & _).
    exists r, {| world := w1; trace := (t ++ evs) ++ evs1 ++ evs2 |},
      (evs ++ evs1 ++ evs2), drifted, attempts.
    split; [rewrite Hrun; apply Hfix|].
    split; [cbn [trace]; now rewrite <- app_assoc|].
    split; [|auto].
    rewrite !List.filter_app, Hfilter.
    rewrite (filter_quiet _ Hquiet), (filter_quiet _ Hquiet2).
    now rewrite app_nil_r.
Qed.

(** C2 (as amended).  After remediation the exit status depends on the
    restore steps and on re-detected drift only.  First part: the Fix and
    Verify part of [main] returns a status whenever [path.exists()]
    answers, and every status it returns is determined by what the
    restore loop and the second detection pass gave: with [outcomes] the
    answers of [restore_golden] for the drifted devices, in order, it
    returns 0 exactly when every restore answered [True] and no
    remediated device is re-detected as drifted, and 1 exactly when some
    restore answered [False] or some remediated device is re-detected as
    drifted; a device re-detected as unknown is not counted as failed.
    Second part: [main] either ends without touching the world, with
    status 0, 1 or 2 or with an exception, or does what the Fix and
    Verify part does for the non-empty list of devices the detection pass
    classified as drifted. *)
Theorem C2_exit_status_after_remediation {W : Type} {E : Env W} :
  (forall (drifted : list Device) (args : Args) (st : St W),
     exists r st2,
       fix_verify drifted args st = (r, st2)
       /\ (stat_total -> exists code, r = Ok code)
       /\ forall code, r = Ok code ->
            exists outcomes st1 post,
              restores args drifted st outcomes st1
              /\ restore_all drifted args st
                 = (Ok (forallb fst outcomes), st1)
              /\ detect_drift drifted args st1 = (Ok post, st2)
              /\ (code = 0%Z <->
                  Forall (fun o => fst o = true) outcomes
                  /\ Forall (fun d => exists result,
                                post !! name d = Some result
                                /\ drift result = false) drifted)
              /\ (code = 1%Z <->
                  Exists (fun o => fst o = false) outcomes
                  \/ Exists (fun d => exists result,
                                post !! name d = Some result
                                /\ drift result = true) drifted))
  /\ (forall (args : Args) (st : St W),
        (exists r st',
           main args st = (r, st')
           /\ world st' = world st
           /\ match r with
              | Ok code => (code = 0 \/ code = 1 \/ code = 2)%Z
              | Raise _ => True
              end)
        \/ (exists drifted st1,
              drifted <> []
              /\ world st1 = world st
              /\ Forall (detected_drift args (world st)) drifted
              /\ main args st = fix_verify drifted args st1)).
Proof.
  split.
  - intros drifted args [w t].
    destruct (fix_verify_spec drifted args w)
      as (r & w1 & evs1 & attempts & evs2 & Hfix & _ & _ & _ & Htotal & Hok).
    exists r, {| world := w1; trace := t ++ evs1 ++ evs2 |}.
    split; [apply Hfix|]. split; [exact Htotal|].
    intros code Hcode.
    destruct (Hok code Hcode) as (outcomes & post & Hres & Hrun1 & Hrun2 & Hdom & ->).
    exists outcomes, {| world := w1; trace := t ++ evs1 |}, post.
    split; [apply Hres|]. split; [apply Hrun1|].
    split; [rewrite Hrun2; now rewrite app_assoc|].
    assert (Hsteps : forallb fst outcomes = true
                     <-> Forall (fun o => fst o = true) outcomes).
    { rewrite List.forallb_forall, Forall_forall. split; intros H o Ho.
      - apply H. now apply list_elem_of_In.
      - apply H. now apply list_elem_of_In. }
    assert (Hfailed : forallb fst outcomes = false
                      <-> Exists (fun o => fst o = false) outcomes).
    { clear. induction outcomes as [|o os IH]; cbn [forallb].
      - split; [discriminate | intros H; inversion H].
      - destruct (fst o) eqn:Ho; cbn [andb].
        + rewrite IH. split; [now right|].
          intros H. inversion H; subst; [congruence | assumption].
        + split; [now left | reflexivity]. }
    assert (Hclean :
      nonempty (remaining_of post) = false
      <-> Forall (fun d => exists r, post !! name d = Some r /\ drift r = false)
            drifted).
    { rewrite remaining_empty. split.
      - intros H. apply Forall_forall. intros d Hd.
        assert (Hin : name d ∈ dom post).
        { rewrite Hdom. apply elem_of_list_to_set, list_elem_of_fmap. now exists d. }
        apply elem_of_dom in Hin as [r0 Hr]. exists r0. split; [exact Hr|].
        exact (H _ _ Hr).
      - intros H k r0 Hk.
        assert (Hin : k ∈ dom post) by (apply elem_of_dom; now exists r0).
        rewrite Hdom in Hin.
        apply elem_of_list_to_set, list_elem_of_fmap in Hin as (d & -> & Hd).
        rewrite Forall_forall in H. destruct (H d Hd) as (r' & Hr' & Hd').
        congruence. }
    assert (Hdirty :
      nonempty (remaining_of post) = true
      -> Exists (fun d => exists r, post !! name d = Some r /\ drift r = true)
           drifted).
    { intros Hrem. apply remaining_nonempty in Hrem as (k & r0 & Hk & Hd).
      assert (Hin : k ∈ dom post) by (apply elem_of_dom; now exists r0).
      rewrite Hdom in Hin.
      apply elem_of_list_to_set, list_elem_of_fmap in Hin as (d & -> & Hin).
      apply Exists_exists. exists d. split; [assumption|]. now exists r0. }
    assert (Hnone :
      nonempty (remaining_of post) = false
      -> ~ Exists (fun d => exists r, post !! name d = Some r /\ drift r = true)
             drifted).
    { intros Hrem H. apply Hclean in Hrem. rewrite Forall_forall in Hrem.
      apply Exists_exists in H as (d & Hd & r0 & Hr & Hdr).
      destruct (Hrem d Hd) as (r' & Hr' & Hd'). congruence. }
    unfold verdict.
    destruct (nonempty (remaining_of post)) eqn:Hrem.
    + split; split.
      * discriminate.
      * intros [_ H]. apply Hclean in H. discriminate.
      * intros _. right. now apply Hdirty.
      * reflexivity.
    + destruct (forallb fst outcomes) eqn:Hall; split; split.
      * intros _. split; [now apply Hsteps | now apply Hclean].
      * reflexivity.
      * discriminate.
      * intros [H|H]; [apply Hfailed in H; discriminate | now apply Hnone in H].
      * discriminate.
      * intros [H _]. apply Hsteps in H. discriminate.
      * intros _. left. now apply Hfailed.
      * reflexivity.
  - intros args [w t]. cbn [world].
    destruct (main_cases args w)
      as [(r & evs & _ & Hcode & Hrun)
         |(drifted & evs & Hne & _ & _ & _ & Hdet & _ & Hrun)].
    + left. exists r, {| world := w; trace := t ++ evs |}.
      split; [apply Hrun|]. split; [reflexivity | assumption].
    + right. exists drifted, {| world := w; trace := t ++ evs |}.
      split; [assumption|]. split; [reflexivity|]. split; [assumption|].
      apply Hrun.
Qed.


Lemma C7_witness :
  exists results,
    fst (detect_drift (E:=Lab.env) [Lab.leaf1; Lab.leaf2] Lab.args
           (init Lab.missing_world)) = Ok results
    /\ reason <$> results !! name Lab.leaf2 = Some (str "Golden config missing").
Proof.
  destruct (C7_missing_baseline (E:=Lab.env) [Lab.leaf1; Lab.leaf2] Lab.args
              (init Lab.missing_world) Lab.leaf2)
    as (_ & r & evs & Hrun & Htotal & Hr & _).
  - right. left.
  - reflexivity.
  - destruct Htotal as [results ->].
    + intros d _. eexists. reflexivity.
    + exists results. rewrite Hrun, (Hr results eq_refl). split; reflexivity.
Defined.

Lemma C4_witness :
  exists results,
    fst (detect_drift (E:=Lab.env) [Lab.leaf1; Lab.leaf2] Lab.args
           (init (Lab.drifted_world ∅))) = Ok results
    /\ map_Forall (fun _ result => well_formed_result result) results.
Proof.
  destruct (C4_drift_result_invariant (E:=Lab.env) [Lab.leaf1; Lab.leaf2]
              Lab.args (init (Lab.drifted_world ∅)))
    as (r & st' & Hrun & Htotal & Hwf).
  destruct Htotal as [results ->].
  - intros d _. eexists. reflexivity.
  - exists results. rewrite Hrun. split; [reflexivity|].
    apply Hwf. reflexivity.
Defined.

Lemma C10_witness :
  exists results,
    fst (detect_drift (E:=Lab.env) [Lab.leaf1; Lab.leaf2] Lab.args
           (init Lab.missing_world)) = Ok results
    /\ dom results = list_to_set (name <$> [Lab.leaf1; Lab.leaf2]).
Proof.
  destruct (C10_detect_drift_keys (E:=Lab.env) [Lab.leaf1; Lab.leaf2]
              Lab.args (init Lab.missing_world))
    as (r & st' & Hrun & Htotal & _ & Hkeys).
  destruct Htotal as [results ->].
  - intros d _. eexists. reflexivity.
  - exists results. rewrite Hrun. split; [reflexivity|].
    apply (Hkeys results eq_refl).
Defined.

Lemma C2_witness :
  exists code outcomes st1,
    fst (fix_verify (E:=Lab.env) [Lab.leaf1] Lab.args
           (init (Lab.drifted_world ∅))) = Ok code
    /\ restores (E:=Lab.env) Lab.args [Lab.leaf1]
         (init (Lab.drifted_world ∅)) outcomes st1.
Proof.
  destruct (proj1 (C2_exit_status_after_remediation (E:=Lab.env))
              [Lab.leaf1] Lab.args (init (Lab.drifted_world ∅)))
    as (r & st2 & Hrun & Htotal & Hcode).
  destruct Htotal as [code ->].
  - intros w path. eexists. reflexivity.
  - destruct (Hcode code eq_refl) as (outcomes & st1 & post & Hres & _).
    exists code, outcomes, st1. rewrite Hrun. split; [reflexivity | exact Hres].
Defined.

(** A restore step that fails gives the status 1, also when no remediated
    device is re-detected as drifted: the baseline of leaf2 is not there,
    [restore_golden] answers [False] and the second pass finds the device
    unknown. *)
Example failed_restore_exit_1 :
  fst (restore_golden (E:=Lab.env) Lab.leaf2 Lab.args (init Lab.missing_world))
  = Ok (false, str "Golden config not found: build/configs/leaf2.cfg")
  /\ fst (fix_verify (E:=Lab.env) [Lab.leaf2] Lab.args (init Lab.missing_world))
     = Ok 1%Z.
Proof. split; vm_compute; reflexivity. Qed.

(** Where [path.exists()] raises for the baseline path of a device, the
    detection pass, the restore step and [main] are ended by that
    exception. *)
Example stat_error_ends_the_pass :
  let locked := {[ str "build/configs/leaf2.cfg" ]} in
  let exc := str "[Errno 13] Permission denied: 'build/configs/leaf2.cfg'" in
  fst (detect_drift (E:=Lab.env_locked locked) [Lab.leaf1; Lab.leaf2] Lab.args
         (init (Lab.drifted_world ∅))) = Raise exc
  /\ fst (restore_golden (E:=Lab.env_locked locked) Lab.leaf2 Lab.args
            (init (Lab.drifted_world ∅))) = Raise exc
  /\ fst (main (E:=Lab.env_locked locked) Lab.args
            (init (Lab.drifted_world ∅))) = Raise exc.
Proof. repeat split; vm_compute; reflexivity. Qed.

Lemma C2_counterexample :
  let w := Lab.drifted_world {[ str "10.0.0.1" ]} in
  fst (main (E:=Lab.env) Lab.args (init w)) = Ok 0%Z
  /\ ~ (forall (drifted : list Device) (args : Args) (st st1 st2 : St Lab.World)
               (all_ok : bool) (post : gmap pystr DriftResult) (code : Z),
          restore_all (E:=Lab.env) drifted args st = (Ok all_ok, st1) ->
          detect_drift (E:=Lab.env) drifted args st1 = (Ok post, st2) ->
          fix_verify (E:=Lab.env) drifted args st = (Ok code, st2) ->
          (exists d r, d ∈ drifted /\ post !! name d = Some r
                       /\ drift_state r <> Clean) ->
          code = 1%Z).
Proof.
  intros w. split; [vm_compute; reflexivity|].
  intros H.
  set (run1 := restore_all (E:=Lab.env) [Lab.leaf1] Lab.args (init w)).
  set (run2 := detect_drift (E:=Lab.env) [Lab.leaf1] Lab.args (snd run1)).
  assert (H0 : 0%Z = 1%Z).
  { apply (H [Lab.leaf1] Lab.args (init w) (snd run1) (snd run2) true
             (match fst run2 with Ok post => post | Raise _ => ∅ end) 0%Z).
    - vm_compute. reflexivity.
    - vm_compute. reflexivity.
    - vm_compute. reflexivity.
    - exists Lab.leaf1,
        {| drift := false;
           reason := str "Error reading running-config: unable to connect to eAPI";
           diff := [];
           golden_path := str "build/configs/leaf1.cfg" |}.
      split; [left|]. split; [vm_compute; reflexivity|].
      vm_compute. discriminate. }
  discriminate.
Qed.

(* ===================================================================== *)
(** * Further properties of the code                                      *)
(* ===================================================================== *)

(** X1.  [format_uptime] splits a whole number of seconds into days,
    hours below 24 and minutes below 60, dropping fewer than 60 seconds;
    a boolean counts as the integer it is and gives "0d 0h 0m"; any other
    value gives "n/a". *)
Theorem X1_format_uptime_parts (seconds : json) :
  match seconds with
  | JInt s =>
      exists days hours minutes rest : Z,
        format_uptime seconds
          = decimal days ++ str "d " ++ decimal hours ++ str "h "
              ++ decimal minutes ++ str "m"
        /\ (s = days * 86400 + hours * 3600 + minutes * 60 + rest)%Z
        /\ (0 <= hours < 24)%Z /\ (0 <= minutes < 60)%Z /\ (0 <= rest < 60)%Z
  | JBool _ => format_uptime seconds = str "0d 0h 0m"
  | _ => format_uptime seconds = str "n/a"
  end.
Proof.
  destruct seconds as [|b|s| | | |]; try reflexivity.
  - now destruct b.
  - exists (s / 86400)%Z, (s mod 86400 / 3600)%Z,
      (s mod 86400 mod 3600 / 60)%Z, (s mod 86400 mod 3600 mod 60)%Z.
    split; [reflexivity|].
    pose proof (Z.div_mod s 86400 ltac:(lia)).
    pose proof (Z.mod_pos_bound s 86400 ltac:(lia)).
    pose proof (Z.div_mod (s mod 86400) 3600 ltac:(lia)).
    pose proof (Z.mod_pos_bound (s mod 86400) 3600 ltac:(lia)).
    pose proof (Z.div_mod (s mod 86400 mod 3600) 60 ltac:(lia)).
    pose proof (Z.mod_pos_bound (s mod 86400 mod 3600) 60 ltac:(lia)).
    assert (0 <= s mod 86400 / 3600 < 24)%Z.
    { split; [apply Z.div_pos; lia | apply Z.div_lt_upper_bound; lia]. }
    assert (0 <= s mod 86400 mod 3600 / 60 < 60)%Z.
    { split; [apply Z.div_pos; lia | apply Z.div_lt_upper_bound; lia]. }
    lia.
Qed.

Section Commands.
Context {W : Type} {E : Env W}.

Lemma command_json_run node command w t :
  command_json node command {| world := w; trace := t |}
  = (unwrap_json (enable_show w node command false),
     {| world := w;
        trace := t ++ [EvEnable (node_device node) [command] false] |}).
Proof.
  unfold command_json, node_enable, first_item, bind, log, reading, ret, raise,
    emit, unwrap_json. cbn [world trace].
  destruct (enable_show w node command false) as [[|r l]|exc]; try reflexivity.
  now destruct r.
Qed.

(** A field reader: one show command, then work on the answer alone,
    everything under [try ... except Exception: return "n/a"]. *)
Lemma reader_run node command (k : list (pystr * json) -> M W pystr) w :
  (forall output, observing (fun _ _ => False) (k output)) ->
  exists text,
    (forall t,
       try_except (output <- command_json node command ;; k output)
         (fun _ => ret (str "n/a")) {| world := w; trace := t |}
       = (Ok text,
          {| world := w;
             trace := t ++ [EvEnable (node_device node) [command] false] |}))
    /\ (forall output,
          unwrap_json (enable_show w node command false) = Ok output ->
          text = match fst (k output (init w)) with
                 | Ok s => s
                 | Raise _ => str "n/a"
                 end)
    /\ (forall exc,
          unwrap_json (enable_show w node command false) = Raise exc ->
          text = str "n/a").
Proof.
  intros Hk.
  destruct (unwrap_json (enable_show w node command false)) as [output|exc] eqn:Hu.
  - destruct (Hk output w) as (r & evs & HP & Hrun).
    assert (evs = []) as -> by (destruct evs; [reflexivity | now inversion HP]).
    exists (match r with Ok s => s | Raise _ => str "n/a" end).
    split; [|split].
    + intros t. unfold try_except, bind. rewrite command_json_run, Hu, Hrun.
      rewrite app_nil_r. now destruct r.
    + intros output' H. injection H as <-. unfold init. now rewrite Hrun.
    + discriminate.
  - exists (str "n/a"). split; [|split].
    + intros t. unfold try_except, bind. now rewrite command_json_run, Hu.
    + discriminate.
    + reflexivity.
Qed.

Lemma read_cpu_pure output :
  observing (W:=W) (fun _ _ => False)
    (match List.find is_number
             (omap (dict_get output)
                [str "cpu"; str "cpuUtilization"; str "cpuTotal"]) with
     | Some value => s <- lift_res (format_1f value) ;; ret (s ++ str "%")
     | None => ret (str "n/a")
     end).
Proof. observe. Qed.

End Commands.

Section Readers2.
Context {W : Type} {E : Env W}.

Lemma for_each_keeps {A B} (Inv : B -> Prop) (body : A -> B -> M W B) xs :
  (forall x acc st r st',
     Inv acc -> body x acc st = (Ok r, st') -> Inv r) ->
  forall acc st r st',
    Inv acc -> for_each xs acc body st = (Ok r, st') -> Inv r.
Proof.
  intros Hbody. induction xs as [|x xs IH]; intros acc st r st' Hacc; simpl.
  - unfold ret. intros H. now injection H as <- _.
  - unfold bind. destruct (body x acc st) as [[acc'|exc] st1] eqn:Hb; [|discriminate].
    apply IH. now apply (Hbody x acc st acc' st1).
Qed.

(** A loop that adds at most one to the first counter per element. *)
Lemma for_each_counts {A} (body : A -> Z * Z -> M W (Z * Z)) xs :
  (forall x acc st r st',
     body x acc st = (Ok r, st') ->
     snd r = snd acc /\ (fst acc <= fst r <= fst acc + 1)%Z) ->
  forall acc st r st',
    for_each xs acc body st = (Ok r, st') ->
    snd r = snd acc
    /\ (fst acc <= fst r <= fst acc + Z.of_nat (List.length xs))%Z.
Proof.
  intros Hbody. induction xs as [|x xs IH]; intros acc st r st'; simpl.
  - unfold ret. intros H. injection H as <- _. lia.
  - unfold bind. destruct (body x acc st) as [[acc'|exc] st1] eqn:Hb; [|discriminate].
    intros H. apply IH in H. apply Hbody in Hb. lia.
Qed.

Lemma read_bgp_status_shape node (st : St W) text st' :
  read_bgp_status node st = (Ok text, st') ->
  text = str "n/a"
  \/ exists established total : Z,
       (0 <= established <= total)%Z /\ (0 < total)%Z
       /\ text = decimal established ++ str "/" ++ decimal total ++ str " up".
Proof.
  unfold read_bgp_status, try_except. unfold bind at 1.
  destruct (command_json node _ st) as [[output|exc] st1];
    [|unfold ret; intros H; injection H as <- _; now left].
  unfold bind at 1.
  destruct (as_dict _ st1) as [[vrfs|exc] st2];
    [|unfold ret; intros H; injection H as <- _; now left].
  unfold bind at 1.
  match goal with
  | |- context [for_each vrfs ?acc ?body st2] =>
      destruct (for_each vrfs acc body st2) as [[[established total]|exc] st3] eqn:Hloop;
        [pose proof (for_each_keeps
                       (fun c : Z * Z => (0 <= fst c <= snd c)%Z) body vrfs) as Hinv
        |unfold ret; intros H; injection H as <- _; now left]
  end.
  assert (Hc : (0 <= established <= total)%Z).
  { apply (Hinv) in Hloop; [exact Hloop| |simpl; lia].
    intros kv acc s r s' Hacc. unfold bind at 1.
    destruct (as_dict _ s) as [[vrf_data|?] s1]; [|discriminate].
    unfold bind at 1.
    destruct (as_dict _ s1) as [[peers|?] s2]; [|discriminate].
    intros Hinner. apply for_each_counts in Hinner.
    - simpl in Hinner. lia.
    - intros kp c s3 r3 s3'. unfold bind.
      destruct (as_dict _ s3) as [[peer_data|?] s4]; [|discriminate].
      unfold ret. intros H. injection H as <- _.
      destruct (str_equals _ _); simpl; lia. }
  destruct (total =? 0)%Z eqn:Ht; unfold ret; intros H; injection H as <- _.
  - now left.
  - right. exists established, total. apply Z.eqb_neq in Ht.
    split; [assumption|]. split; [lia | reflexivity].
Qed.

Lemma read_temperature_pure output :
  observing (W:=W) (fun _ _ => False)
    (temperatures <-
       for_each [str "cardSlots"; str "powerSupplySlots"; str "tempSensors"] []
         (fun section temperatures =>
            match dict_get output section with
            | Some (JDict items) => section_temperatures items temperatures
            | _ => ret temperatures
            end) ;;
     match temperatures with
     | [] => ret (str "n/a")
     | _ :: _ => s <- lift_res (format_max_1f temperatures) ;; ret (s ++ str "C")
     end).
Proof. unfold section_temperatures, as_dict. observe. Qed.

Lemma read_bgp_status_pure output :
  observing (W:=W) (fun _ _ => False)
    (vrfs <- as_dict (default (JDict []) (dict_get output (str "vrfs"))) ;;
     counts <-
       for_each vrfs (0%Z, 0%Z)
         (fun kv counts =>
            vrf_data <- as_dict (snd kv) ;;
            peers <- as_dict (default (JDict []) (dict_get vrf_data (str "peers"))) ;;
            let total := (snd counts + Z.of_nat (List.length peers))%Z in
            for_each peers (fst counts, total)
              (fun kp counts =>
                 peer_data <- as_dict (snd kp) ;;
                 ret (if str_equals (dict_get peer_data (str "peerState"))
                           (str "Established")
                      then ((fst counts + 1)%Z, snd counts)
                      else counts))) ;;
     let '(established, total) := counts in
     if (total =? 0)%Z then ret (str "n/a")
     else ret (decimal established ++ str "/" ++ decimal total ++ str " up")).
Proof. unfold as_dict. observe. Qed.

Lemma read_mlag_status_pure output :
  observing (W:=W) (fun _ _ => False)
    (let first := default JNone (dict_get output (str "state")) in
     let state :=
       if truthy first then first
       else default JNone (dict_get output (str "mlagState")) in
     if truthy state then ret (py_str state) else ret (str "disabled")).
Proof. cbv zeta. observe. Qed.

Lemma isolated_of_run reader command node w
    (k : list (pystr * json) -> M W pystr) :
  (forall st, reader node st
     = try_except (output <- command_json node command ;; k output)
         (fun _ => ret (str "n/a")) st) ->
  (forall output, observing (fun _ _ => False) (k output)) ->
  isolated_reader reader command node w.
Proof.
  intros Heq Hk. destruct (reader_run node command k w Hk) as (text & Hrun & _ & Hfail).
  exists text. split; [|split].
  - intros t. rewrite Heq. apply Hrun.
  - intros exc Hexc. apply (Hfail exc). now rewrite Hexc.
  - intros Hnil. apply (Hfail (str "list index out of range")). now rewrite Hnil.
Qed.

End Readers2.

(** X2.  Each of the four field readers ([read_cpu], [read_temperature],
    [read_bgp_status], [read_mlag_status]) never raises, sends exactly its
    own show command once, leaves the world alone, and returns "n/a" when
    the command fails or returns an empty list. *)
Theorem X2_field_readers_isolated {W : Type} {E : Env W} (node : Node) (w : W) :
  isolated_reader read_cpu (str "show processes top once") node w
  /\ isolated_reader read_temperature
       (str "show system environment temperature") node w
  /\ isolated_reader read_bgp_status (str "show ip bgp summary") node w
  /\ isolated_reader read_mlag_status (str "show mlag") node w.
Proof.
  split; [|split; [|split]].
  - eapply isolated_of_run; [intros st; reflexivity | apply read_cpu_pure].
  - eapply isolated_of_run; [intros st; reflexivity | apply read_temperature_pure].
  - eapply isolated_of_run; [intros st; reflexivity | apply read_bgp_status_pure].
  - eapply isolated_of_run; [intros st; reflexivity | apply read_mlag_status_pure].
Qed.

(** X3.  [read_bgp_status] always returns, and what it returns is "n/a"
    or "<established>/<total> up" with 0 <= established <= total and at
    least one peer. *)
Theorem X3_read_bgp_status_shape {W : Type} {E : Env W} (node : Node) (st : St W) :
  exists text st',
    read_bgp_status node st = (Ok text, st')
    /\ (text = str "n/a"
        \/ exists established total : Z,
             (0 <= established <= total)%Z /\ (0 < total)%Z
             /\ text = decimal established ++ str "/" ++ decimal total
                         ++ str " up").
Proof.
  destruct st as [w t].
  assert (Hiso : isolated_reader read_bgp_status (str "show ip bgp summary") node w)
    by (eapply isolated_of_run; [intros st; reflexivity | apply read_bgp_status_pure]).
  destruct Hiso as (text & Hrun & _).
  eexists text, _. split; [apply (Hrun t)|].
  eapply read_bgp_status_shape. apply (Hrun t).
Qed.

Section Steps.
Context {W : Type} {E : Env W}.

Lemma node_for_device_run d args w t :
  node_for_device d args {| world := w; trace := t |}
  = (match connect w args d with
     | Ok _ => Ok {| node_device := d; node_args := args |}
     | Raise exc => Raise exc
     end,
     {| world := w; trace := t ++ [EvConnect d] |}).
Proof.
  unfold node_for_device, bind, log, reading, ret, emit. cbn [world trace].
  now destruct (connect w args d).
Qed.

Lemma isolated_all node w :
  isolated_reader read_cpu (str "show processes top once") node w
  /\ isolated_reader read_temperature
       (str "show system environment temperature") node w
  /\ isolated_reader read_bgp_status (str "show ip bgp summary") node w
  /\ isolated_reader read_mlag_status (str "show mlag") node w.
Proof.
  split; [|split; [|split]].
  - eapply isolated_of_run; [intros st; reflexivity | apply read_cpu_pure].
  - eapply isolated_of_run; [intros st; reflexivity | apply read_temperature_pure].
  - eapply isolated_of_run; [intros st; reflexivity | apply read_bgp_status_pure].
  - eapply isolated_of_run; [intros st; reflexivity | apply read_mlag_status_pure].
Qed.

End Steps.

(** X4.  [collect_snapshot] step by step.  A failed connection gives the
    unreachable snapshot carrying the exception text, with one connection
    attempt and no command; a failed "show version" gives the unreachable
    snapshot after the connection and that one command; otherwise the
    snapshot is reachable with an empty error, its model, version and
    uptime come from the answer to "show version" (a missing key reads
    "n/a"), and the device has been sent the five show commands in the
    order version, processes, temperature, BGP, MLAG. *)
Theorem X4_collect_snapshot_steps {W : Type} {E : Env W}
    (d : Device) (args : Args) (w : W) :
  let node := {| node_device := d; node_args := args |} in
  let show command := EvEnable d [str command] false in
  exists snap evs,
    (forall t, collect_snapshot d args {| world := w; trace := t |}
               = (Ok snap, {| world := w; trace := t ++ evs |}))
    /\ match connect w args d with
       | Raise exc =>
           snap = unreachable_snapshot d exc /\ evs = [EvConnect d]
       | Ok _ =>
           match unwrap_json (enable_show w node (str "show version") false) with
           | Raise exc =>
               snap = unreachable_snapshot d exc
               /\ evs = [EvConnect d; show "show version"]
           | Ok version_ =>
               reachable snap = true
               /\ error snap = []
               /\ model snap = py_str (default (JStr (str "n/a"))
                                         (dict_get version_ (str "modelName")))
               /\ version snap = py_str (default (JStr (str "n/a"))
                                           (dict_get version_ (str "version")))
               /\ uptime snap = format_uptime (default JNone
                                                 (dict_get version_ (str "uptime")))
               /\ evs = [EvConnect d; show "show version";
                         show "show processes top once";
                         show "show system environment temperature";
                         show "show ip bgp summary"; show "show mlag"]
           end
       end.
Proof.
  intros node show.
  destruct (isolated_all node w)
    as ((c & Hc & _) & (tp & Ht & _) & (b & Hb & _) & (m & Hm & _)).
  destruct (connect w args d) as [[]|exc] eqn:Hconn.
  2:{ eexists _, _. split; [|split; reflexivity].
      intros t. unfold collect_snapshot, try_except, snapshot_facts, bind.
      rewrite node_for_device_run, Hconn. reflexivity. }
  destruct (unwrap_json (enable_show w node (str "show version") false))
    as [version_|exc] eqn:Hv.
  2:{ eexists _, _. split; [|split; reflexivity].
      intros t. unfold collect_snapshot, try_except, snapshot_facts.
      unfold bind at 1. rewrite node_for_device_run, Hconn. fold node.
      unfold bind at 1. rewrite command_json_run, Hv. unfold ret.
      now rewrite <- app_assoc. }
  eexists _, _. split.
  - intros t. unfold collect_snapshot, try_except, snapshot_facts.
    unfold bind at 1. rewrite node_for_device_run, Hconn. fold node.
    unfold bind at 1. rewrite command_json_run, Hv.
    unfold bind at 1. rewrite Hc.
    unfold bind at 1. rewrite Ht.
    unfold bind at 1. rewrite Hb.
    unfold bind at 1. rewrite Hm.
    unfold ret. rewrite <- !app_assoc. reflexivity.
  - repeat split; reflexivity.
Qed.

Section DetectSteps.
Context {W : Type} {E : Env W}.

Lemma command_text_run node command w t :
  command_text node command {| world := w; trace := t |}
  = (unwrap_text (enable_show w node command true),
     {| world := w;
        trace := t ++ [EvEnable (node_device node) [command] true] |}).
Proof.
  unfold command_text, node_enable, first_item, bind, log, reading, ret, raise,
    emit, unwrap_text. cbn [world trace].
  now destruct (enable_show w node command true) as [[|r l]|exc].
Qed.

(** The detection of one device whose baseline file is there: it stops at
    the first step that fails. *)
Lemma detect_device_steps (d : Device) (args : Args) (w : W) :
  let path := golden_file_path (golden_dir args) (name d) in
  let node := {| node_device := d; node_args := args |} in
  let fetch := EvEnable d [str "show running-config"] true in
  path_exists w path = Ok true ->
  exists r evs,
    (forall t, detect_device d args {| world := w; trace := t |}
               = (Ok r, {| world := w; trace := t ++ evs |}))
    /\ match connect w args d with
       | Raise exc => r = error_result path exc /\ evs = [EvConnect d]
       | Ok _ =>
           match unwrap_text
                   (enable_show w node (str "show running-config") true) with
           | Raise exc =>
               r = error_result path exc /\ evs = [EvConnect d; fetch]
           | Ok live =>
               match read_text w path with
               | Raise exc =>
                   r = error_result path exc /\ evs = [EvConnect d; fetch]
               | Ok baseline =>
                   r = compared_result path
                         (config_diff (normalize_golden baseline)
                            (normalize_live live) (name d))
                   /\ evs = [EvConnect d; fetch]
               end
           end
       end.
Proof.
  intros path node fetch Hex.
  assert (Hstart : forall t,
    detect_device d args {| world := w; trace := t |}
    = try_except
        (dl <- fetch_diff d args path ;;
         ret {| drift := nonempty dl; reason := []; diff := dl;
                golden_path := path |})
        (fun exc =>
           ret {| drift := false;
                  reason := str "Error reading running-config: " ++ exc;
                  diff := [];
                  golden_path := path |})
        {| world := w; trace := t |}).
  { intros t. unfold detect_device. fold path.
    unfold bind at 1. unfold reading. cbn [world]. now rewrite Hex. }
  destruct (connect w args d) as [[]|exc] eqn:Hconn.
  2:{ eexists _, _. split; [|split; reflexivity].
      intros t. rewrite (Hstart t).
      unfold try_except, fetch_diff, bind.
      rewrite node_for_device_run, Hconn. reflexivity. }
  destruct (unwrap_text (enable_show w node (str "show running-config") true))
    as [live|exc] eqn:Hlive.
  2:{ eexists _, _. split; [|split; reflexivity].
      intros t. rewrite (Hstart t).
      unfold try_except, fetch_diff, running_config.
      unfold bind at 1. unfold bind at 1.
      rewrite node_for_device_run, Hconn. fold node.
      unfold bind at 1. unfold bind at 1.
      rewrite command_text_run, Hlive. unfold ret.
      now rewrite <- app_assoc. }
  destruct (read_text w path) as [baseline|exc] eqn:Hread.
  - eexists _, _. split; [|split; reflexivity].
    intros t. rewrite (Hstart t).
    unfold try_except, fetch_diff, running_config, load_golden_config.
    unfold bind at 1. unfold bind at 1.
    rewrite node_for_device_run, Hconn. fold node.
    unfold bind at 1. unfold bind at 1.
    rewrite command_text_run, Hlive. unfold ret at 1.
    unfold bind, reading, ret. cbn [world]. rewrite Hread.
    now rewrite <- app_assoc.
  - eexists _, _. split; [|split; reflexivity].
    intros t. rewrite (Hstart t).
    unfold try_except, fetch_diff, running_config, load_golden_config.
    unfold bind at 1. unfold bind at 1.
    rewrite node_for_device_run, Hconn. fold node.
    unfold bind at 1. unfold bind at 1.
    rewrite command_text_run, Hlive. unfold ret at 1.
    unfold bind, reading, ret. cbn [world]. rewrite Hread.
    now rewrite <- app_assoc.
Qed.

End DetectSteps.

Local Open Scope N_scope.

Section StripCommute.
Variable p : N -> bool.

Lemma rstrip_by_lstrip_by_comm s :
  rstrip_by p (lstrip_by p s) = lstrip_by p (rstrip_by p s).
Proof.
  induction s as [|c s IH]; [reflexivity|].
  destruct (p c) eqn:Hc.
  - change (lstrip_by p (c :: s)) with (if p c then lstrip_by p s else c :: s).
    rewrite Hc, IH. cbn [rstrip_by].
    destruct (rstrip_by p s) as [|r rs]; rewrite ?Hc; [reflexivity|].
    cbn [lstrip_by]. now rewrite Hc.
  - change (lstrip_by p (c :: s)) with (if p c then lstrip_by p s else c :: s).
    rewrite Hc.
    assert (H : exists r, rstrip_by p (c :: s) = c :: r).
    { cbn [rstrip_by]. destruct (rstrip_by p s); rewrite ?Hc; eauto. }
    destruct H as [r ->]. cbn [lstrip_by]. now rewrite Hc.
Qed.

Lemma forallb_rstrip_by_same s :
  forallb p (rstrip_by p s) = forallb p s.
Proof.
  induction s as [|c s IH]; [reflexivity|].
  cbn [rstrip_by forallb]. rewrite <- IH.
  destruct (rstrip_by p s) as [|r rs].
  - destruct (p c) eqn:Hc; simpl; now rewrite ?Hc.
  - reflexivity.
Qed.

End StripCommute.

Lemma blank_rstrip l : blank (rstrip l) = blank l.
Proof. apply forallb_rstrip_by_same. Qed.

Lemma rstrip_lines_map_rstrip ls :
  rstrip_lines (List.map rstrip ls) = List.map rstrip (rstrip_lines ls).
Proof.
  induction ls as [|l ls IH]; [reflexivity|].
  cbn [List.map rstrip_lines]. rewrite IH, blank_rstrip.
  destruct (rstrip_lines ls) as [|r rs]; cbn [List.map]; [|reflexivity].
  destruct (blank l); [reflexivity|]. cbn [List.map].
  unfold rstrip. now rewrite !rstrip_by_idem.
Qed.

Lemma lstrip_lines_map_rstrip ls :
  lstrip_lines (List.map rstrip ls) = List.map rstrip (lstrip_lines ls).
Proof.
  induction ls as [|l ls IH]; [reflexivity|].
  cbn [List.map lstrip_lines]. rewrite IH, blank_rstrip.
  destruct (blank l); [reflexivity|]. cbn [List.map]. f_equal.
  unfold lstrip, rstrip. symmetry. apply rstrip_by_lstrip_by_comm.
Qed.

(** Stripping the joined text and stripping every line on the right can
    be done in either order. *)
Lemma strip_join_map_rstrip ls :
  strip (join [LF] (List.map rstrip ls))
  = join [LF] (List.map rstrip (lstrip_lines (rstrip_lines ls))).
Proof.
  now rewrite strip_join, rstrip_lines_map_rstrip, lstrip_lines_map_rstrip.
Qed.

Lemma one_line_lstrip_rstrip_lines ls :
  Forall (fun l => one_line l = true) ls ->
  Forall (fun l => one_line l = true) (lstrip_lines (rstrip_lines ls)).
Proof.
  intros H.
  assert (Hs : Forall (settled (fun l => l)) ls)
    by (eapply Forall_impl; [exact H|]; now intros l Hl; split).
  apply (settled_rstrip_lines (fun l => l)) in Hs; [|auto].
  apply (settled_lstrip_lines (fun l => l)) in Hs; [|auto].
  eapply Forall_impl; [exact Hs|]. now intros l [Hl _].
Qed.

Lemma normalize_live_absorbs_golden s :
  normalize_live (normalize_golden s) = normalize_live s.
Proof.
  unfold normalize_live, normalize_golden. f_equal.
  rewrite (strip_join_map_rstrip (splitlines s)).
  rewrite (strip_join (splitlines s)).
  set (ls := lstrip_lines (rstrip_lines (splitlines s))).
  assert (Hone : Forall (fun l => one_line l = true) ls)
    by apply one_line_lstrip_rstrip_lines, splitlines_one_line.
  destruct ls as [|l ls'] eqn:Els; [reflexivity|].
  rewrite splitlines_join; [|discriminate | assumption].
  rewrite <- Els. unfold ls.
  rewrite <- strip_join_map_rstrip. apply strip_idem.
Qed.

Lemma normalize_golden_fixes_live s :
  normalize_golden (normalize_live s) = normalize_live s.
Proof.
  unfold normalize_live, normalize_golden. f_equal.
  destruct (normal_form_lines rstrip) with (s := s) as (ls & _ & Hx & Hj & _).
  - reflexivity.
  - apply rstrip_by_idem.
  - intros l. apply forallb_rstrip_by.
  - intros l _. apply rstrip_by_idem.
  - intros l. apply rstrip_by_lstrip_by.
  - rewrite Hx, Hj, <- Hx. apply strip_idem.
Qed.

Lemma normalize_live_idem s :
  normalize_live (normalize_live s) = normalize_live s.
Proof.
  apply (normalize_idem rstrip).
  - reflexivity.
  - apply rstrip_by_idem.
  - intros l. apply forallb_rstrip_by.
  - intros l _. apply rstrip_by_idem.
  - intros l. apply rstrip_by_lstrip_by.
Qed.

Lemma golden_eq_live_sound golden live :
  normalize_golden golden = normalize_live live ->
  normalize_live golden = normalize_live live.
Proof.
  intros H. rewrite <- (normalize_live_absorbs_golden golden), H.
  apply normalize_live_idem.
Qed.

Local Open Scope nat_scope.

(** X5.  [detect_drift] for one device whose baseline file is there.  It
    stops at the first step that fails: a failed connection is reported
    as "Error reading running-config: <exception>" without any command
    having been sent; after a successful connection exactly one command,
    "show running-config" in text encoding, is sent, and a failure of
    that command or of reading the baseline file is reported in the same
    words; otherwise the result carries the unified diff of the
    normalized baseline against the normalized live text, and drift is
    set exactly when that diff has lines. *)
Theorem X5_detect_device_steps {W : Type} {E : Env W}
    (d : Device) (args : Args) (w : W) :
  let path := golden_file_path (golden_dir args) (name d) in
  let node := {| node_device := d; node_args := args |} in
  let fetch := EvEnable d [str "show running-config"] true in
  path_exists w path = Ok true ->
  exists r evs,
    (forall t, detect_device d args {| world := w; trace := t |}
               = (Ok r, {| world := w; trace := t ++ evs |}))
    /\ match connect w args d with
       | Raise exc => r = error_result path exc /\ evs = [EvConnect d]
       | Ok _ =>
           evs = [EvConnect d; fetch]
           /\ match unwrap_text
                      (enable_show w node (str "show running-config") true),
                    read_text w path with
              | Raise exc, _ => r = error_result path exc
              | Ok _, Raise exc => r = error_result path exc
              | Ok live, Ok baseline =>
                  r = compared_result path
                        (config_diff (normalize_golden baseline)
                           (normalize_live live) (name d))
              end
       end.
Proof.
  intros path node fetch Hex.
  destruct (detect_device_steps d args w Hex) as (r & evs & Hrun & Hcase).
  exists r, evs. split; [exact Hrun|].
  fold path node fetch in Hcase.
  destruct (connect w args d) as [[]|exc]; [|exact Hcase].
  destruct (unwrap_text _) as [live|exc]; [|now destruct Hcase].
  destruct (read_text w path); now destruct Hcase.
Qed.

Lemma X5_witness :
  exists r evs,
    detect_device (E:=Lab.env) Lab.leaf1 Lab.args (init (Lab.drifted_world ∅))
    = (Ok r, {| world := Lab.drifted_world ∅; trace := evs |})
    /\ drift r = true
    /\ evs = [EvConnect Lab.leaf1;
              EvEnable Lab.leaf1 [str "show running-config"] true].
Proof.
  destruct (X5_detect_device_steps (E:=Lab.env) Lab.leaf1 Lab.args
              (Lab.drifted_world ∅))
    as (r & evs & Hrun & Hcase).
  - reflexivity.
  - exists r, evs. split; [apply (Hrun [])|].
    vm_compute in Hcase. destruct Hcase as [-> ->]. split; reflexivity.
Defined.

(** X6.  How the two normalizations relate: the live-side normalization
    of [running_config] absorbs the golden-side one of
    [load_golden_config], every live-side normal form is left alone by
    the golden-side normalization, and so a golden-side normal form that
    equals a live-side one has the same live-side normal form. *)
Theorem X6_normalizers_related :
  (forall s, normalize_live (normalize_golden s) = normalize_live s)
  /\ (forall s, normalize_golden (normalize_live s) = normalize_live s)
  /\ (forall golden live,
        normalize_golden golden = normalize_live live ->
        normalize_live golden = normalize_live live).
Proof.
  split; [exact normalize_live_absorbs_golden|].
  split; [exact normalize_golden_fixes_live | exact golden_eq_live_sound].
Qed.

Section Sound.
Context {W : Type} {E : Env W}.

Lemma error_result_reason path exc : reason (error_result path exc) <> [].
Proof. discriminate. Qed.

End Sound.

(** X7.  A clean verdict is sound.  If the diff library yields no line
    only for equal inputs, the baseline file is there, and the detection
    of a device ends with neither drift nor a reason, then the baseline
    was read, the device answered, and the two texts agree once both are
    normalized the live-side way. *)
Theorem X7_clean_verdict_sound {W : Type} {E : Env W}
    (d : Device) (args : Args) (w : W) (r : DriftResult) (st' : St W) :
  let path := golden_file_path (golden_dir args) (name d) in
  let node := {| node_device := d; node_args := args |} in
  diff_law E ->
  path_exists w path = Ok true ->
  detect_device d args (init w) = (Ok r, st') ->
  drift r = false ->
  reason r = [] ->
  exists baseline live,
    read_text w path = Ok baseline
    /\ unwrap_text (enable_show w node (str "show running-config") true)
       = Ok live
    /\ normalize_live baseline = normalize_live live.
Proof.
  intros path node Hlaw Hex Hrun Hd Hr.
  destruct (detect_device_steps d args w Hex) as (r' & evs & Hrun' & Hcase).
  fold path node in Hcase.
  unfold init in Hrun. rewrite (Hrun' []) in Hrun. injection Hrun as -> _.
  destruct (connect w args d) as [[]|exc].
  2:{ destruct Hcase as [-> _]. now apply error_result_reason in Hr. }
  destruct (unwrap_text _) as [live|exc].
  2:{ destruct Hcase as [-> _]. now apply error_result_reason in Hr. }
  destruct (read_text w path) as [baseline|exc].
  2:{ destruct Hcase as [-> _]. now apply error_result_reason in Hr. }
  destruct Hcase as [-> _]. exists baseline, live.
  split; [reflexivity|]. split; [reflexivity|].
  cbn [drift compared_result] in Hd. apply nonempty_false in Hd.
  apply golden_eq_live_sound, same_lines_same_text.
  unfold config_diff in Hd. now apply Hlaw in Hd.
Qed.
Lemma X7_witness :
  exists r st',
    detect_device (E:=Lab.env) Lab.leaf2 Lab.args (init (Lab.drifted_world ∅))
    = (Ok r, st')
    /\ drift r = false
    /\ reason r = []
    /\ exists baseline live,
         read_text (Env:=Lab.env) (Lab.drifted_world ∅)
           (golden_file_path (E:=Lab.env) (golden_dir Lab.args) (name Lab.leaf2))
         = Ok baseline
         /\ unwrap_text (E:=Lab.env)
              (enable_show (Env:=Lab.env) (Lab.drifted_world ∅)
                 {| node_device := Lab.leaf2; node_args := Lab.args |}
                 (str "show running-config") true)
            = Ok live
         /\ normalize_live baseline = normalize_live live.
Proof.
  eexists _, _. split; [vm_compute; reflexivity|].
  split; [reflexivity|]. split; [reflexivity|].
  eapply (X7_clean_verdict_sound (E:=Lab.env) Lab.leaf2 Lab.args
            (Lab.drifted_world ∅)).
  - apply lab_diff_law.
  - reflexivity.
  - vm_compute. reflexivity.
  - reflexivity.
  - reflexivity.
Defined.

Section PerDevice.
Context {W : Type} {E : Env W}.

Lemma detect_device_alone d args w :
  exists r,
    alone args w d = (r, snd (alone args w d))
    /\ (forall t, detect_device d args {| world := w; trace := t |}
                  = (r, {| world := w; trace := t ++ snd (alone args w d) |}))
    /\ (forall exc, r = Raise exc -> snd (alone args w d) = []).
Proof.
  destruct (detect_device_spec d args w) as (r & evs & Hrun & _ & Hcase).
  exists r. unfold alone, init. rewrite (Hrun []). cbn [trace snd app].
  split; [reflexivity|]. split; [exact Hrun|].
  intros exc ->. destruct (path_exists w _) as [[|]|exc'].
  - destruct Hcase as (? & ? & _). discriminate.
  - now destruct Hcase.
  - now destruct Hcase.
Qed.

Lemma detect_loop_per_device args w devices :
  forall acc : gmap pystr DriftResult,
  exists r evs,
    (forall t,
       for_each devices acc
         (fun device results =>
            result <- detect_device device args ;;
            ret (<[name device := result]> results))
         {| world := w; trace := t |}
       = (r, {| world := w; trace := t ++ evs |}))
    /\ match r with
       | Ok results =>
           evs = List.concat (List.map (fun d => snd (alone args w d)) devices)
           /\ (forall key, key ∉ name <$> devices ->
                 results !! key = acc !! key)
           /\ (NoDup (name <$> devices) ->
               forall d, d ∈ devices ->
                 Ok <$> results !! name d = Some (fst (alone args w d)))
       | Raise exc =>
           exists before d after,
             devices = before ++ d :: after
             /\ fst (alone args w d) = Raise exc
             /\ (forall d', d' ∈ before ->
                   exists result, fst (alone args w d') = Ok result)
             /\ evs = List.concat
                        (List.map (fun d => snd (alone args w d)) before)
       end.
Proof.
  induction devices as [|d devices IH]; intros acc.
  - exists (Ok acc), []. split; [|split; [|split]].
    + intros t. simpl. unfold ret. now rewrite app_nil_r.
    + reflexivity.
    + reflexivity.
    + intros _ d Hd. inversion Hd.
  - destruct (detect_device_alone d args w) as (r & Halone & Hrun & Hquiet).
    destruct r as [r|exc].
    + destruct (IH (<[name d := r]> acc)) as (rs & evs & Hloop & Hcase).
      exists rs, (snd (alone args w d) ++ evs). split.
      * intros t. cbn [for_each]. unfold bind at 1. unfold bind at 1.
        rewrite Hrun. unfold ret at 1. rewrite Hloop. now rewrite app_assoc.
      * destruct rs as [results|exc].
        -- destruct Hcase as (-> & Hout & Hin). split; [reflexivity|]. split.
           ++ intros key Hkey. rewrite Hout by set_solver.
              apply lookup_insert_ne. set_solver.
           ++ intros Hnd d' Hd'. cbn [fmap list_fmap] in Hnd.
              apply NoDup_cons in Hnd as [Hd Hnd].
              apply elem_of_cons in Hd' as [->|Hd'].
              ** rewrite Hout by exact Hd. rewrite lookup_insert_eq.
                 rewrite Halone. reflexivity.
              ** now apply Hin.
        -- destruct Hcase as (before & d0 & after & -> & Hd0 & Hbefore & ->).
           exists (d :: before), d0, after. split; [reflexivity|].
           split; [exact Hd0|]. split; [|reflexivity].
           intros d' Hd'. apply elem_of_cons in Hd' as [->|Hd'].
           ++ exists r. now rewrite Halone.
           ++ now apply Hbefore.
    + exists (Raise exc), []. split.
      * intros t. cbn [for_each]. unfold bind at 1. unfold bind at 1.
        rewrite Hrun. now rewrite (Hquiet exc eq_refl).
      * exists [], d, devices. split; [reflexivity|].
        split; [now rewrite Halone|]. split; [|reflexivity].
        intros d' Hd'. inversion Hd'.
Qed.

End PerDevice.

(** X8.  [detect_drift] treats the devices independently as long as
    [path.exists()] answers.  For devices with pairwise different names,
    a pass that returns has the events of the single detections, in the
    order of the list, and stores under each device's name the result
    that device's detection alone gives in the same world; the pass
    returns whenever [path.exists()] answers for every device.  A pass
    that raises has stopped at the first device whose detection raises;
    it has the events of the devices before that one, and returns no
    dictionary. *)
Theorem X8_detect_drift_per_device {W : Type} {E : Env W}
    (devices : list Device) (args : Args) (w : W) :
  NoDup (name <$> devices) ->
  let single d := detect_device d args (init w) in
  exists r evs,
    (forall t, detect_drift devices args {| world := w; trace := t |}
               = (r, {| world := w; trace := t ++ evs |}))
    /\ (stat_answers args w devices -> exists results, r = Ok results)
    /\ (forall results, r = Ok results ->
          evs = List.concat (List.map (fun d => trace (snd (single d))) devices)
          /\ forall d, d ∈ devices ->
               Ok <$> results !! name d = Some (fst (single d)))
    /\ (forall exc, r = Raise exc ->
          exists before d after,
            devices = before ++ d :: after
            /\ fst (single d) = Raise exc
            /\ (forall d', d' ∈ before ->
                  exists result, fst (single d') = Ok result)
            /\ evs = List.concat
                       (List.map (fun d => trace (snd (single d))) before)).
Proof.
  intros Hnd single.
  assert (Hfst : forall d, fst (alone args w d) = fst (single d)).
  { intros d. unfold alone, single.
    now destruct (detect_device d args (init w)). }
  assert (Hsnd : forall l,
             List.map (fun d => snd (alone args w d)) l
             = List.map (fun d => trace (snd (single d))) l).
  { intros l. apply List.map_ext. intros d. unfold alone, single.
    now destruct (detect_device d args (init w)). }
  destruct (detect_loop_per_device args w devices ∅) as (r & evs & Hrun & Hcase).
  exists r, evs. split; [exact Hrun|]. split; [|split].
  - intros Hstat.
    destruct (detect_loop_spec args devices ∅ w) as (r' & evs' & Hrun' & Htotal & _).
    specialize (Hrun' []). rewrite (Hrun []) in Hrun'. injection Hrun' as -> _.
    now apply Htotal.
  - intros results ->. destruct Hcase as (-> & _ & Hin).
    split; [now rewrite Hsnd|].
    intros d Hd. rewrite (Hin Hnd d Hd). now rewrite Hfst.
  - intros exc ->. destruct Hcase as (before & d & after & -> & Hd & Hbefore & ->).
    exists before, d, after. split; [reflexivity|].
    split; [now rewrite <- Hfst|]. split; [|now rewrite Hsnd].
    intros d' Hd'. rewrite <- Hfst. now apply Hbefore.
Qed.

Lemma X8_witness :
  exists results,
    fst (detect_drift (E:=Lab.env) [Lab.leaf1; Lab.leaf2] Lab.args
           (init (Lab.drifted_world ∅))) = Ok results
    /\ Ok <$> results !! name Lab.leaf2
       = Some (fst (detect_device (E:=Lab.env) Lab.leaf2 Lab.args
                      (init (Lab.drifted_world ∅)))).
Proof.
  destruct (X8_detect_drift_per_device (E:=Lab.env) [Lab.leaf1; Lab.leaf2]
              Lab.args (Lab.drifted_world ∅))
    as (r & evs & Hrun & Htotal & Hok & _).
  - apply (bool_decide_unpack _). vm_compute. exact I.
  - destruct Htotal as [results ->].
    + intros d _. eexists. reflexivity.
    + exists results. split; [unfold init; now rewrite Hrun|].
      apply (Hok results eq_refl). right. left.
Defined.

Section Restore.
Context {W : Type} {E : Env W}.

Lemma restore_golden_outcome d args w :
  let path := golden_file_path (golden_dir args) (name d) in
  exists r w' evs,
    (forall t, restore_golden d args {| world := w; trace := t |}
               = (r, {| world := w'; trace := t ++ evs |}))
    /\ match path_exists w path with
       | Raise exc => r = Raise exc /\ w' = w /\ evs = []
       | Ok false =>
           r = Ok (false, str "Golden config not found: " ++ path)
           /\ w' = w /\ evs = []
       | Ok true =>
           exists ok message,
             r = Ok (ok, message)
             /\ evs <> []
             /\ evs `prefix_of` restore_events args d
             /\ (ok = true <-> restore_succeeds args d w w')
             /\ (ok = true ->
                 evs = restore_events args d
                 /\ message = str "Restored from flash:golden-" ++ name d
                                ++ str ".cfg")
       end.
Proof.
  cbv zeta.
  unfold restore_golden, stage_golden_to_flash, node_for_device,
    node_enable_config, restore_events, restore_succeeds.
  unfold bind, try_except, log, reading, acting, ret, emit. cbn [world trace].
  set (path := golden_file_path (golden_dir args) (name d)).
  set (flash := path_div (path_div (flash_dir args) (name d)) (str "flash")).
  set (staged_name := str "golden-" ++ name d ++ str ".cfg").
  destruct (path_exists w path) as [[|]|exc0]; cbn [negb]; cbv beta;
    cbn [world trace].
  3:{ exists (Raise exc0), w, []. split; [intros t; now rewrite app_nil_r|].
      repeat split; reflexivity. }
  2:{ eexists _, w, []. split; [intros t; now rewrite app_nil_r|].
      repeat split; reflexivity. }
  destruct (mkdir w flash) as [[[]|exc] w1] eqn:Hmk; cbn [world trace].
  2:{ eexists _, w1, [_]. split; [intros t; reflexivity|].
      eexists false, _. split; [reflexivity|].
      split; [discriminate|]. split; [eexists; reflexivity|].
      split; [|discriminate].
      split; [discriminate|]. intros (? & ? & ? & H & _). discriminate. }
  destruct (copyfile w1 path (path_div flash staged_name)) as [[[]|exc] w2] eqn:Hcp;
    cbn [world trace].
  2:{ eexists _, w2, [_; _]. split; [intros t; now rewrite <- app_assoc|].
      eexists false, _. split; [reflexivity|].
      split; [discriminate|]. split; [eexists; reflexivity|].
      split; [|discriminate].
      split; [discriminate|]. intros (? & ? & ? & H1 & H2 & _).
      injection H1 as <-. rewrite Hcp in H2. discriminate. }
  destruct (connect w2 args d) as [[]|exc] eqn:Hconn; cbn [world trace].
  2:{ eexists _, w2, [_; _; _].
      split; [intros t; now rewrite <- !app_assoc|].
      eexists false, _. split; [reflexivity|].
      split; [discriminate|]. split; [eexists; reflexivity|].
      split; [|discriminate].
      split; [discriminate|]. intros (? & ? & ? & H1 & H2 & H3 & _).
      injection H1 as <-. rewrite Hcp in H2. injection H2 as <-.
      rewrite Hconn in H3. discriminate. }
  destruct (enable_config w2 _ _) as [[l|exc] w3] eqn:Hen; cbn [world trace].
  - eexists _, w3, [_; _; _; _].
    split; [intros t; now rewrite <- !app_assoc|].
    eexists true, _. split; [reflexivity|].
    split; [discriminate|]. split; [exists []; reflexivity|].
    split; [|intros _; split; reflexivity].
    split; [|reflexivity]. intros _. exists w1, w2, l. auto.
  - eexists _, w3, [_; _; _; _].
    split; [intros t; now rewrite <- !app_assoc|].
    eexists false, _. split; [reflexivity|].
    split; [discriminate|]. split; [exists []; reflexivity|].
    split; [|discriminate].
    split; [discriminate|]. intros (? & ? & ? & H1 & H2 & H3 & H4).
    injection H1 as <-. rewrite Hcp in H2. injection H2 as <-.
    rewrite Hen in H4. discriminate.
Qed.

Lemma restore_events_mutating args d :
  List.filter mutating (restore_events args d) = remediation_of args d.
Proof. reflexivity. Qed.

Lemma restore_all_complete args drifted :
  forall (all_ok : bool) w,
  exists r w' evs,
    (forall t,
       for_each drifted all_ok
         (fun device all_ok =>
            r <- restore_golden device args ;;
            ret (if fst r then all_ok else false))
         {| world := w; trace := t |}
       = (r, {| world := w'; trace := t ++ evs |}))
    /\ (r = Ok true ->
        all_ok = true
        /\ evs = List.concat (List.map (restore_events args) drifted)).
Proof.
  induction drifted as [|d drifted IH]; intros all_ok w.
  - exists (Ok all_ok), w, [].
    split; [intros t; simpl; unfold ret; now rewrite app_nil_r|].
    intros [= ->]. split; reflexivity.
  - destruct (restore_golden_outcome d args w) as (r1 & w1 & evs1 & Hrun1 & Hcase).
    destruct r1 as [[ok message]|exc].
    + destruct (IH (if ok then all_ok else false) w1)
        as (r & w' & evs & Hrun & Htrue).
      exists r, w', (evs1 ++ evs). split.
      * intros t. cbn [for_each]. unfold bind at 1. unfold bind at 1.
        rewrite Hrun1. unfold ret at 1. cbn [fst]. rewrite Hrun.
        now rewrite app_assoc.
      * intros Hr. destruct (Htrue Hr) as [Hacc ->].
        destruct ok; [|discriminate]. split; [exact Hacc|].
        cbn [List.map List.concat]. f_equal.
        destruct (path_exists w _) as [[|]|exc'].
        -- destruct Hcase as (ok' & message' & Heq & _ & _ & _ & Hfull).
           injection Heq as <- _. now destruct (Hfull eq_refl).
        -- destruct Hcase as (Heq & _). discriminate.
        -- destruct Hcase as (Heq & _). discriminate.
    + exists (Raise exc), w1, evs1. split; [|discriminate].
      intros t. cbn [for_each]. unfold bind at 1. unfold bind at 1.
      now rewrite Hrun1.
Qed.

Lemma remediation_of_all args (drifted : list Device) :
  List.filter mutating (List.concat (List.map (restore_events args) drifted))
  = List.concat (List.map (remediation_of args) drifted).
Proof.
  induction drifted as [|d drifted IH]; [reflexivity|].
  cbn [List.map List.concat]. rewrite List.filter_app, IH.
  now rewrite restore_events_mutating.
Qed.

End Restore.


(** X10.  The restore loop of [main] returns whenever [path.exists()]
    answers; when it ends with [all_ok] still true, every drifted device
    has gone through the whole restore sequence, in the order of the
    list, and the changes made are the full remediation of each device;
    with no drifted device [all_ok] stays true. *)
Theorem X10_restore_all_complete {W : Type} {E : Env W}
    (drifted : list Device) (args : Args) (st : St W) :
  exists r st' evs,
    restore_all drifted args st = (r, st')
    /\ trace st' = trace st ++ evs
    /\ (stat_total -> exists all_ok, r = Ok all_ok)
    /\ (r = Ok true ->
        evs = List.concat (List.map (restore_events args) drifted)
        /\ List.filter mutating evs
           = List.concat (List.map (remediation_of args) drifted))
    /\ (drifted = [] -> r = Ok true).
Proof.
  destruct st as [w t].
  destruct (restore_all_complete args drifted true w)
    as (r & w' & evs & Hrun & Htrue).
  exists r, {| world := w'; trace := t ++ evs |}, evs.
  split; [apply Hrun|]. split; [reflexivity|]. split; [|split].
  - destruct (restore_loop_spec args drifted true w)
      as (r' & w2 & evs2 & attempts & Hrun2 & _ & _ & Htotal & _).
    specialize (Hrun2 []). rewrite (Hrun []) in Hrun2.
    injection Hrun2 as -> _ _. exact Htotal.
  - intros Hok. destruct (Htrue Hok) as [_ ->].
    split; [reflexivity | apply remediation_of_all].
  - intros ->. specialize (Hrun []). cbn [for_each] in Hrun. unfold ret in Hrun.
    now injection Hrun as <- _ _.
Qed.

Section MainPaths.
Context {W : Type} {E : Env W}.

Lemma main_inventory_failure args w :
  (forall devices,
     fst (load_inventory_devices (inventory args) (group args) (init w))
     = Ok devices -> devices = []) ->
  forall t, main args {| world := w; trace := t |}
            = (Ok 2%Z, {| world := w; trace := t |}).
Proof.
  intros Hload t.
  destruct (load_inventory_devices_spec (inventory args) (group args) w)
    as (r & Hrun & _).
  unfold init in Hload. rewrite (Hrun []) in Hload. cbn [fst] in Hload.
  unfold main, try_except. unfold bind at 1. unfold bind at 1.
  rewrite Hrun. destruct r as [devices|exc]; [|reflexivity].
  unfold ret at 1. now rewrite (Hload devices eq_refl).
Qed.

(** [main] with a non-empty inventory: it is ended by an exception of
    the dashboard part or of the detection pass, or goes on to the
    decision about restoring. *)
Lemma main_loaded args w devices :
  fst (load_inventory_devices (inventory args) (group args) (init w))
  = Ok devices ->
  devices <> [] ->
  exists evs,
    Forall (fun ev => mutating ev = false) evs
    /\ ((exists exc,
           (forall t, main args {| world := w; trace := t |}
                      = (Raise exc, {| world := w; trace := t ++ evs |}))
           /\ ((watch args = true -> time_sleep (interval args) = Ok tt) ->
               stat_answers args w devices -> False))
        \/ (exists drift_data,
              fst (detect_drift devices args (init w)) = Ok drift_data
              /\ dom drift_data = list_to_set (name <$> devices)
              /\ forall t, main args {| world := w; trace := t |}
                           = decide_restore
                               (List.filter (drift_flag drift_data) devices)
                               args {| world := w; trace := t ++ evs |})).
Proof.
  intros Hload Hne.
  destruct (load_inventory_devices_spec (inventory args) (group args) w)
    as (r & Hrun & _).
  unfold init in Hload. rewrite (Hrun []) in Hload. cbn [fst] in Hload.
  subst r.
  assert (Hstart : forall t,
    main args {| world := w; trace := t |}
    = (_ <- dashboard devices args ;;
       drift_data <- detect_drift devices args ;;
       drifted <- drifted_devices devices drift_data ;;
       decide_restore drifted args) {| world := w; trace := t |}).
  { intros t. unfold main, try_except. unfold bind at 1. unfold bind at 1.
    rewrite Hrun. unfold ret at 1.
    destruct devices as [|d0 devices']; [congruence|]. reflexivity. }
  destruct (dashboard_spec devices args w) as (rD & evsD & HquietD & HrunD & HokD).
  destruct rD as [[]|exc].
  2:{ exists evsD. split; [assumption|]. left. exists exc. split.
      - intros t. rewrite Hstart.
        now rewrite (bind_run_raise _ _ _ _ _ (HrunD t)).
      - intros Hsleep _. specialize (HokD Hsleep). discriminate. }
  destruct (detect_drift_spec devices args w)
    as (rd & evs & Hdet & Hquiet & Htotal & Hok).
  exists (evsD ++ evs). split; [now apply Forall_app|].
  destruct rd as [drift_data|exc].
  2:{ left. exists exc. split.
      - intros t. rewrite Hstart.
        rewrite (bind_run_ok _ _ _ _ _ (HrunD t)).
        rewrite (bind_run_raise _ _ _ _ _ (Hdet _)). now rewrite app_assoc.
      - intros _ Hstat. destruct (Htotal Hstat) as [? [=]]. }
  right. exists drift_data. destruct (Hok drift_data eq_refl) as [Hdom _].
  split; [unfold init; now rewrite Hdet|]. split; [exact Hdom|].
  assert (Hkeys : Forall (fun d => is_Some (drift_data !! name d)) devices).
  { apply Forall_forall. intros d Hd. apply elem_of_dom. rewrite Hdom.
    apply elem_of_list_to_set, list_elem_of_fmap. now exists d. }
  intros t. rewrite Hstart.
  rewrite (bind_run_ok _ _ _ _ _ (HrunD t)).
  rewrite (bind_run_ok _ _ _ _ _ (Hdet _)).
  destruct (drifted_devices_total devices drift_data Hkeys
              {| world := w; trace := (t ++ evsD) ++ evs |})
    as (ds & Hds & ->).
  rewrite (bind_run_ok _ _ _ _ _ Hds). now rewrite app_assoc.
Qed.

Lemma filter_drift_flag drift_data devices :
  nonempty (List.filter (drift_flag drift_data) devices) = true
  <-> exists d r, d ∈ devices /\ drift_data !! name d = Some r /\ drift r = true.
Proof.
  split.
  - destruct (List.filter _ _) as [|d l] eqn:Hl; [discriminate|]. intros _.
    assert (Hin : In d (List.filter (drift_flag drift_data) devices))
      by (rewrite Hl; now left).
    apply List.filter_In in Hin as [Hin Hd]. unfold drift_flag in Hd.
    destruct (drift_data !! name d) as [r|] eqn:Hr; [|discriminate].
    exists d, r. split; [now apply list_elem_of_In | auto].
  - intros (d & r & Hin & Hr & Hd).
    assert (Hf : In d (List.filter (drift_flag drift_data) devices)).
    { apply List.filter_In. split; [now apply list_elem_of_In|].
      unfold drift_flag. now rewrite Hr. }
    now destruct (List.filter _ _).
Qed.

Lemma fix_verify_code drifted args (st : St W) code st' :
  fix_verify drifted args st = (Ok code, st') -> (code = 0 \/ code = 1)%Z.
Proof.
  destruct st as [w t].
  destruct (fix_verify_spec drifted args w)
    as (r & w1 & evs1 & attempts & evs2 & Hrun & _ & _ & _ & _ & Hok).
  rewrite Hrun. intros H. injection H as -> _.
  destruct (Hok code eq_refl) as (outcomes & post & _ & _ & _ & _ & ->).
  unfold verdict. destruct (if nonempty _ then false else _); auto.
Qed.

Lemma decide_restore_code drifted args (st : St W) code st' :
  decide_restore drifted args st = (Ok code, st') -> (code = 0 \/ code = 1)%Z.
Proof.
  unfold decide_restore.
  destruct (no_restore args || negb (nonempty drifted)).
  - destruct (nonempty drifted); unfold ret; intros [= <- _]; auto.
  - unfold bind, reading, ret.
    destruct (confirm_ask (world st)); cbn [negb].
    + apply fix_verify_code.
    + intros [= <- _]. auto.
Qed.

End MainPaths.

(** X11.  On a command line that [parse_args] accepts, [main] returns
    the status 2 exactly when loading the inventory fails or yields no
    device, and then it has contacted no device and changed nothing. *)
Theorem X11_main_exit_2 {W : Type} {E : Env W} (args : Args) (st : St W) :
  let loaded :=
    fst (load_inventory_devices (inventory args) (group args) (init (world st))) in
  ((exists st', main args st = (Ok 2%Z, st'))
   <-> ((exists exc, loaded = Raise exc) \/ loaded = Ok []))
  /\ ((exists st', main args st = (Ok 2%Z, st')) ->
      main args st = (Ok 2%Z, st)).
Proof.
  intros loaded. destruct st as [w t]. cbn [world] in loaded.
  assert (Hfail : (exists exc, loaded = Raise exc) \/ loaded = Ok [] ->
                  main args {| world := w; trace := t |}
                  = (Ok 2%Z, {| world := w; trace := t |})).
  { intros H. apply main_inventory_failure. fold loaded. intros devices Hd.
    destruct H as [[exc H]|H]; congruence. }
  assert (Hback : (exists st', main args {| world := w; trace := t |} = (Ok 2%Z, st'))
                  -> (exists exc, loaded = Raise exc) \/ loaded = Ok []).
  { intros [st' Hmain].
    destruct loaded as [devices|exc] eqn:Hl; [|left; now exists exc].
    destruct devices as [|d0 devices']; [now right|]. exfalso.
    destruct (main_loaded args w (d0 :: devices') Hl ltac:(discriminate))
      as (evs & _ & [(exc & Hrun & _)|(drift_data & _ & _ & Hrun)]).
    - rewrite Hrun in Hmain. discriminate.
    - rewrite Hrun in Hmain. apply decide_restore_code in Hmain. lia. }
  split; [split; [exact Hback | intros H; eexists; now apply Hfail]|].
  intros H. apply Hfail, Hback, H.
Qed.

(** X12.  Report-only runs of [main].  With a non-empty inventory and
    either [--no-restore] or an operator who declines, [main] changes
    nothing.  It returns a status whenever [time.sleep] accepts the
    interval of the watch loop (or the watch loop is off) and
    [path.exists()] answers for the baseline file of every device; the
    status it returns is 1 exactly when some device is reported as
    drifted, and 0 exactly when none is, unknown devices included. *)
Theorem X12_main_report_only {W : Type} {E : Env W}
    (args : Args) (w : W) (devices : list Device) :
  fst (load_inventory_devices (inventory args) (group args) (init w))
  = Ok devices ->
  devices <> [] ->
  no_restore args = true \/ confirm_ask w = false ->
  exists r evs,
    (forall t, main args {| world := w; trace := t |}
               = (r, {| world := w; trace := t ++ evs |}))
    /\ Forall (fun ev => mutating ev = false) evs
    /\ ((watch args = true -> time_sleep (interval args) = Ok tt) ->
        stat_answers args w devices ->
        exists code, r = Ok code)
    /\ forall code, r = Ok code ->
         exists drift_data,
           fst (detect_drift devices args (init w)) = Ok drift_data
           /\ (code = 1%Z <->
               exists d result, d ∈ devices
                 /\ drift_data !! name d = Some result
                 /\ drift result = true)
           /\ (code = 0%Z <->
               forall d, d ∈ devices ->
                 exists result, drift_data !! name d = Some result
                                /\ drift result = false).
Proof.
  intros Hload Hne Hmode.
  destruct (main_loaded args w devices Hload Hne)
    as (evs & Hquiet & [(exc & Hrun & Hnever)|(drift_data & Hdet & Hdom & Hrun)]).
  { exists (Raise exc), evs. split; [exact Hrun|]. split; [exact Hquiet|].
    split; [|discriminate]. intros Hsleep Hstat.
    destruct (Hnever Hsleep Hstat). }
  pose proof (filter_drift_flag drift_data devices) as Hf.
  assert (Hclean :
    nonempty (List.filter (drift_flag drift_data) devices) = false ->
    forall d, d ∈ devices ->
      exists r, drift_data !! name d = Some r /\ drift r = false).
  { intros Hno d Hd.
    assert (Hk : is_Some (drift_data !! name d)).
    { apply elem_of_dom. rewrite Hdom.
      apply elem_of_list_to_set, list_elem_of_fmap. now exists d. }
    destruct Hk as [r Hr]. exists r. split; [exact Hr|].
    destruct (drift r) eqn:Hdr; [|reflexivity].
    rewrite (proj2 Hf) in Hno; [discriminate | now exists d, r]. }
  assert (Hdirty :
    nonempty (List.filter (drift_flag drift_data) devices) = true ->
    ~ forall d, d ∈ devices ->
        exists r, drift_data !! name d = Some r /\ drift r = false).
  { intros Hyes Hall. apply Hf in Hyes as (d & r & Hd & Hr & Hdr).
    destruct (Hall d Hd) as (r' & Hr' & Hdr'). congruence. }
  destruct (nonempty (List.filter (drift_flag drift_data) devices)) eqn:Hdr.
  - exists (Ok 1%Z), evs. split; [|split; [exact Hquiet|split; [eauto|]]].
    + intros t. rewrite Hrun. unfold decide_restore. rewrite Hdr.
      destruct (no_restore args) eqn:Hnr; [reflexivity|].
      destruct Hmode as [?|Hc]; [discriminate|].
      cbn [orb negb]. unfold bind, reading, ret. cbn [world]. now rewrite Hc.
    + intros code [= <-]. exists drift_data. split; [exact Hdet|]. split.
      * split; [intros _; now apply Hf | reflexivity].
      * split; [discriminate | intros H; now destruct (Hdirty eq_refl)].
  - exists (Ok 0%Z), evs. split; [|split; [exact Hquiet|split; [eauto|]]].
    + intros t. rewrite Hrun. unfold decide_restore. rewrite Hdr.
      now rewrite orb_true_r.
    + intros code [= <-]. exists drift_data. split; [exact Hdet|]. split.
      * split; [discriminate|]. intros H. apply Hf in H. discriminate.
      * split; [intros _; now apply Hclean | reflexivity].
Qed.

Lemma X12_witness :
  let args :=
    {| inventory := inventory Lab.args; group := group Lab.args;
       username := username Lab.args; password := password Lab.args;
       port := port Lab.args; insecure := insecure Lab.args;
       transport := transport Lab.args; golden_dir := golden_dir Lab.args;
       flash_dir := flash_dir Lab.args; watch := true;
       interval := interval Lab.args; no_restore := true;
       max_diff_lines := max_diff_lines Lab.args |} in
  exists evs,
    main (E:=Lab.env) args (init (Lab.drifted_world ∅))
    = (Ok 1%Z, {| world := Lab.drifted_world ∅; trace := evs |}).
Proof.
  intros args.
  destruct (X12_main_report_only (E:=Lab.env) args (Lab.drifted_world ∅)
              [Lab.leaf1; Lab.leaf2])
    as (r & evs & Hrun & _ & Htotal & Hcode).
  - vm_compute. reflexivity.
  - discriminate.
  - left. reflexivity.
  - destruct Htotal as [code ->].
    + intros _. reflexivity.
    + intros d _. eexists. reflexivity.
    + exists evs. unfold init. rewrite (Hrun []). f_equal. f_equal.
      destruct (Hcode code eq_refl) as (drift_data & Hdet & Hone & _).
      apply Hone. vm_compute in Hdet. injection Hdet as <-.
      eexists Lab.leaf1, _. split; [left|]. split; [vm_compute; reflexivity|].
      reflexivity.
Defined.

Section Reach.
Variable inv : gmap pystr InvGroup.

Lemma children_loop_explores rec :
  (forall g seen r, rec g seen = Some r -> explores inv g seen (snd r)) ->
  forall cs hs seen r,
    children_loop rec cs hs seen = Some r ->
    seen ⊆ snd r
    /\ (forall c, c ∈ cs -> c ∈ snd r)
    /\ (forall x, x ∈ snd r -> x ∉ seen ->
          exists c, c ∈ cs /\ rtc (child_of inv) c x)
    /\ (forall x c, x ∈ snd r -> x ∉ seen -> child_of inv x c -> c ∈ snd r).
Proof.
  intros Hrec cs. induction cs as [|c cs IH]; intros hs seen r; cbn [children_loop].
  - intros [= <-]. cbn [snd]. split; [reflexivity|].
    split; [intros c Hc; inversion Hc|]. split; intros; contradiction.
  - destruct (rec c seen) as [[h seen1]|] eqn:Hc; [|discriminate].
    intros Hloop. apply Hrec in Hc as (Hsub1 & Hin1 & Hreach1 & Hclosed1).
    cbn [snd] in *.
    destruct (IH _ _ _ Hloop) as (Hsub & Hin & Hreach & Hclosed).
    split; [set_solver|]. split; [|split].
    + intros c' Hc'. apply elem_of_cons in Hc' as [->|Hc']; [set_solver | auto].
    + intros x Hx Hnew. destruct (decide (x ∈ seen1)) as [H1|H1].
      * exists c. split; [left | auto].
      * destruct (Hreach x Hx H1) as (c' & Hc' & Hr). exists c'.
        split; [now right | exact Hr].
    + intros x c' Hx Hnew Hchild. destruct (decide (x ∈ seen1)) as [H1|H1].
      * apply Hsub. eauto.
      * eauto.
Qed.

Lemma collect_hosts_explores fuel :
  forall g seen r,
    collect_hosts fuel inv g seen = Some r -> explores inv g seen (snd r).
Proof.
  induction fuel as [|fuel IH]; intros g seen r; [discriminate|].
  destruct (decide (g ∈ seen)) as [Hin|Hout].
  - simpl. rewrite decide_True by assumption. intros [= <-]. cbn [snd].
    split; [reflexivity|]. split; [assumption|]. split; intros; contradiction.
  - rewrite collect_hosts_step by assumption. intros Hloop.
    destruct (children_loop_explores _ IH _ _ _ _ Hloop)
      as (Hsub & Hin & Hreach & Hclosed).
    split; [set_solver|]. split; [set_solver|]. split.
    + intros x Hx Hnew. destruct (decide (x = g)) as [->|Hne]; [constructor|].
      destruct (Hreach x Hx ltac:(set_solver)) as (c & Hc & Hr).
      now apply (rtc_l _ g c).
    + intros x c Hx Hnew Hchild. destruct (decide (x = g)) as [->|Hne].
      * now apply Hin.
      * apply (Hclosed x c Hx); [set_solver | assumption].
Qed.

Lemma explores_all g seen' :
  explores inv g ∅ seen' -> forall x, x ∈ seen' <-> rtc (child_of inv) g x.
Proof.
  intros (_ & Hg & Hreach & Hclosed) x. split.
  - intros Hx. apply Hreach; set_solver.
  - intros Hr. revert x Hr. apply rtc_ind_r; [assumption|].
    intros y z _ Hyz Hy. apply (Hclosed y); [assumption | set_solver | assumption].
Qed.

(** The traversal from the empty visited set visits the groups that can
    be reached from [g] and gathers their hosts. *)
Lemma collect_hosts_reach g :
  exists hs seen,
    collect_hosts (depth_bound inv) inv g ∅ = Some (hs, seen)
    /\ (forall x, x ∈ seen <-> rtc (child_of inv) g x)
    /\ (forall h, h ∈ hs <-> member_host inv g h).
Proof.
  destruct (collect_hosts_root inv g) as [[hs seen] [Hr [_ Hh]]].
  pose proof (explores_all g seen (collect_hosts_explores _ _ _ _ Hr)) as Hseen.
  exists hs, seen. split; [exact Hr|]. split; [exact Hseen|].
  intros h. cbn [fst snd] in Hh. rewrite Hh. unfold member_host. split.
  - intros (x & Hx & _ & Hhost). exists x. split; [now apply Hseen | exact Hhost].
  - intros (x & Hx & Hhost). exists x.
    split; [now apply Hseen|]. split; [set_solver | exact Hhost].
Qed.

End Reach.

(** X13.  The host collection of both scripts ([collect_hosts] and
    [collect]) visits exactly the groups that can be reached from the
    selected group through "children" lists, and returns exactly the
    hosts of those groups. *)
Theorem X13_collect_hosts_reachable
    (inv : gmap pystr InvGroup) (group_name : pystr) :
  exists hs seen : gset pystr,
    collect_hosts (depth_bound inv) inv group_name ∅ = Some (hs, seen)
    /\ collect (depth_bound inv) inv group_name ∅ = Some (hs, seen)
    /\ (forall g, g ∈ seen <-> rtc (child_of inv) group_name g)
    /\ (forall h, h ∈ hs <->
          exists g, rtc (child_of inv) group_name g
                    /\ h ∈ hosts (group_data_of inv g)).
Proof.
  destruct (collect_hosts_reach inv group_name) as (hs & seen & Hr & Hseen & Hh).
  exists hs, seen. split; [exact Hr|].
  split; [now rewrite collect_collect_hosts|]. split; [exact Hseen | exact Hh].
Qed.

(** ** The order of [sorted] *)

Local Open Scope N_scope.

Lemma pystr_leb_total a : forall b, pystr_leb a b = true \/ pystr_leb b a = true.
Proof.
  induction a as [|x a IH]; intros [|y b]; cbn [pystr_leb]; auto.
  destruct (N.lt_trichotomy x y) as [H|[H|H]].
  - left. apply N.ltb_lt in H. now rewrite H.
  - subst y. rewrite N.eqb_refl, N.ltb_irrefl. cbn [orb andb]. apply IH.
  - right. apply N.ltb_lt in H. now rewrite H.
Qed.

Lemma pystr_leb_trans a : forall b c,
  pystr_leb a b = true -> pystr_leb b c = true -> pystr_leb a c = true.
Proof.
  induction a as [|x a IH]; intros [|y b] [|z c]; cbn [pystr_leb];
    try easy.
  intros H1 H2.
  apply orb_true_iff in H1 as [H1|H1]; apply orb_true_iff in H2 as [H2|H2].
  - apply N.ltb_lt in H1, H2. apply orb_true_iff. left. apply N.ltb_lt. lia.
  - apply andb_true_iff in H2 as [H2 _]. apply N.eqb_eq in H2. subst z.
    now rewrite H1.
  - apply andb_true_iff in H1 as [H1 _]. apply N.eqb_eq in H1. subst y.
    now rewrite H2.
  - apply andb_true_iff in H1 as [H1 H1']. apply andb_true_iff in H2 as [H2 H2'].
    apply N.eqb_eq in H1, H2. subst y z. rewrite N.eqb_refl.
    rewrite (IH _ _ H1' H2'). now rewrite orb_true_r.
Qed.

Lemma pystr_leb_antisym a : forall b,
  pystr_leb a b = true -> pystr_leb b a = true -> a = b.
Proof.
  induction a as [|x a IH]; intros [|y b]; cbn [pystr_leb]; try easy.
  intros H1 H2.
  apply orb_true_iff in H1 as [H1|H1]; apply orb_true_iff in H2 as [H2|H2].
  - apply N.ltb_lt in H1, H2. lia.
  - apply andb_true_iff in H2 as [H2 _]. apply N.eqb_eq in H2.
    apply N.ltb_lt in H1. lia.
  - apply andb_true_iff in H1 as [H1 _]. apply N.eqb_eq in H1.
    apply N.ltb_lt in H2. lia.
  - apply andb_true_iff in H1 as [H1 H1']. apply andb_true_iff in H2 as [_ H2'].
    apply N.eqb_eq in H1. subst y. f_equal. now apply IH.
Qed.

Lemma pystr_le_total : Total pystr_le.
Proof. intros a b. apply pystr_leb_total. Qed.

Lemma pystr_le_trans : Transitive pystr_le.
Proof. intros a b c. apply pystr_leb_trans. Qed.

Lemma sorted_spec (hs : gset pystr) :
  StronglySorted pystr_le (sorted hs)
  /\ NoDup (sorted hs)
  /\ forall h, h ∈ sorted hs <-> h ∈ hs.
Proof.
  split; [apply (@StronglySorted_merge_sort _ pystr_le _ pystr_le_trans
             pystr_le_total)|].
  split; [apply sorted_NoDup|].
  intros h. unfold sorted. rewrite merge_sort_Permutation.
  apply elem_of_elements.
Qed.

Local Open Scope nat_scope.

Section Load.
Context {W : Type} {E : Env W}.

Lemma names_device_of inv l : name <$> List.map (device_of inv) l = l.
Proof.
  induction l as [|h l IH]; [reflexivity|].
  cbn [List.map fmap list_fmap device_of name]. f_equal. exact IH.
Qed.

Lemma load_inventory_devices_run inventory_path group w t :
  load_inventory_devices inventory_path group {| world := w; trace := t |}
  = (match ansible_inventory w inventory_path with
     | Raise exc => Raise exc
     | Ok proc =>
         if negb (returncode proc =? 0)%Z then
           Raise (str "Failed to run ansible-inventory: " ++ strip (stderr proc))
         else
           match stdout_json proc with
           | Raise exc => Raise exc
           | Ok inv =>
               if negb (bool_decide (group ∈ dom (inv_groups inv))) then
                 Raise (str "Group '" ++ group ++ str "' not found in inventory")
               else
                 match collect_hosts (depth_bound (inv_groups inv))
                         (inv_groups inv) group ∅ with
                 | None => Raise (str "maximum recursion depth exceeded")
                 | Some (hs, _) => Ok (List.map (device_of inv) (sorted hs))
                 end
           end
     end, {| world := w; trace := t |}).
Proof.
  unfold load_inventory_devices, bind, reading, raise, lift_res, ret.
  cbn [world].
  destruct (ansible_inventory w inventory_path) as [proc|exc]; [|reflexivity].
  destruct (negb (returncode proc =? 0)%Z); [reflexivity|].
  destruct (stdout_json proc) as [inv|exc]; [|reflexivity].
  destruct (negb (bool_decide (group ∈ dom (inv_groups inv)))); [reflexivity|].
  now destruct (collect_hosts _ _ group ∅) as [[hs seen]|].
Qed.

End Load.

(** X14.  When [ansible-inventory] succeeds with a document that has the
    selected group, [load_inventory_devices] returns, without any event,
    the devices in ascending code point order of their names, without
    duplicates; the names are exactly the hosts of the groups reachable
    from the selected group, and a device's host is its [ansible_host],
    or its name when that is missing. *)
Theorem X14_load_inventory_devices_sorted {W : Type} {E : Env W}
    (inventory_path group : pystr) (st : St W)
    (proc : ProcResult) (inv : Inventory) :
  ansible_inventory (world st) inventory_path = Ok proc ->
  returncode proc = 0%Z ->
  stdout_json proc = Ok inv ->
  group ∈ dom (inv_groups inv) ->
  exists devices,
    load_inventory_devices inventory_path group st = (Ok devices, st)
    /\ StronglySorted pystr_le (name <$> devices)
    /\ NoDup (name <$> devices)
    /\ (forall h, h ∈ name <$> devices <->
          exists g, rtc (child_of (inv_groups inv)) group g
                    /\ h ∈ hosts (group_data_of (inv_groups inv) g))
    /\ (forall d, d ∈ devices ->
          host d = default (name d) (inv_hostvars inv !! name d)).
Proof.
  intros Hproc Hcode Hjson Hgroup. destruct st as [w t]. cbn [world] in Hproc.
  rewrite load_inventory_devices_run, Hproc, Hcode, Hjson.
  rewrite bool_decide_eq_true_2 by assumption. cbn [Z.eqb negb].
  destruct (collect_hosts_reach (inv_groups inv) group)
    as (hs & seen & -> & _ & Hh).
  destruct (sorted_spec hs) as (Hsorted & Hnd & Hin).
  exists (List.map (device_of inv) (sorted hs)). split; [reflexivity|].
  rewrite names_device_of. split; [exact Hsorted|]. split; [exact Hnd|].
  split.
  - intros h. rewrite Hin. apply Hh.
  - intros d Hd. apply list_elem_of_In, in_map_iff in Hd as (h & <- & _).
    reflexivity.
Qed.

Lemma X14_witness :
  exists devices,
    load_inventory_devices (E:=Lab.env) (inventory Lab.args) (group Lab.args)
      (init (Lab.drifted_world ∅))
    = (Ok devices, init (Lab.drifted_world ∅))
    /\ StronglySorted pystr_le (name <$> devices).
Proof.
  destruct (X14_load_inventory_devices_sorted (E:=Lab.env)
              (inventory Lab.args) (group Lab.args) (init (Lab.drifted_world ∅))
              {| returncode := 0; stdout_json := Ok Lab.fabric; stderr := [] |}
              Lab.fabric)
    as (devices & Hrun & Hsorted & _).
  - reflexivity.
  - reflexivity.
  - reflexivity.
  - apply (bool_decide_unpack _). vm_compute. exact I.
  - exists devices. split; assumption.
Defined.

(** X15.  [load_inventory_devices] fails in four cases only, each with
    its own message, and never adds an event: the subprocess cannot be
    run, it exits with a non-zero status ("Failed to run
    ansible-inventory: " and the stripped error output), its output is
    not a JSON document, or the group is missing ("Group '<group>' not
    found in inventory").  The recursion limit of the interpreter is not
    modelled. *)
Theorem X15_load_inventory_devices_failure {W : Type} {E : Env W}
    (inventory_path group : pystr) (st : St W) :
  exists r,
    load_inventory_devices inventory_path group st = (r, st)
    /\ forall exc,
         r = Raise exc <->
         match ansible_inventory (world st) inventory_path with
         | Raise exc' => exc = exc'
         | Ok proc =>
             if (returncode proc =? 0)%Z then
               match stdout_json proc with
               | Raise exc' => exc = exc'
               | Ok inv =>
                   (group ∉ dom (inv_groups inv))
                   /\ exc = str "Group '" ++ group
                              ++ str "' not found in inventory"
               end
             else exc = str "Failed to run ansible-inventory: "
                          ++ strip (stderr proc)
         end.
Proof.
  destruct st as [w t]. cbn [world].
  eexists. split; [apply load_inventory_devices_run|].
  intros exc.
  destruct (ansible_inventory w inventory_path) as [proc|exc'];
    [|split; congruence].
  destruct (returncode proc =? 0)%Z; cbn [negb]; [|split; congruence].
  destruct (stdout_json proc) as [inv|exc']; [|split; congruence].
  destruct (decide (group ∈ dom (inv_groups inv))) as [Hin|Hout].
  - rewrite bool_decide_eq_true_2 by assumption. cbn [negb].
    destruct (collect_hosts_reach (inv_groups inv) group) as (hs & seen & -> & _).
    split; [discriminate | now intros [? _]].
  - rewrite bool_decide_eq_false_2 by assumption. cbn [negb].
    split; [intros [= <-]; now split | intros [_ ->]; reflexivity].
Qed.

Lemma nzhead_not_D0 d u : Decimal.nzhead d <> Decimal.D0 u.
Proof. induction d; cbn [Decimal.nzhead]; try discriminate. exact IHd. Qed.

Lemma to_uint_head p u : Pos.to_uint p <> Decimal.D0 u.
Proof.
  intros H.
  assert (Hn : Decimal.unorm (Pos.to_uint p) = Pos.to_uint p).
  { rewrite <- (DecimalPos.Unsigned.to_of (Pos.to_uint p)).
    now rewrite DecimalPos.Unsigned.of_to. }
  rewrite H in Hn. unfold Decimal.unorm in Hn.
  destruct (Decimal.nzhead (Decimal.D0 u)) eqn:Hz;
    try (rewrite <- Hn in H; discriminate).
  - injection Hn as <-. now apply (DecimalPos.Unsigned.to_uint_nonzero p).
  - now apply nzhead_not_D0 in Hz.
Qed.

Lemma decimal_pos_head z :
  (0 < z)%Z -> exists c rest, decimal z = c :: rest /\ c <> 48%N /\ c <> 47%N.
Proof.
  destruct z as [|p|p]; try lia. intros _.
  unfold decimal. cbn [Z.to_int NilEmpty.string_of_int].
  pose proof (to_uint_head p) as Hhead.
  pose proof (DecimalPos.Unsigned.to_uint_nonnil p) as Hnil.
  destruct (Pos.to_uint p) as [|u|u|u|u|u|u|u|u|u|u];
    [congruence | now destruct (Hhead u) | ..];
    cbn [NilEmpty.string_of_uint str list_ascii_of_string List.map];
    eexists _, _; (split; [reflexivity|]); split; vm_compute; discriminate.
Qed.

Lemma endswith_app a b : endswith b (a ++ b) = true.
Proof.
  unfold endswith. rewrite rev_app_distr.
  induction (rev b) as [|c l IH]; [reflexivity|].
  cbn [app startswith]. now rewrite N.eqb_refl.
Qed.

Lemma startswith_zero_slash c s :
  c <> 48%N -> startswith (str "0/") (c :: s) = false.
Proof.
  intros Hc. change (str "0/") with [48; 47]%N. cbn [startswith].
  assert (H : (48 =? c)%N = false) by (apply N.eqb_neq; congruence).
  now rewrite H.
Qed.

Lemma bgp_style_counts established total :
  (0 <= established)%Z ->
  bgp_style (decimal established ++ str "/" ++ decimal total ++ str " up")
  = if (established =? 0)%Z then str "yellow" else str "green".
Proof.
  intros Hnonneg. unfold bgp_style.
  assert (Hend : endswith (str "up")
                   (decimal established ++ str "/" ++ decimal total ++ str " up")
                 = true).
  { replace (decimal established ++ str "/" ++ decimal total ++ str " up")
      with ((decimal established ++ str "/" ++ decimal total ++ str " ")
              ++ str "up")
      by (rewrite <- !app_assoc; reflexivity).
    apply endswith_app. }
  rewrite Hend. destruct (established =? 0)%Z eqn:Hz.
  - apply Z.eqb_eq in Hz. subst established. reflexivity.
  - apply Z.eqb_neq in Hz.
    destruct (decimal_pos_head established ltac:(lia)) as (c & rest & -> & Hc & _).
    change ((c :: rest) ++ str "/" ++ decimal total ++ str " up")
      with (c :: (rest ++ str "/" ++ decimal total ++ str " up")).
    now rewrite (startswith_zero_slash c _ Hc).
Qed.

(** X16.  The BGP cell of [build_dashboard] is green exactly when
    [read_bgp_status] reports at least one established session. *)
Theorem X16_bgp_cell_green {W : Type} {E : Env W} (node : Node) (st : St W) :
  exists text st',
    read_bgp_status node st = (Ok text, st')
    /\ (bgp_style text = str "green" <->
        exists established total : Z,
          (0 < established <= total)%Z
          /\ text = decimal established ++ str "/" ++ decimal total
                      ++ str " up").
Proof.
  destruct st as [w t].
  assert (Hiso : isolated_reader read_bgp_status (str "show ip bgp summary") node w)
    by (eapply isolated_of_run; [intros st; reflexivity | apply read_bgp_status_pure]).
  destruct Hiso as (text & Hrun & _).
  eexists text, _. split; [apply (Hrun t)|].
  split.
  - intros Hgreen.
    destruct (read_bgp_status_shape _ _ _ _ (Hrun t))
      as [->|(established & total & Hle & Hpos & ->)];
      [vm_compute in Hgreen; discriminate|].
    rewrite bgp_style_counts in Hgreen by lia.
    destruct (established =? 0)%Z eqn:Hz; [vm_compute in Hgreen; discriminate|].
    apply Z.eqb_neq in Hz. exists established, total. split; [lia | reflexivity].
  - intros (established & total & Hle & ->).
    rewrite bgp_style_counts by lia.
    destruct (established =? 0)%Z eqn:Hz; [|reflexivity].
    apply Z.eqb_eq in Hz. lia.
Qed.

Lemma length_slice_to {A} (l : list A) (stop : Z) :
  (0 <= stop)%Z ->
  List.length (slice_to l stop) = Nat.min (Z.to_nat stop) (List.length l).
Proof.
  intros H. unfold slice_to.
  destruct (stop <? 0)%Z eqn:Hs; [apply Z.ltb_lt in Hs; lia|].
  apply length_take.
Qed.

(** X17.  [display_diff] on a non-empty diff prints a panel titled
    "Diff: <device>" whose body is a prefix of the diff lines, followed,
    when lines are left out, by "... (<k> more lines)".  For a limit that
    is not negative the lines shown and the number announced add up to
    the length of the diff; for a negative limit the number announced
    exceeds the length of the diff. *)
Theorem X17_display_diff_counts (device : pystr) (diff_lines : list pystr)
    (max_lines : Z) :
  diff_lines <> [] ->
  exists shown announced,
    display_diff device diff_lines max_lines
    = Some (str "Diff: " ++ device,
            join [LF] shown
              ++ match announced with
                 | None => []
                 | Some k => [LF] ++ str "... (" ++ decimal k
                               ++ str " more lines)"
                 end)
    /\ shown `prefix_of` diff_lines
    /\ ((0 <= max_lines)%Z ->
        match announced with
        | None => shown = diff_lines
        | Some k =>
            (0 < k)%Z
            /\ (Z.of_nat (List.length shown) + k
                = Z.of_nat (List.length diff_lines))%Z
        end)
    /\ ((max_lines < 0)%Z ->
        exists k, announced = Some k
                  /\ (Z.of_nat (List.length diff_lines) < k)%Z).
Proof.
  intros Hne. unfold display_diff.
  destruct diff_lines as [|l0 ls] eqn:Hd; [congruence|]. rewrite <- Hd.
  replace (nonempty diff_lines) with true by (now subst).
  cbn [negb].
  exists (slice_to diff_lines max_lines),
    (if (Z.of_nat (List.length diff_lines) >? max_lines)%Z
     then Some (Z.of_nat (List.length diff_lines) - max_lines)%Z else None).
  split; [now destruct (_ >? _)%Z|].
  split; [unfold slice_to; destruct (_ <? _)%Z; apply prefix_take|].
  split.
  - intros Hpos. destruct (_ >? _)%Z eqn:Hgt.
    + apply Z.gtb_lt in Hgt. rewrite length_slice_to by assumption. lia.
    + assert (Hle : (Z.of_nat (List.length diff_lines) <= max_lines)%Z).
      { destruct (Z.gtb_spec (Z.of_nat (List.length diff_lines)) max_lines); 
          [discriminate | lia]. }
      unfold slice_to. destruct (max_lines <? 0)%Z eqn:Hs;
        [apply Z.ltb_lt in Hs; lia|].
      apply take_ge. lia.
  - intros Hneg. eexists. split; [|].
    + assert (Hgt : (Z.of_nat (List.length diff_lines) >? max_lines)%Z = true)
        by (apply Z.gtb_lt; lia).
      rewrite Hgt. reflexivity.
    + lia.
Qed.

Lemma X17_witness :
  exists shown announced,
    display_diff (str "leaf1")
      [str "--- golden"; str "+++ running"; str "+vlan 666"] 2
    = Some (str "Diff: leaf1",
            join [LF] shown
              ++ match announced with
                 | None => []
                 | Some k => [LF] ++ str "... (" ++ decimal k
                               ++ str " more lines)"
                 end)
    /\ shown `prefix_of` [str "--- golden"; str "+++ running"; str "+vlan 666"].
Proof.
  destruct (X17_display_diff_counts (str "leaf1")
              [str "--- golden"; str "+++ running"; str "+vlan 666"] 2)
    as (shown & announced & Hrun & Hpre & _).
  - discriminate.
  - exists shown, announced. split; assumption.
Defined.

Section Cycles.
Context {W : Type} {E : Env W}.




End Cycles.


(** With [--watch --interval -1] the exception of [time.sleep] ends
    [main] after one collection. *)
Example watch_negative_interval :
  let args :=
    {| inventory := inventory Lab.args; group := group Lab.args;
       username := username Lab.args; password := password Lab.args;
       port := port Lab.args; insecure := insecure Lab.args;
       transport := transport Lab.args; golden_dir := golden_dir Lab.args;
       flash_dir := flash_dir Lab.args; watch := true;
       interval := FFin (Qmake (-1) 1); no_restore := true;
       max_diff_lines := max_diff_lines Lab.args |} in
  fst (main (E:=Lab.env) args (init (Lab.drifted_world ∅)))
  = Raise (str "sleep length must be non-negative").
Proof. vm_compute. reflexivity. Qed.

Section ScriptRuns.
Context {W : Type} {E : Env W} {S : ScriptEnv W}.

Lemma silent_ret {A} (a : A) : silent (W:=W) (ret a).
Proof. now intros st. Qed.

Lemma silent_raise {A} exc : silent (W:=W) (A:=A) (raise exc).
Proof. now intros st. Qed.

Lemma silent_bind {A B} (m : M W A) (k : A -> M W B) :
  silent m -> (forall a, silent (W:=W) (k a)) -> silent (W:=W) (bind m k).
Proof.
  intros Hm Hk st. unfold bind. specialize (Hm st).
  destruct (m st) as [[a|exc] st1]; cbn [snd] in Hm; subst st1; [apply Hk|].
  reflexivity.
Qed.

Lemma silent_as_dict v : silent (W:=W) (as_dict v).
Proof. destruct v; (apply silent_ret || apply silent_raise). Qed.

Lemma silent_result_or_self v : silent (W:=W) (result_or_self v).
Proof.
  apply silent_bind; [apply silent_as_dict | intros; apply silent_ret].
Qed.

Lemma silent_get_output v : silent (W:=W) (get_output v).
Proof.
  apply silent_bind; [apply silent_as_dict | intros; apply silent_ret].
Qed.

Lemma bind_silent_snd {A B} (m : M W A) (k : A -> M W B) st :
  (forall a, silent (W:=W) (k a)) -> snd (bind m k st) = snd (m st).
Proof.
  intros Hk. unfold bind. destruct (m st) as [[a|exc] st1]; [apply Hk|].
  reflexivity.
Qed.

Lemma try_unit_run (m : M W unit) st :
  try_except m (fun _ => ret tt) st = (Ok tt, snd (m st)).
Proof. unfold try_except. now destruct (m st) as [[[]|exc] st1]. Qed.

Lemma enable_first_run node command text w t :
  enable_first node command text {| world := w; trace := t |}
  = (match enable_show w node command text with
     | Ok (x :: _) => Ok x
     | Ok [] => Raise (str "list index out of range")
     | Raise exc => Raise exc
     end,
     {| world := w;
        trace := t ++ [EvEnable (node_device node) [command] text] |}).
Proof.
  unfold enable_first, node_enable, first_item, bind, log, reading, ret, raise,
    emit. cbn [world trace].
  now destruct (enable_show w node command text) as [[|x l]|exc].
Qed.

Lemma resolve_inventory_path_run inventory_path w t :
  resolve_inventory_path inventory_path {| world := w; trace := t |}
  = (resolved_path w inventory_path, {| world := w; trace := t |}).
Proof.
  unfold resolve_inventory_path, resolved_path, bind, reading, ret.
  cbn [world].
  destruct (is_file w inventory_path) as [[|]|exc]; try reflexivity.
  cbn [world].
  now destruct (is_file w (path_div repo_root inventory_path)) as [[|]|exc].
Qed.

Lemma load_hosts_run inventory_path group w :
  exists r,
    (forall t, load_hosts inventory_path group {| world := w; trace := t |}
               = (r, {| world := w; trace := t |}))
    /\ forall targets, r = Ok targets ->
         NoDup (fst <$> targets)
         /\ StronglySorted pystr_le (fst <$> targets).
Proof.
  unfold load_hosts, bind, reading, raise, lift_res, ret. cbn [world].
  destruct (ansible_inventory w inventory_path) as [proc|exc];
    [|eexists; split; [reflexivity | discriminate]].
  destruct (negb (returncode proc =? 0)%Z);
    [eexists; split; [reflexivity | discriminate]|].
  destruct (stdout_json proc) as [inv|exc];
    [|eexists; split; [reflexivity | discriminate]].
  destruct (negb (bool_decide (group ∈ dom (inv_groups inv))));
    [eexists; split; [reflexivity | discriminate]|].
  destruct (collect _ _ group ∅) as [[hs seen]|];
    [|eexists; split; [reflexivity | discriminate]].
  eexists. split; [reflexivity|].
  intros targets H. injection H as <-.
  match goal with
  | |- context [fst <$> List.map ?f ?l] =>
      replace (fst <$> List.map f l) with l
  end.
  - destruct (sorted_spec hs) as (Hs & Hnd & _). now split.
  - induction (sorted hs) as [|h l IH]; [reflexivity|].
    cbn [List.map fmap list_fmap fst]. now rewrite <- IH at 1.
Qed.

(** One pass of the loop body of inventory_check.py. *)
Lemma check_host_run args target w t :
  check_host args target {| world := w; trace := t |}
  = (Ok tt, {| world := w; trace := t ++ check_events args w target |}).
Proof.
  unfold check_host, check_events. rewrite try_unit_run. f_equal.
  set (device := {| name := fst target; host := snd target |}).
  set (node := {| node_device := device; node_args := args |}).
  unfold bind at 1. rewrite node_for_device_run.
  destruct (connect w args device) as [[]|exc]; [|reflexivity].
  fold node. unfold bind at 1. rewrite enable_first_run.
  cbn [node_device node].
  destruct (enable_show w node (str "show version") false) as [[|r1 l1]|exc];
    cbn [snd]; rewrite <- ?app_assoc; try reflexivity.
  unfold bind at 1.
  pose proof (silent_result_or_self r1
                {| world := w;
                   trace := t ++ [EvConnect device]
                              ++ [EvEnable device [str "show version"] false] |})
    as Hsil.
  destruct (result_or_self r1 _) as [[version_data|exc] st1] eqn:Hres;
    cbn [snd] in Hsil; subst st1.
  - assert (Hd : exists d, r1 = JDict d).
    { destruct r1; try (unfold result_or_self, as_dict, bind, raise in Hres;
                        discriminate). eauto. }
    destruct Hd as [d ->].
    rewrite bind_silent_snd.
    + rewrite enable_first_run. cbn [snd node_device node].
      now rewrite <- !app_assoc.
    + intros a. apply silent_bind; [apply silent_result_or_self|].
      intros a1. apply silent_bind; [apply silent_as_dict|].
      intros a2. apply silent_bind; [apply silent_as_dict|].
      intros a3. apply silent_ret.
  - destruct r1; try reflexivity.
    unfold result_or_self, as_dict, bind, ret in Hres. discriminate.
Qed.

Lemma check_loop_run args targets w t :
  for_each targets tt (fun target _ => check_host args target)
    {| world := w; trace := t |}
  = (Ok tt,
     {| world := w;
        trace := t ++ List.concat (List.map (check_events args w) targets) |}).
Proof.
  revert t. induction targets as [|target targets IH]; intros t.
  - simpl. unfold ret. now rewrite app_nil_r.
  - cbn [for_each List.map List.concat]. unfold bind.
    rewrite check_host_run, IH. now rewrite app_assoc.
Qed.

(** The [try] block of validate-overlay-02-show-vlan-brief.py for one
    host. *)
Lemma show_vlan_brief_run args target w t :
  exists r,
    show_vlan_brief args target {| world := w; trace := t |}
    = (r, {| world := w; trace := t ++ vlan_events args w target |})
    /\ ((exists text, r = Ok text) <-> answers_vlan args w target = true).
Proof.
  unfold show_vlan_brief, vlan_events, answers_vlan.
  set (device := {| name := fst target; host := snd target |}).
  set (node := {| node_device := device; node_args := args |}).
  unfold bind at 1. rewrite node_for_device_run.
  destruct (connect w args device) as [[]|exc].
  2:{ eexists. split; [reflexivity|]. split; [intros [? [=]] | discriminate]. }
  fold node. unfold bind at 1. rewrite enable_first_run.
  cbn [node_device node]. rewrite <- app_assoc.
  destruct (enable_show w node (str "show vlan brief") true) as [[|r1 l1]|exc].
  1,3: eexists; split; [reflexivity|]; split; [intros [? [=]] | discriminate].
  unfold bind at 1.
  pose proof (silent_get_output r1
                {| world := w;
                   trace := t ++ [EvConnect device]
                              ++ [EvEnable device [str "show vlan brief"] true] |})
    as Hsil.
  destruct (get_output r1 _) as [[output|exc] st1] eqn:Hres;
    cbn [snd] in Hsil; subst st1.
  - eexists. split; [reflexivity|]. split; [|eauto]. intros _.
    destruct r1; try (unfold get_output, as_dict, bind, raise in Hres;
                      discriminate). reflexivity.
  - eexists. split; [reflexivity|]. split; [intros [? [=]]|].
    destruct r1; discriminate.
Qed.

Lemma vlan_loop_run args targets w :
  forall (failures : Z) t,
    for_each targets failures
      (fun target failures =>
         try_except (_ <- show_vlan_brief args target ;; ret failures)
           (fun _ => ret (failures + 1)%Z))
      {| world := w; trace := t |}
    = (Ok (failures
           + Z.of_nat (List.length
                         (List.filter (fun target =>
                                         negb (answers_vlan args w target))
                            targets)))%Z,
       {| world := w;
          trace := t ++ List.concat (List.map (vlan_events args w) targets) |}).
Proof.
  induction targets as [|target targets IH]; intros failures t.
  - simpl. unfold ret. now rewrite app_nil_r, Z.add_0_r.
  - cbn [for_each List.map List.concat List.filter]. unfold bind at 1.
    destruct (show_vlan_brief_run args target w t) as (r & Hrun & Hok).
    unfold try_except, bind at 1. rewrite Hrun.
    destruct r as [text|exc].
    + unfold ret at 1. rewrite IH.
      rewrite (proj1 Hok) by eauto. cbn [negb]. now rewrite app_assoc.
    + unfold ret at 1. rewrite IH.
      destruct (answers_vlan args w target) eqn:Ha.
      * destruct (proj2 Hok eq_refl) as [? [=]].
      * cbn [negb List.length]. rewrite app_assoc. f_equal. f_equal. lia.
Qed.

Lemma loaded_targets_run inventory_path group w :
  exists loaded,
    (forall t,
       try_except
         (targets <- load_hosts inventory_path group ;; ret (Some targets))
         (fun _ => ret None) {| world := w; trace := t |}
       = (Ok loaded, {| world := w; trace := t |}))
    /\ loaded = match fst (load_hosts inventory_path group (init w)) with
                | Ok targets => Some targets
                | Raise _ => None
                end.
Proof.
  destruct (load_hosts_run inventory_path group w) as (r & Hrun & _).
  exists (match r with Ok targets => Some targets | Raise _ => None end).
  split.
  - intros t. unfold try_except, bind, ret. rewrite Hrun. now destruct r.
  - unfold init. now rewrite Hrun.
Qed.

End ScriptRuns.

Section ScriptExits.
Context {W : Type} {E : Env W}.

Lemma check_events_quiet args (w : W) target :
  Forall (fun ev => mutating ev = false) (check_events args w target).
Proof.
  unfold check_events. destruct (connect w args _); repeat constructor.
  destruct (enable_show w _ _ _) as [[|[] ?]|]; repeat constructor.
Qed.

Lemma vlan_events_quiet args (w : W) target :
  Forall (fun ev => mutating ev = false) (vlan_events args w target).
Proof.
  unfold vlan_events. destruct (connect w args _); repeat constructor.
Qed.

Lemma Forall_concat_map {A} (P : Event -> Prop) (f : A -> list Event) l :
  (forall x, Forall P (f x)) -> Forall P (List.concat (List.map f l)).
Proof.
  intros H. induction l as [|x l IH]; [constructor|].
  cbn [List.map List.concat]. apply Forall_app. now split.
Qed.

Lemma filter_negb_length {A} (f : A -> bool) (l : list A) :
  List.length (List.filter (fun x => negb (f x)) l) = 0
  <-> forall x, x ∈ l -> f x = true.
Proof.
  induction l as [|x l IH]; cbn [List.filter].
  - split; [intros _ x Hx; inversion Hx | reflexivity].
  - destruct (f x) eqn:Hx; cbn [negb List.length].
    + rewrite IH. split.
      * intros H y Hy. apply elem_of_cons in Hy as [->|Hy]; auto.
      * intros H y Hy. apply H. now right.
    + split; [discriminate|]. intros H.
      rewrite (H x) in Hx by left. discriminate.
Qed.

End ScriptExits.

(** X19.  inventory_check.py.  Once the command line is parsed, [main]
    is ended by an exception, before anything is contacted, exactly when
    [path.is_file()] raises in [resolve_inventory_path]; otherwise it
    returns 2, having contacted no device, when the host list cannot be
    loaded or is empty, and 0 otherwise, whatever the devices answer.
    Each host is sent "show version", and "show hostname" only when the
    first answer is an object; nothing is changed. *)
Theorem X19_inventory_check_exit {W : Type} {E : Env W}
    {S : ScriptEnv W} (args : Args) (w : W) :
  (forall t,
     resolve_inventory_path (inventory args) {| world := w; trace := t |}
     = (resolved_path w (inventory args), {| world := w; trace := t |}))
  /\ exists r evs,
    (forall t,
       inventory_check_main args {| world := w; trace := t |}
       = (r, {| world := w; trace := t ++ evs |}))
    /\ Forall (fun ev => mutating ev = false) evs
    /\ match resolved_path w (inventory args) with
       | Raise exc => r = Raise exc /\ evs = []
       | Ok inventory_path =>
           match fst (load_hosts inventory_path (group args) (init w)) with
           | Ok (target :: rest) =>
               r = Ok 0%Z
               /\ evs = List.concat
                          (List.map (check_events args w) (target :: rest))
           | _ => r = Ok 2%Z /\ evs = []
           end
       end.
Proof.
  pose proof (resolve_inventory_path_run (inventory args) w) as Hres.
  split; [exact Hres|].
  destruct (resolved_path w (inventory args)) as [inventory_path|exc].
  2:{ exists (Raise exc), []. split; [|split; [constructor | now split]].
      intros t. unfold inventory_check_main.
      rewrite (bind_run_raise _ _ _ _ _ (Hres t)). now rewrite app_nil_r. }
  destruct (loaded_targets_run inventory_path (group args) w)
    as (loaded & Hload & Hloaded).
  assert (Hmain : forall t,
    inventory_check_main args {| world := w; trace := t |}
    = match loaded with
      | None => ret 2%Z
      | Some targets =>
          if negb (nonempty targets) then ret 2%Z
          else
            _ <- for_each targets tt (fun target _ => check_host args target) ;;
            ret 0%Z
      end {| world := w; trace := t |}).
  { intros t. unfold inventory_check_main.
    rewrite (bind_run_ok _ _ _ _ _ (Hres t)).
    now rewrite (bind_run_ok _ _ _ _ _ (Hload t)). }
  destruct (fst (load_hosts _ _ _)) as [[|target rest]|exc]; subst loaded.
  - exists (Ok 2%Z), [].
    split; [intros t; rewrite Hmain; unfold ret; now rewrite app_nil_r|].
    split; [constructor | split; reflexivity].
  - eexists (Ok 0%Z), _.
    split; [|split; [|split; reflexivity]].
    + intros t. rewrite Hmain. cbn [nonempty negb]. unfold bind.
      now rewrite check_loop_run.
    + apply Forall_concat_map. intros x. apply check_events_quiet.
  - exists (Ok 2%Z), [].
    split; [intros t; rewrite Hmain; unfold ret; now rewrite app_nil_r|].
    split; [constructor | split; reflexivity].
Qed.

(** X20.  validate-overlay-02-show-vlan-brief.py.  Once the command line
    is parsed, [main] is ended by an exception, before anything is
    contacted, exactly when [path.is_file()] raises in
    [resolve_inventory_path]; otherwise it returns 2 when the host list
    cannot be loaded or is empty, and else connects to every host in the
    order of the list and returns 0 exactly when every host can be
    reached and answers "show vlan brief" with an object, and 1 exactly
    when some host does not. *)
Theorem X20_validate_overlay_exit {W : Type} {E : Env W}
    {S : ScriptEnv W} (args : Args) (w : W) :
  (forall t,
     resolve_inventory_path (inventory args) {| world := w; trace := t |}
     = (resolved_path w (inventory args), {| world := w; trace := t |}))
  /\ exists r evs,
    (forall t,
       validate_overlay_main args {| world := w; trace := t |}
       = (r, {| world := w; trace := t ++ evs |}))
    /\ Forall (fun ev => mutating ev = false) evs
    /\ match resolved_path w (inventory args) with
       | Raise exc => r = Raise exc /\ evs = []
       | Ok inventory_path =>
           match fst (load_hosts inventory_path (group args) (init w)) with
           | Ok (target :: rest) =>
               evs = List.concat
                       (List.map (vlan_events args w) (target :: rest))
               /\ exists code,
                    r = Ok code
                    /\ (code = 0%Z <->
                        forall x, x ∈ target :: rest ->
                          answers_vlan args w x = true)
                    /\ (code = 1%Z <->
                        exists x, x ∈ target :: rest
                                  /\ answers_vlan args w x = false)
           | _ => r = Ok 2%Z /\ evs = []
           end
       end.
Proof.
  pose proof (resolve_inventory_path_run (inventory args) w) as Hres.
  split; [exact Hres|].
  destruct (resolved_path w (inventory args)) as [inventory_path|exc].
  2:{ exists (Raise exc), []. split; [|split; [constructor | now split]].
      intros t. unfold validate_overlay_main.
      rewrite (bind_run_raise _ _ _ _ _ (Hres t)). now rewrite app_nil_r. }
  destruct (loaded_targets_run inventory_path (group args) w)
    as (loaded & Hload & Hloaded).
  assert (Hmain : forall t,
    validate_overlay_main args {| world := w; trace := t |}
    = match loaded with
      | None => ret 2%Z
      | Some targets =>
          if negb (nonempty targets) then ret 2%Z
          else
            failures <-
              for_each targets 0%Z
                (fun target failures =>
                   try_except (_ <- show_vlan_brief args target ;; ret failures)
                     (fun _ => ret (failures + 1)%Z)) ;;
            if negb (failures =? 0)%Z then ret 1%Z else ret 0%Z
      end {| world := w; trace := t |}).
  { intros t. unfold validate_overlay_main.
    rewrite (bind_run_ok _ _ _ _ _ (Hres t)).
    now rewrite (bind_run_ok _ _ _ _ _ (Hload t)). }
  destruct (fst (load_hosts _ _ _)) as [[|target rest]|exc]; subst loaded.
  - exists (Ok 2%Z), [].
    split; [intros t; rewrite Hmain; unfold ret; now rewrite app_nil_r|].
    split; [constructor | split; reflexivity].
  - set (targets := target :: rest).
    set (failed := List.length
                     (List.filter (fun x => negb (answers_vlan args w x)) targets)).
    pose proof (filter_negb_length (answers_vlan args w) targets) as Hzero.
    fold failed in Hzero.
    exists (Ok (if (Z.of_nat failed =? 0)%Z then 0%Z else 1%Z)),
      (List.concat (List.map (vlan_events args w) targets)).
    split; [|split; [|split; [reflexivity|]]].
    + intros t. rewrite Hmain. cbn [nonempty negb targets]. unfold bind at 1.
      rewrite vlan_loop_run. fold targets. fold failed. rewrite Z.add_0_l.
      now destruct (Z.of_nat failed =? 0)%Z.
    + apply Forall_concat_map. intros x. apply vlan_events_quiet.
    + eexists. split; [reflexivity|]. split.
      * destruct (Z.of_nat failed =? 0)%Z eqn:Hf.
        -- apply Z.eqb_eq in Hf. split; [intros _|reflexivity].
           apply Hzero. lia.
        -- apply Z.eqb_neq in Hf. split; [discriminate|]. intros Hall.
           apply (proj2 Hzero) in Hall. lia.
      * destruct (Z.of_nat failed =? 0)%Z eqn:Hf.
        -- apply Z.eqb_eq in Hf. split; [discriminate|].
           intros (x & Hx & Hans).
           assert (H0 : failed = 0) by lia.
           rewrite (proj1 Hzero H0 x Hx) in Hans. discriminate.
        -- apply Z.eqb_neq in Hf. split; [intros _|reflexivity].
           destruct (List.filter (fun x => negb (answers_vlan args w x)) targets)
             as [|x l] eqn:Hl;
             [unfold failed in Hf; rewrite ?Hl in Hf; simpl in Hf; lia|].
           assert (Hin : In x (List.filter
                                 (fun x => negb (answers_vlan args w x)) targets))
             by (rewrite Hl; now left).
           apply List.filter_In in Hin as [Hin Hx]. exists x.
           split; [now apply list_elem_of_In|]. now apply negb_true_iff.
  - exists (Ok 2%Z), [].
    split; [intros t; rewrite Hmain; unfold ret; now rewrite app_nil_r|].
    split; [constructor | split; reflexivity].
Qed.

(** X21.  The scripts agree on the host list.  When [ansible-inventory]
    exits with status 0, [load_hosts] returns the names and hosts of the
    devices [load_inventory_devices] returns, in the same order, and
    fails with the same message where that fails. *)
Theorem X21_load_hosts_agrees {W : Type} {E : Env W}
    {S : ScriptEnv W} (inventory_path group : pystr) (st : St W) (proc : ProcResult) :
  ansible_inventory (world st) inventory_path = Ok proc ->
  returncode proc = 0%Z ->
  load_hosts inventory_path group st
  = (match fst (load_inventory_devices inventory_path group st) with
     | Ok devices => Ok (List.map (fun d => (name d, host d)) devices)
     | Raise exc => Raise exc
     end, st).
Proof.
  intros Hproc Hcode. destruct st as [w t]. cbn [world] in Hproc.
  rewrite load_inventory_devices_run, Hproc, Hcode. cbn [Z.eqb negb fst].
  unfold load_hosts, bind, reading, raise, lift_res, ret. cbn [world].
  rewrite Hproc, Hcode. cbn [Z.eqb negb].
  destruct (stdout_json proc) as [inv|exc]; [|reflexivity].
  destruct (negb (bool_decide (group ∈ dom (inv_groups inv)))); [reflexivity|].
  rewrite collect_collect_hosts.
  destruct (collect_hosts _ _ group ∅) as [[hs seen]|]; [|reflexivity].
  f_equal. f_equal. rewrite List.map_map. reflexivity.
Qed.

Lemma X21_witness :
  fst (load_hosts (E:=Lab.env) (S:=Lab_scripts) (inventory Lab.args) (group Lab.args)
         (init (Lab.drifted_world ∅)))
  = Ok [(str "leaf1", str "10.0.0.1"); (str "leaf2", str "10.0.0.2")].
Proof.
  rewrite (X21_load_hosts_agrees (E:=Lab.env) (S:=Lab_scripts) (inventory Lab.args)
             (group Lab.args) (init (Lab.drifted_world ∅))
             {| returncode := 0; stdout_json := Ok Lab.fabric; stderr := [] |}
             eq_refl eq_refl).
  vm_compute. reflexivity.
Defined.
